(** * SkyTemple UI controllers: a shallow embedding and its properties

    The development follows three source files:
    - [skytemple/controller/main.py] (class [MainController]),
    - [skytemple/module/sprite/controller/monster_sprite.py]
      (class [MonsterSpriteController]),
    - [skytemple/module/lists/controller/dungeon_interrupt.py]
      (class [DungeonInterruptController]).

    GTK objects are modelled by the part of their state the controllers read
    and write: a [Gtk.TreeStore] is a forest of rows addressed by tree paths,
    a [Gtk.Stack] is its list of named pages and its visible child, the GLib
    timeouts are the ids of the sources that are still installed.  What a
    handler asks of the rest of the program (modules, the ROM library,
    dialogs) is recorded in a trace. *)

From Stdlib Require Import ZArith Ascii String List Bool Lia.
From stdpp Require Import base option list strings sorting.

Local Open Scope Z_scope.
Local Open Scope string_scope.
Local Open Scope list_scope.

(** ** Strings: the fragment of [str.lower] and [in] the search filter uses *)

Module Str.

(** [c.lower()] on the ASCII range: 'A'..'Z' are moved to 'a'..'z'. *)
Definition lower_ascii (c : ascii) : ascii :=
  let n := nat_of_ascii c in
  if ((65 <=? n)%nat && (n <=? 90)%nat)%bool then ascii_of_nat (n + 32) else c.

Fixpoint lower (s : string) : string :=
  match s with
  | EmptyString => EmptyString
  | String c s' => String (lower_ascii c) (lower s')
  end.

(** [q in s]: [q] occurs in [s] as a contiguous substring. *)
Fixpoint contains (q s : string) : bool :=
  String.prefix q s ||
  match s with
  | EmptyString => false
  | String _ s' => contains q s'
  end.

End Str.

(** ** The item store: a [Gtk.TreeStore] *)

Module ItemStore.

(** Opaque identities of modules and controller classes held in columns 2
    and 3 of a row. *)
Definition module_id := nat.
Definition class_id := nat.

(** The columns of a row that the controller reads or writes:
    column 1 (label searched by the filter), 2 (module), 3 (controller
    class), 4 (item id), 6 (displayed title), 7 = [COL_VISIBLE]. *)
Record row_data := RowData {
  col_label : string;
  col_module : module_id;
  col_controller_class : class_id;
  col_item_id : Z;
  col_title : string;
  col_visible : bool
}.

Local Unset Elimination Schemes.
Inductive tree := Node (d : row_data) (cs : list tree).
Local Set Elimination Schemes.

Definition data (t : tree) : row_data := match t with Node d _ => d end.
Definition children (t : tree) : list tree := match t with Node _ cs => cs end.

(** The store is the list of its top-level rows. *)
Definition store := list tree.

(** A [Gtk.TreePath]: child indices from the top level down.  A
    [Gtk.TreeIter] is a path that addresses an existing row. *)
Definition path := list nat.

(** [model[iter]] *)
Fixpoint lookup_path (f : list tree) (p : path) : option tree :=
  match p with
  | [] => None
  | i :: p' =>
      match f !! i with
      | None => None
      | Some t => match p' with [] => Some t | _ => lookup_path (children t) p' end
      end
  end.

(** In-place update of the row addressed by [p]. *)
Fixpoint alter_path (g : tree -> tree) (f : list tree) (p : path) : list tree :=
  match p with
  | [] => f
  | i :: p' =>
      alter (fun t => match p' with
                      | [] => g t
                      | _ => Node (data t) (alter_path g (children t) p')
                      end) i f
  end.

Definition set_col_visible (b : bool) (d : row_data) : row_data :=
  RowData (col_label d) (col_module d) (col_controller_class d)
          (col_item_id d) (col_title d) b.

Definition set_visible (b : bool) (t : tree) : tree :=
  Node (set_col_visible b (data t)) (children t).

(** [model.iter_parent(iter)]: [None] for a top-level row. *)
Definition iter_parent (p : path) : option path :=
  match removelast p with
  | [] => None
  | q => Some q
  end.

(** The rows below [t] in depth-first order, as paths relative to [t]
    ([[]] is [t] itself).  This is the order of [gtk_tree_model_foreach]:
    a row, then its children's subtrees from first to last. *)
Fixpoint tree_paths (t : tree) : list path :=
  match t with
  | Node _ cs =>
      [] :: (fix go (i : nat) (cs : list tree) : list path :=
               match cs with
               | [] => []
               | c :: cs' => (cons i <$> tree_paths c) ++ go (S i) cs'
               end) 0%nat cs
  end.

Fixpoint forest_paths (i : nat) (f : list tree) : list path :=
  match f with
  | [] => []
  | c :: f' => (cons i <$> tree_paths c) ++ forest_paths (S i) f'
  end.

(** [model.foreach(func)]: calls [func] on every row in depth-first order
    and stops as soon as [func] returns [True].  The callbacks of the
    controller set flags of rows and neither add nor remove rows, so the
    rows to visit are the rows the store has when the walk starts. *)
Fixpoint foreach_loop (func : store -> path -> bool * store)
    (ps : list path) (st : store) : store :=
  match ps with
  | [] => st
  | p :: ps' =>
      let (stop, st') := func st p in
      if stop then st' else foreach_loop func ps' st'
  end.

Definition foreach (func : store -> path -> bool * store) (st : store) : store :=
  foreach_loop func (forest_paths 0 st) st.

(** Reading columns through a path. *)
Definition row_at (st : store) (p : path) : option row_data :=
  data <$> lookup_path st p.

Definition visible_at (st : store) (p : path) : bool :=
  match row_at st p with Some d => col_visible d | None => false end.

Definition label_at (st : store) (p : path) : option string :=
  col_label <$> row_at st p.

End ItemStore.

(** ** Effects: exceptions, a trace of what the GUI was asked to do *)

Module Eff.

(** [threading.current_thread()] *)
Definition thread := nat.

(** The exceptions of the modelled code.  A failed [assert] carries the
    source line it stands on. *)
Inductive exn :=
  | AssertionError (line : nat)
  | OverflowError
  | IndexError
  | ValueError
  | Exception (msg : string).

Inductive result (A : Type) :=
  | Ok (a : A)
  | Raised (e : exn).
Arguments Ok {A} a.
Arguments Raised {A} e.

(** What a handler asks of the world outside the controller. *)
Inductive event :=
  | Called (name : string)
      (** a call into a module, the ROM library or a helper was started *)
  | DisplayError (title : string) (e : exn)
      (** [display_error(exc_info, str(e), title)]: the modal error dialog *)
  | MessageDialog (text : string)
      (** a message dialog was run and destroyed *)
  | DialogRun (name : string)
      (** [dialog.run()] of a builder dialog *)
  | WidgetDestroyed (w : nat)
  | WidgetShown (w : nat)
  | ControllerUnloaded (c : nat)
  | TaskStarted (module cls : nat) (item_id : Z)
      (** [AsyncTaskDelegator.run_task(load_view(module, cls, item_id, self))] *)
  | EventTriggered (name : string)
  | SetTitle (title : string) (is_modified : bool)
  | SetSubtitle (text : string)
  | QueueDraw
  | TimeoutAdded (interval : Z).

(** The world a handler runs in: the thread it runs on, which outside calls
    will raise (and with what message), the trace so far and the controller
    object ([self]). *)
#[projections(primitive)]
Record world (C : Type) := World {
  current_thread : thread;
  raises : string -> option string;
  trace : list event;
  self : C
}.
Arguments World {C}.
Arguments current_thread {C}.
Arguments raises {C}.
Arguments trace {C}.
Arguments self {C}.

Definition M (C A : Type) : Type := world C -> result A * world C.

Definition ret {C A} (a : A) : M C A := fun w => (Ok a, w).

Definition bind {C A B} (m : M C A) (k : A -> M C B) : M C B :=
  fun w => match m w with
           | (Ok a, w') => k a w'
           | (Raised e, w') => (Raised e, w')
           end.

Definition raise {C A} (e : exn) : M C A := fun w => (Raised e, w).

(** [try: m  except BaseException as e: handler(e)] *)
Definition try_except {C A} (m : M C A) (handler : exn -> M C A) : M C A :=
  fun w => match m w with
           | (Ok a, w') => (Ok a, w')
           | (Raised e, w') => handler e w'
           end.

Definition get_self {C} : M C C := fun w => (Ok (self w), w).

Definition put_self {C} (c : C) : M C unit :=
  fun w => (Ok tt, World (current_thread w) (raises w) (trace w) c).

Definition modify_self {C} (f : C -> C) : M C unit :=
  fun w => (Ok tt, World (current_thread w) (raises w) (trace w) (f (self w))).

Definition emit {C} (ev : event) : M C unit :=
  fun w => (Ok tt, World (current_thread w) (raises w) (trace w ++ [ev]) (self w)).

(** A call that leaves the modelled code; whether it raises is fixed by the
    world. *)
Definition call {C} (name : string) : M C unit :=
  fun w =>
    let w' := World (current_thread w) (raises w) (trace w ++ [Called name]) (self w) in
    match raises w name with
    | Some msg => (Raised (Exception msg), w')
    | None => (Ok tt, w')
    end.

(** [assert cond], on source line [line] *)
Definition assert {C} (line : nat) (cond : bool) : M C unit :=
  if cond then ret tt else raise (AssertionError line).

(** [display_error(sys.exc_info(), str(e), title)] *)
Definition display_error {C} (e : exn) (title : string) : M C unit :=
  emit (DisplayError title e).

(** [for x in xs: body(x)] *)
Fixpoint for_each {C A} (xs : list A) (body : A -> M C unit) : M C unit :=
  match xs with
  | [] => ret tt
  | x :: xs' => bind (body x) (fun _ => for_each xs' body)
  end.

Module Notations.
Declare Scope eff_scope.
Delimit Scope eff_scope with eff.
Notation "x <- m ;; k" := (bind m (fun x => k))
  (at level 100, m at next level, right associativity) : eff_scope.
Notation "m ;; k" := (bind m (fun _ => k))
  (at level 100, right associativity) : eff_scope.
End Notations.

End Eff.

(** ** [MainController] (skytemple/controller/main.py) *)

Module MainController.
Import ItemStore Eff Eff.Notations.
Local Open Scope eff_scope.

Definition COL_VISIBLE : nat := 7.

(** *** Objects the controller holds *)

Definition widget := nat.
Definition controller := nat.

(** Objects of the builder file, by identity. *)
Definition es_loading : widget := 0%nat.
Definition es_error : widget := 1%nat.

(** A [Gtk.Stack]: its named pages in the order they were added, and the
    page on show. *)
Record stack := Stack {
  pages : list (string * widget);
  visible_child : option widget
}.

Definition get_child_by_name (s : stack) (name : string) : option widget :=
  snd <$> List.find (fun pg => bool_decide (fst pg = name)) (pages s).

Definition stack_remove (s : stack) (w : widget) : stack :=
  Stack (List.filter (fun pg => negb (bool_decide (snd pg = w))) (pages s))
        (if bool_decide (visible_child s = Some w) then None else visible_child s).

Definition add_named (s : stack) (w : widget) (name : string) : stack :=
  Stack (pages s ++ [(name, w)]) (visible_child s).

Definition set_visible_child (s : stack) (w : widget) : stack :=
  Stack (pages s) (Some w).

(** What [get_view()] of a controller does: it returns the widget, or
    raises with a message. *)
Inductive get_view_result :=
  | Returns (w : widget)
  | Raises (msg : string).

(** What a view load delivers: a widget, or a controller with its
    [get_view()].  [cls] is [in_view.__class__]. *)
Inductive view_object :=
  | ViewWidget (cls : class_id) (w : widget)
  | ViewController (cls : class_id) (c : controller) (get_view : get_view_result).

Definition view_class (v : view_object) : class_id :=
  match v with ViewWidget cls _ => cls | ViewController cls _ _ => cls end.

(** A module of the open project, with the rows its [load_tree_items] adds. *)
Record module_info := ModuleInfo {
  module_name : string;
  sort_order : Z;
  tree_items : list tree
}.

(** The open [RomProject]. *)
Record project := Project {
  filename : string;
  has_modifications : bool;
  rom_tree_items : list tree;
  modules : list module_info
}.

(** [SkyTempleSettingsStore] *)
Record settings_store := Settings {
  stored_recent_files : list string;
  assistant_shown : bool;
  sentry_event_id : option string
    (** what [capture_error] hands back: an event id when error reporting
        is allowed, [None] otherwise *)
}.

(** *** The controller object *)

#[projections(primitive)]
Record t := Build {
  main_thread : thread;  (** the module-level [main_thread = current_thread()] *)
  rom_project : option project;  (** [RomProject.get_current()] *)
  settings : settings_store;  (** [self.settings] *)
  recent_files : list string;
  _loading_dialog : option string;  (** a builder dialog, by name *)
  _main_item_list : option bool;  (** the tree view, by its [sensitive] flag *)
  _main_item_filter : option nat;  (** the filter model over [_item_store] *)
  _item_store : store;
  _editor_stack : stack;
  _search_text : option string;
  _current_view_module : option module_id;
  _current_view_controller_class : option class_id;
  _current_view_item_id : option Z;
  _current_view : option view_object;
  _current_breadcrumbs : list string;
  _after_save_action : option nat;  (** a callback, by identity *)
  _view_load_sentry_event_id : option string
}.

Definition set_main_thread (v : thread) (s : t) : t :=
  Build v (rom_project s) (settings s) (recent_files s) (_loading_dialog s)
    (_main_item_list s) (_main_item_filter s) (_item_store s)
    (_editor_stack s) (_search_text s) (_current_view_module s)
    (_current_view_controller_class s) (_current_view_item_id s)
    (_current_view s) (_current_breadcrumbs s) (_after_save_action s)
    (_view_load_sentry_event_id s).

Definition set_rom_project (v : option project) (s : t) : t :=
  Build (main_thread s) v (settings s) (recent_files s) (_loading_dialog s)
    (_main_item_list s) (_main_item_filter s) (_item_store s)
    (_editor_stack s) (_search_text s) (_current_view_module s)
    (_current_view_controller_class s) (_current_view_item_id s)
    (_current_view s) (_current_breadcrumbs s) (_after_save_action s)
    (_view_load_sentry_event_id s).

Definition set_settings (v : settings_store) (s : t) : t :=
  Build (main_thread s) (rom_project s) v (recent_files s) (_loading_dialog s)
    (_main_item_list s) (_main_item_filter s) (_item_store s)
    (_editor_stack s) (_search_text s) (_current_view_module s)
    (_current_view_controller_class s) (_current_view_item_id s)
    (_current_view s) (_current_breadcrumbs s) (_after_save_action s)
    (_view_load_sentry_event_id s).

Definition set_recent_files (v : list string) (s : t) : t :=
  Build (main_thread s) (rom_project s) (settings s) v (_loading_dialog s)
    (_main_item_list s) (_main_item_filter s) (_item_store s)
    (_editor_stack s) (_search_text s) (_current_view_module s)
    (_current_view_controller_class s) (_current_view_item_id s)
    (_current_view s) (_current_breadcrumbs s) (_after_save_action s)
    (_view_load_sentry_event_id s).

Definition set_loading_dialog (v : option string) (s : t) : t :=
  Build (main_thread s) (rom_project s) (settings s) (recent_files s) v
    (_main_item_list s) (_main_item_filter s) (_item_store s)
    (_editor_stack s) (_search_text s) (_current_view_module s)
    (_current_view_controller_class s) (_current_view_item_id s)
    (_current_view s) (_current_breadcrumbs s) (_after_save_action s)
    (_view_load_sentry_event_id s).

Definition set_main_item_list (v : option bool) (s : t) : t :=
  Build (main_thread s) (rom_project s) (settings s) (recent_files s)
    (_loading_dialog s) v (_main_item_filter s) (_item_store s)
    (_editor_stack s) (_search_text s) (_current_view_module s)
    (_current_view_controller_class s) (_current_view_item_id s)
    (_current_view s) (_current_breadcrumbs s) (_after_save_action s)
    (_view_load_sentry_event_id s).

Definition set_main_item_filter (v : option nat) (s : t) : t :=
  Build (main_thread s) (rom_project s) (settings s) (recent_files s)
    (_loading_dialog s) (_main_item_list s) v (_item_store s)
    (_editor_stack s) (_search_text s) (_current_view_module s)
    (_current_view_controller_class s) (_current_view_item_id s)
    (_current_view s) (_current_breadcrumbs s) (_after_save_action s)
    (_view_load_sentry_event_id s).

Definition set_item_store (v : store) (s : t) : t :=
  Build (main_thread s) (rom_project s) (settings s) (recent_files s)
    (_loading_dialog s) (_main_item_list s) (_main_item_filter s) v
    (_editor_stack s) (_search_text s) (_current_view_module s)
    (_current_view_controller_class s) (_current_view_item_id s)
    (_current_view s) (_current_breadcrumbs s) (_after_save_action s)
    (_view_load_sentry_event_id s).

Definition set_editor_stack (v : stack) (s : t) : t :=
  Build (main_thread s) (rom_project s) (settings s) (recent_files s)
    (_loading_dialog s) (_main_item_list s) (_main_item_filter s)
    (_item_store s) v (_search_text s) (_current_view_module s)
    (_current_view_controller_class s) (_current_view_item_id s)
    (_current_view s) (_current_breadcrumbs s) (_after_save_action s)
    (_view_load_sentry_event_id s).

Definition set_search_text (v : option string) (s : t) : t :=
  Build (main_thread s) (rom_project s) (settings s) (recent_files s)
    (_loading_dialog s) (_main_item_list s) (_main_item_filter s)
    (_item_store s) (_editor_stack s) v (_current_view_module s)
    (_current_view_controller_class s) (_current_view_item_id s)
    (_current_view s) (_current_breadcrumbs s) (_after_save_action s)
    (_view_load_sentry_event_id s).

Definition set_current_view_module (v : option module_id) (s : t) : t :=
  Build (main_thread s) (rom_project s) (settings s) (recent_files s)
    (_loading_dialog s) (_main_item_list s) (_main_item_filter s)
    (_item_store s) (_editor_stack s) (_search_text s) v
    (_current_view_controller_class s) (_current_view_item_id s)
    (_current_view s) (_current_breadcrumbs s) (_after_save_action s)
    (_view_load_sentry_event_id s).

Definition set_current_view_controller_class (v : option class_id) (s : t) : t :=
  Build (main_thread s) (rom_project s) (settings s) (recent_files s)
    (_loading_dialog s) (_main_item_list s) (_main_item_filter s)
    (_item_store s) (_editor_stack s) (_search_text s)
    (_current_view_module s) v (_current_view_item_id s) (_current_view s)
    (_current_breadcrumbs s) (_after_save_action s)
    (_view_load_sentry_event_id s).

Definition set_current_view_item_id (v : option Z) (s : t) : t :=
  Build (main_thread s) (rom_project s) (settings s) (recent_files s)
    (_loading_dialog s) (_main_item_list s) (_main_item_filter s)
    (_item_store s) (_editor_stack s) (_search_text s)
    (_current_view_module s) (_current_view_controller_class s) v
    (_current_view s) (_current_breadcrumbs s) (_after_save_action s)
    (_view_load_sentry_event_id s).

Definition set_current_view (v : option view_object) (s : t) : t :=
  Build (main_thread s) (rom_project s) (settings s) (recent_files s)
    (_loading_dialog s) (_main_item_list s) (_main_item_filter s)
    (_item_store s) (_editor_stack s) (_search_text s)
    (_current_view_module s) (_current_view_controller_class s)
    (_current_view_item_id s) v (_current_breadcrumbs s)
    (_after_save_action s) (_view_load_sentry_event_id s).

Definition set_current_breadcrumbs (v : list string) (s : t) : t :=
  Build (main_thread s) (rom_project s) (settings s) (recent_files s)
    (_loading_dialog s) (_main_item_list s) (_main_item_filter s)
    (_item_store s) (_editor_stack s) (_search_text s)
    (_current_view_module s) (_current_view_controller_class s)
    (_current_view_item_id s) (_current_view s) v (_after_save_action s)
    (_view_load_sentry_event_id s).

Definition set_after_save_action (v : option nat) (s : t) : t :=
  Build (main_thread s) (rom_project s) (settings s) (recent_files s)
    (_loading_dialog s) (_main_item_list s) (_main_item_filter s)
    (_item_store s) (_editor_stack s) (_search_text s)
    (_current_view_module s) (_current_view_controller_class s)
    (_current_view_item_id s) (_current_view s) (_current_breadcrumbs s) v
    (_view_load_sentry_event_id s).

Definition set_view_load_sentry_event_id (v : option string) (s : t) : t :=
  Build (main_thread s) (rom_project s) (settings s) (recent_files s)
    (_loading_dialog s) (_main_item_list s) (_main_item_filter s)
    (_item_store s) (_editor_stack s) (_search_text s)
    (_current_view_module s) (_current_view_controller_class s)
    (_current_view_item_id s) (_current_view s) (_current_breadcrumbs s)
    (_after_save_action s) v.


(** *** The search filter of the item tree *)

(** [_filter__reset_row(model, path, iter, make_visible)] *)
Definition _filter__reset_row (make_visible : bool) (st : store) (iter : path)
  : bool * store :=
  (false, alter_path (set_visible make_visible) st iter).

(** [while iter: ...; iter = model.iter_parent(iter)].  Each turn of the loop
    shortens the path by one, so [length iter] turns are enough fuel (see
    [make_path_visible_loop_fuel]). *)
Fixpoint make_path_visible_loop (fuel : nat) (st : store) (iter : option path)
  : store :=
  match fuel, iter with
  | S fuel', Some p =>
      make_path_visible_loop fuel' (alter_path (set_visible true) st p)
                             (iter_parent p)
  | _, _ => st
  end.

Definition _filter__make_path_visible (st : store) (iter : path) : store :=
  make_path_visible_loop (length iter) st (Some iter).

(** The body of [_filter__make_subtree_visible] on the row [t] addressed by
    [iter]: every child that is not yet visible is made visible and visited
    in turn; a child that is already visible is skipped with its subtree.
    The visit does not read the flag of the row it starts from, so setting
    the child's flag after the recursive visit gives the same row as setting
    it before. *)
Fixpoint make_subtree_visible (t : tree) : tree :=
  match t with
  | Node d cs =>
      Node d ((fun subtree =>
                 if col_visible (data subtree) then subtree
                 else set_visible true (make_subtree_visible subtree)) <$> cs)
  end.

Definition _filter__make_subtree_visible (st : store) (iter : path) : store :=
  alter_path make_subtree_visible st iter.

(** [_filter__show_matches(model, path, iter)]; [foreach] only passes
    iterators of existing rows, for any other path the model leaves the
    store alone. *)
Definition _filter__show_matches (search_text : option string)
    (st : store) (iter : path) : bool * store :=
  match search_text with
  | None => (true, st)
  | Some s =>
      let search_query := Str.lower s in
      match label_at st iter with
      | None => (false, st)
      | Some label =>
          let text := Str.lower label in
          if Str.contains search_query text
          then (false, _filter__make_subtree_visible
                         (_filter__make_path_visible st iter) iter)
          else (false, st)
      end
  end.

(** [_filter__refresh_results] on [self._search_text] and
    [self._item_store].  [collapse_all] and [_filter__expand_all_visible]
    only change which rows of the tree view are expanded. *)
Definition filter_refresh_store (search_text : option string) (st : store)
  : store :=
  if decide (search_text = Some "")
  then foreach (_filter__reset_row true) st
  else foreach (_filter__show_matches search_text)
               (foreach (_filter__reset_row false) st).


(** The method on the controller.  [collapse_all] and the last pass,
    [_filter__expand_all_visible] over the filter model, change which rows
    the tree view shows expanded and no column of the store. *)
Definition _filter__refresh_results : M t unit :=
  self <- get_self ;;
  if decide (_search_text self = Some "")
  then modify_self (set_item_store
                      (foreach (_filter__reset_row true) (_item_store self)))
  else
    assert 818 (bool_decide (is_Some (_main_item_list self))) ;;
    assert 819 (bool_decide (is_Some (_main_item_filter self))) ;;
    modify_self (fun s => set_item_store
                   (foreach (_filter__reset_row false) (_item_store s)) s) ;;
    modify_self (fun s => set_item_store
                   (foreach (_filter__show_matches (_search_text s))
                            (_item_store s)) s).

(** Python's [str.strip()] on the ASCII blanks. *)
Definition is_space (c : ascii) : bool :=
  let n := nat_of_ascii c in
  ((9 <=? n)%nat && (n <=? 13)%nat) || (n =? 32)%nat.

Fixpoint lstrip (s : string) : string :=
  match s with
  | String c s' => if is_space c then lstrip s' else s
  | EmptyString => EmptyString
  end.

Definition strip (s : string) : string :=
  String.rev (lstrip (String.rev (lstrip s))).

(** [on_main_item_list_search_search_changed(search)] with
    [search.get_text()] as [text]. *)
Definition on_main_item_list_search_search_changed (text : string) : M t unit :=
  modify_self (set_search_text (Some (strip text))) ;;
  _filter__refresh_results.

(** *** Window chrome *)

(** [os.path.basename] for [/]-separated names: what follows the last
    separator. *)
Fixpoint basename (s : string) : string :=
  match s with
  | EmptyString => EmptyString
  | String _ s' => if Str.contains "/" s then basename s' else s
  end.

(** [_set_title]: with or without client-side decorations the same title
    text is set, on the header bar or on the window. *)
Definition _set_title (rom_name : string) (is_modified : bool) : M t unit :=
  emit (SetTitle rom_name is_modified).

(** [if self._loading_dialog is not None: self._loading_dialog.hide();
    self._loading_dialog = None], as it stands in four handlers. *)
Definition hide_loading_dialog : M t unit :=
  self <- get_self ;;
  match _loading_dialog self with
  | Some _ => modify_self (set_loading_dialog None)
  | None => ret tt
  end.

(** *** Recent files *)

(** The loop of [_update_recent_files], with [new_recent_files] as the
    accumulator. *)
Fixpoint recent_files_loop (fn : string) (rfs new_recent_files : list string)
  : list string :=
  match rfs with
  | [] => new_recent_files
  | rf :: rfs' =>
      if bool_decide (rf ≠ fn) && negb (bool_decide (rf ∈ new_recent_files))
      then recent_files_loop fn rfs' (new_recent_files ++ [rf])
      else recent_files_loop fn rfs' new_recent_files
  end.

Definition set_recent_files_setting (l : list string) (s : settings_store)
  : settings_store :=
  Settings l (assistant_shown s) (sentry_event_id s).

Definition _update_recent_files (fn : string) : M t unit :=
  self <- get_self ;;
  let new_recent_files := recent_files_loop fn (recent_files self) [] in
  let new_recent_files := fn :: new_recent_files in
  modify_self (set_recent_files new_recent_files) ;;
  modify_self (fun s => set_settings
                 (set_recent_files_setting (recent_files s) (settings s)) s).

(** *** Saving *)

(** [_save(force, after_save_action)].  [rom.save(self)] starts the save,
    which reports back through [on_file_saved] or [on_file_saved_error].
    The text of the label in the dialog is not modelled. *)
Definition _save (force : bool) (after_save_action : option nat) : M t unit :=
  self <- get_self ;;
  match rom_project self with
  | Some rom =>
      if has_modifications rom || force then
        modify_self (set_after_save_action after_save_action) ;;
        modify_self (set_loading_dialog (Some "file_opening_dialog")) ;;
        call "rom.save" ;;
        emit (DialogRun "file_opening_dialog")
      else ret tt
  | None => ret tt
  end.

Definition on_file_saved : M t unit :=
  hide_loading_dialog ;;
  self <- get_self ;;
  match rom_project self with
  | Some rom =>
      _set_title (basename (filename rom)) false ;;
      call "tree_repr.mark_all_as_unmodified" ;;
      match _after_save_action self with
      | Some _ =>
          call "after_save_action" ;;
          modify_self (set_after_save_action None)
      | None => ret tt
      end
  | None => ret tt
  end.

Definition on_file_saved_error (exception : exn) : M t unit :=
  hide_loading_dialog ;;
  display_error exception "Error saving the ROM".

(** *** Opening: the error handler *)

(** Importing the module: [main_thread = current_thread()]. *)
Definition import_module : M t unit :=
  fun w => modify_self (set_main_thread (current_thread w)) w.

(** [assert current_thread() == main_thread] *)
Definition assert_main_thread (line : nat) : M t unit :=
  fun w => assert line (bool_decide (current_thread w = main_thread (self w))) w.

Definition on_file_opened_error (exception : exn) : M t unit :=
  assert_main_thread 410 ;;
  hide_loading_dialog ;;
  display_error exception "Error opening the ROM".

(** *** Switching views *)

Definition _lock_trees : M t unit :=
  self <- get_self ;;
  assert 924 (bool_decide (is_Some (_main_item_list self))) ;;
  modify_self (set_main_item_list (Some false)).

Definition _unlock_trees : M t unit :=
  self <- get_self ;;
  assert 929 (bool_decide (is_Some (_main_item_list self))) ;;
  modify_self (set_main_item_list (Some true)).

(** [while parent: ...; parent = parent.parent] of
    [_init_window_before_view_load]; the fuel is the length of the path. *)
Fixpoint breadcrumbs_loop (fuel : nat) (st : store) (parent : option path)
    (bc : string) (bc_array : list string) : string * list string :=
  match fuel, parent with
  | S fuel', Some p =>
      match row_at st p with
      | Some d =>
          breadcrumbs_loop fuel' st (iter_parent p)
            (" > " +:+ col_title d +:+ bc) (bc_array ++ [col_title d])
      | None => (bc, bc_array)
      end
  | _, _ => (bc, bc_array)
  end.

Fixpoint drop_chars (n : nat) (s : string) : string :=
  match n, s with
  | S n', String _ s' => drop_chars n' s'
  | _, _ => s
  end.

(** [_init_window_before_view_load(node)]; the [try] around its body only
    logs. *)
Definition _init_window_before_view_load (node : path) : M t unit :=
  self <- get_self ;;
  let (bc, bc_array) :=
    breadcrumbs_loop (length node) (_item_store self) (Some node) "" [] in
  let bc := drop_chars 3 bc in
  modify_self (set_current_breadcrumbs bc_array) ;;
  emit (SetSubtitle bc) ;;
  match rom_project self with
  | Some current_project =>
      if has_modifications current_project
      then _set_title (basename (filename current_project)) true
      else ret tt
  | None => ret tt
  end.

(** [load_view(model, treeiter, tree, scroll_into_view)].  Expanding,
    selecting and scrolling to the row only move the tree view. *)
Definition load_view (treeiter : path) (scroll_into_view : bool) : M t unit :=
  self <- get_self ;;
  match row_at (_item_store self) treeiter with
  | None => raise (Exception "invalid tree iterator")
  | Some selected_node =>
      _lock_trees ;;
      _init_window_before_view_load treeiter ;;
      modify_self (fun s => set_editor_stack
                     (set_visible_child (_editor_stack s) es_loading) s) ;;
      modify_self (set_current_view_module (Some (col_module selected_node))) ;;
      modify_self (set_current_view_controller_class
                     (Some (col_controller_class selected_node))) ;;
      modify_self (set_current_view_item_id (Some (col_item_id selected_node))) ;;
      emit (TaskStarted (col_module selected_node)
                        (col_controller_class selected_node)
                        (col_item_id selected_node))
  end.

(** [on_main_item_list_button_press_event(tree, event)]: [double] says
    whether the event is a double click, [selected] is the selected row. *)
Definition on_main_item_list_button_press_event
    (double : bool) (selected : option path) : M t unit :=
  assert_main_thread 441 ;;
  self <- get_self ;;
  if double then
    match selected, rom_project self with
    | Some treeiter, Some _ => load_view treeiter false
    | _, _ => ret tt
    end
  else ret tt.

Definition on_view_loaded_error (ex : exn) : M t unit :=
  assert_main_thread 548 ;;
  emit (Called "es_error_text_buffer.set_text") ;;
  modify_self (fun s => set_view_load_sentry_event_id
                 (sentry_event_id (settings s)) s) ;;
  modify_self (fun s => set_editor_stack
                 (set_visible_child (_editor_stack s) es_error) s) ;;
  self <- get_self ;;
  emit (Called (if bool_decide (is_Some (_view_load_sentry_event_id self))
                then "button_report.show" else "button_report.hide")) ;;
  _unlock_trees.

Definition destroy (w : widget) : M t unit := emit (WidgetDestroyed w).

(** [if old_view: self._editor_stack.remove(old_view); old_view.destroy()] *)
Definition destroy_old_view (old_view : option widget) : M t unit :=
  match old_view with
  | Some old =>
      modify_self (fun s => set_editor_stack
                     (stack_remove (_editor_stack s) old) s) ;;
      destroy old
  | None => ret tt
  end.

(** [if isinstance(v, AbstractController): v.unload()] *)
Definition unload_if_controller (v : option view_object) : M t unit :=
  match v with
  | Some (ViewController _ c _) => emit (ControllerUnloaded c)
  | _ => ret tt
  end.

(** [in_view if isinstance(in_view, Gtk.Widget) else in_view.get_view()] *)
Definition retrieve_view (in_view : view_object) : M t widget :=
  match in_view with
  | ViewWidget _ w => ret w
  | ViewController _ _ (Returns w) => ret w
  | ViewController _ _ (Raises msg) => raise (Exception msg)
  end.

Definition on_view_loaded (module : module_id) (in_view : view_object)
    (item_id : Z) : M t unit :=
  assert_main_thread 494 ;;
  self <- get_self ;;
  let old_view := get_child_by_name (_editor_stack self) "es__loaded_view" in
  r <- try_except
         (view <- retrieve_view in_view ;; ret (Some view))
         (fun err =>
            on_view_loaded_error err ;;
            destroy_old_view old_view ;;
            self <- get_self ;;
            unload_if_controller (_current_view self) ;;
            unload_if_controller (Some in_view) ;;
            ret None) ;;
  match r with
  | None => ret tt
  | Some view =>
      self <- get_self ;;
      if bool_decide (_current_view_module self ≠ Some module)
         || bool_decide (_current_view_controller_class self
                         ≠ Some (view_class in_view))
         || bool_decide (_current_view_item_id self ≠ Some item_id)
      then destroy view
      else
        destroy_old_view old_view ;;
        unload_if_controller (_current_view self) ;;
        modify_self (set_current_view (Some in_view)) ;;
        modify_self (fun s => set_editor_stack
                       (add_named (_editor_stack s) view "es__loaded_view") s) ;;
        emit (WidgetShown view) ;;
        modify_self (fun s => set_editor_stack
                       (set_visible_child (_editor_stack s) view) s) ;;
        _unlock_trees ;;
        emit (EventTriggered "EVT_VIEW_SWITCH")
  end.

(** *** Opening a ROM *)

(** [sorted(..., key=lambda m: m.sort_order())]: a stable sort. *)
Fixpoint insert_by_sort_order (m : module_info) (l : list module_info)
  : list module_info :=
  match l with
  | [] => [m]
  | x :: l' =>
      if (sort_order m <=? sort_order x)%Z then m :: l
      else x :: insert_by_sort_order m l'
  end.

Definition sorted_by_sort_order (l : list module_info) : list module_info :=
  foldr insert_by_sort_order [] l.

(** [module.load_tree_items(self._tree_repr)]: the call into the module,
    which puts its rows into the item store. *)
Definition load_tree_items (name : string) (rows : list tree) : M t unit :=
  call (name +:+ ".load_tree_items") ;;
  modify_self (fun s => set_item_store (_item_store s ++ rows) s).

Definition _init_window_after_rom_load (rom_name : string) : M t unit :=
  modify_self (set_item_store []) ;;
  _set_title rom_name false.

Definition on_settings_show_assistant_clicked : M t unit :=
  emit (Called "intro_dialog.show_all").

(** The steps of [on_file_opened] inside its [try]; they give the root node
    of the tree. *)
Definition load_project (pr : project) : M t path :=
  call "project.get_rom_module" ;;
  call "rom_module.load_rom_data" ;;
  call "project.init_patch_properties" ;;
  load_tree_items "rom_module" (rom_tree_items pr) ;;
  call "rom_module.get_root_node" ;;
  call "debugger_manager.handle_project_change" ;;
  for_each (sorted_by_sort_order (modules pr))
           (fun module => load_tree_items (module_name module) (tree_items module)) ;;
  call "tree_repr.finalize" ;;
  call "EventManager.trigger(EVT_PROJECT_OPEN)" ;;
  self <- get_self ;;
  assert 391 (bool_decide (is_Some (_main_item_list self))) ;;
  emit (Called "selection.select_path") ;;
  ret [0%nat].

Definition on_file_opened : M t unit :=
  assert_main_thread 345 ;;
  self <- get_self ;;
  match rom_project self with
  | None => raise (AssertionError 350)
  | Some pr =>
      call "sprite_provider.init_loader" ;;
      _init_window_after_rom_load (basename (filename pr)) ;;
      r <- try_except
             (root_node <- load_project pr ;; ret (Some root_node))
             (fun ex => on_file_opened_error ex ;; ret None) ;;
      match r with
      | None => ret tt
      | Some root_node =>
          load_view root_node true ;;
          hide_loading_dialog ;;
          self <- get_self ;;
          if assistant_shown (settings self) then ret tt
          else on_settings_show_assistant_clicked
      end
  end.

(** *** Reloading the current view *)

(** [assert_not_none(x)] of [skytemple.core.ui_utils], as its name and its
    use say: [x] when it is not [None], a failed assertion otherwise; [line]
    is the line of the call. *)
Definition assert_not_none {A} (line : nat) (x : option A) : M t A :=
  match x with
  | Some a => ret a
  | None => raise (AssertionError line)
  end.

(** [MainController.reload_view()] *)
Definition reload_view : M t unit :=
  _lock_trees ;;
  modify_self (fun s => set_editor_stack
                 (set_visible_child (_editor_stack s) es_loading) s) ;;
  self <- get_self ;;
  view_cls <- assert_not_none 111 (_current_view self) ;;
  module <- assert_not_none 115 (_current_view_module self) ;;
  item_id <- assert_not_none 117 (_current_view_item_id self) ;;
  emit (TaskStarted module (view_class view_cls) item_id).

(** *** Opening and closing with unsaved changes *)

(** The value a Python function returns where the code tests it for truth:
    [True], [False] or [None]. *)
Inductive py_bool := PyTrue | PyFalse | PyNone.

Definition truthy (b : py_bool) : bool :=
  match b with PyTrue => true | _ => false end.

(** [_show_are_you_sure(rom)]: the dialog is run and destroyed; [response]
    is what the user answered, 0 for "Don't Save", 1 for "Save", anything
    else (Cancel, closing the dialog) otherwise. *)
Definition _show_are_you_sure (response : Z) : M t Z :=
  emit (MessageDialog "Do you want to save changes?") ;;
  ret response.

(** The test [rom is not None and rom.has_modifications()]. *)
Definition project_modified (self : t) : bool :=
  match rom_project self with
  | Some rom => has_modifications rom
  | None => false
  end.

(** [_check_open_file(filename)].  [check_save] is what
    [self._debugger_manager.check_save()] returns, [response] the answer to
    the dialog, [reopen] the closure [lambda: self._open_file(filename)]. *)
Definition _check_open_file (check_save : bool) (response : Z) (reopen : nat)
  : M t py_bool :=
  self <- get_self ;;
  if negb check_save then ret PyFalse
  else if project_modified self then
    response <- _show_are_you_sure response ;;
    if (response =? 0)%Z then ret PyTrue
    else if (response =? 1)%Z then
      _save false (Some reopen) ;; ret PyNone
    else ret PyFalse
  else ret PyTrue.

(** [_open_file(filename)] *)
Definition _open_file (filename : string) (check_save : bool) (response : Z)
    (reopen : nat) : M t unit :=
  ok <- _check_open_file check_save response reopen ;;
  if truthy ok then
    modify_self (set_loading_dialog (Some "file_opening_dialog")) ;;
    call "RomProject.open" ;;
    _update_recent_files filename ;;
    emit (DialogRun "file_opening_dialog")
  else ret tt.

(** [on_main_window_delete_event]: [close] is what
    [self._debugger_manager.close()] returns, [destroy_window] the closure
    [lambda: self._window.destroy()].  The handler returns [True] to keep
    the window and [False] to let it close. *)
Definition on_main_window_delete_event (close : bool) (response : Z)
    (destroy_window : nat) : M t bool :=
  if negb close then ret true
  else
    self <- get_self ;;
    if project_modified self then
      response <- _show_are_you_sure response ;;
      if (response =? 0)%Z then ret false
      else if (response =? 1)%Z then
        _save false (Some destroy_window) ;; ret true
      else ret true
    else ret false.

Definition set_filename (fn : string) (pr : project) : project :=
  Project fn (has_modifications pr) (rom_tree_items pr) (modules pr).

(** [on_save_as_button_clicked]: [accept] says whether the file chooser was
    answered with ACCEPT, [fn] is [dialog.get_filename()];
    [add_extension_if_missing] comes from the ROM library. *)
Definition on_save_as_button_clicked
    (add_extension_if_missing : string -> string -> string)
    (accept : bool) (fn : option string) : M t unit :=
  self <- get_self ;;
  match rom_project self with
  | None => ret tt
  | Some project =>
      match accept, fn with
      | true, Some fn =>
          let fn := add_extension_if_missing fn "nds" in
          modify_self (set_rom_project (Some (set_filename fn project))) ;;
          _save true None ;;
          call "rom_module.update_filename" ;;
          _update_recent_files fn
      | _, _ => ret tt
      end
  end.

(** *** The help button *)

Definition isupper (c : ascii) : bool :=
  let n := nat_of_ascii c in ((65 <=? n)%nat && (n <=? 90)%nat)%bool.

(** ["".join(["-" + c.lower() if c.isupper() else c for c in s])] *)
Fixpoint slug_chars (s : string) : string :=
  match s with
  | EmptyString => EmptyString
  | String c s' =>
      if isupper c then String "-" (String (Str.lower_ascii c) (slug_chars s'))
      else String c (slug_chars s')
  end.

(** [s.lstrip("-")] *)
Fixpoint lstrip_dash (s : string) : string :=
  match s with
  | String c s' => if bool_decide (c = "-"%char) then lstrip_dash s' else s
  | EmptyString => EmptyString
  end.

Definition slug_convert (s : string) : string := lstrip_dash (slug_chars s).

(** *** Remembering the window geometry *)

(** What [on_main_window_configure_event] and its delayed handler work on:
    the attribute [_resize_timeout_id], the timeout sources of the GLib
    main loop that call the handler, the window and the three settings. *)
Record geometry := Geometry {
  _resize_timeout_id : option nat;
  sources : list nat;
    (** the pending timeout sources, by source id *)
  next_source_id : nat;
    (** the id [GLib.timeout_add_seconds] hands out next *)
  removed_dead_source : bool;
    (** whether [GLib.source_remove] was called for a source that is not
        pending *)
  window_position : Z * Z;
  window_size : Z * Z;
  window_maximized : bool;
  stored_position : option (Z * Z);
  stored_size : option (Z * Z);
  stored_maximized : option bool
}.

(** [GLib.source_remove(id)] *)
Definition source_remove (id : nat) (g : geometry) : geometry :=
  Geometry (_resize_timeout_id g)
    (List.filter (fun k => negb (k =? id)%nat) (sources g))
    (next_source_id g)
    (removed_dead_source g || negb (bool_decide (id ∈ sources g)))
    (window_position g) (window_size g) (window_maximized g)
    (stored_position g) (stored_size g) (stored_maximized g).

(** [self._resize_timeout_id = GLib.timeout_add_seconds(1, handler)] *)
Definition timeout_add_seconds (g : geometry) : geometry :=
  Geometry (Some (next_source_id g)) (sources g ++ [next_source_id g])
    (S (next_source_id g)) (removed_dead_source g)
    (window_position g) (window_size g) (window_maximized g)
    (stored_position g) (stored_size g) (stored_maximized g).

Definition on_main_window_configure_event (g : geometry) : geometry :=
  let g := match _resize_timeout_id g with
           | Some id => source_remove id g
           | None => g
           end in
  timeout_add_seconds g.

Definition on_main_window_configure_event__handle (g : geometry) : geometry :=
  Geometry None (sources g) (next_source_id g) (removed_dead_source g)
    (window_position g) (window_size g) (window_maximized g)
    (Some (window_position g))
    (if negb (window_maximized g) then Some (window_size g) else stored_size g)
    (Some (window_maximized g)).

(** The main loop fires the source [id]: a pending source calls the
    handler, which returns [None], so that the source is removed. *)
Definition source_fire (id : nat) (g : geometry) : geometry :=
  if bool_decide (id ∈ sources g) then
    let g := on_main_window_configure_event__handle g in
    Geometry (_resize_timeout_id g)
      (List.filter (fun k => negb (k =? id)%nat) (sources g))
      (next_source_id g) (removed_dead_source g)
      (window_position g) (window_size g) (window_maximized g)
      (stored_position g) (stored_size g) (stored_maximized g)
  else g.

(** The user moves, resizes or maximizes the window. *)
Definition window_changed (position size : Z * Z) (maximized : bool)
    (g : geometry) : geometry :=
  Geometry (_resize_timeout_id g) (sources g) (next_source_id g)
    (removed_dead_source g) position size maximized
    (stored_position g) (stored_size g) (stored_maximized g).

End MainController.

(** ** [MonsterSpriteController]
    (skytemple/module/sprite/controller/monster_sprite.py) *)

Module MonsterSprite.
Import Eff Eff.Notations.
Local Open Scope eff_scope.

Definition FPS : Z := 30.

(** The drawing area of the view with what [get_parent()] gives. *)
Record draw_area := DrawArea {
  area_id : nat;
  area_parent : option nat
}.

(** A rendered frame: [(surface, cx, cy, width, height)]. *)
Record rendered := Rendered {
  surface : nat;
  cx : Z;
  cy : Z;
  width : Z;
  height : Z
}.

#[projections(primitive)]
Record t := Build {
  item_id : Z;
  _frame_counter : Z;
  _anim_counter : Z;
  _drawing_is_active : bool;
    (** [0] until drawing starts, then [True] or [False] *)
  _draw_area : option draw_area;
  _rendered_frame_info : list (Z * rendered);
    (** pairs of a frame's duration and its picture *)
  main_window_has_focus : bool;
    (** [EventManager.instance().get_if_main_window_has_fous()] *)
  timeouts : list nat;
    (** the GLib timeout sources that call [_tick], by source id *)
  next_timeout_id : nat
    (** the id [GLib.timeout_add] hands out next *)
}.

Definition set_frame_counter (v : Z) (s : t) : t :=
  Build (item_id s) v (_anim_counter s) (_drawing_is_active s) (_draw_area s)
    (_rendered_frame_info s) (main_window_has_focus s) (timeouts s)
    (next_timeout_id s).

Definition set_anim_counter (v : Z) (s : t) : t :=
  Build (item_id s) (_frame_counter s) v (_drawing_is_active s) (_draw_area s)
    (_rendered_frame_info s) (main_window_has_focus s) (timeouts s)
    (next_timeout_id s).

Definition set_drawing_is_active (v : bool) (s : t) : t :=
  Build (item_id s) (_frame_counter s) (_anim_counter s) v (_draw_area s)
    (_rendered_frame_info s) (main_window_has_focus s) (timeouts s)
    (next_timeout_id s).

Definition set_draw_area (v : option draw_area) (s : t) : t :=
  Build (item_id s) (_frame_counter s) (_anim_counter s)
    (_drawing_is_active s) v (_rendered_frame_info s)
    (main_window_has_focus s) (timeouts s) (next_timeout_id s).

Definition set_rendered_frame_info (v : list (Z * rendered)) (s : t) : t :=
  Build (item_id s) (_frame_counter s) (_anim_counter s)
    (_drawing_is_active s) (_draw_area s) v (main_window_has_focus s)
    (timeouts s) (next_timeout_id s).

Definition set_main_window_has_focus (v : bool) (s : t) : t :=
  Build (item_id s) (_frame_counter s) (_anim_counter s)
    (_drawing_is_active s) (_draw_area s) (_rendered_frame_info s) v
    (timeouts s) (next_timeout_id s).

Definition set_timeouts (v : list nat) (s : t) : t :=
  Build (item_id s) (_frame_counter s) (_anim_counter s)
    (_drawing_is_active s) (_draw_area s) (_rendered_frame_info s)
    (main_window_has_focus s) v (next_timeout_id s).

Definition set_next_timeout_id (v : nat) (s : t) : t :=
  Build (item_id s) (_frame_counter s) (_anim_counter s)
    (_drawing_is_active s) (_draw_area s) (_rendered_frame_info s)
    (main_window_has_focus s) (timeouts s) v.

(** The state [__init__] leaves behind. *)
Definition init (item_id : Z) (focus : bool) : t :=
  Build item_id 0 0 false None [] focus [] 0.

(** [l[i]] of a Python list: negative indices count from the end. *)
Definition py_index {A} (l : list A) (i : Z) : option A :=
  if (0 <=? i)%Z then l !! Z.to_nat i
  else if (- Z.of_nat (length l) <=? i)%Z then l !! Z.to_nat (Z.of_nat (length l) + i)
  else None.

(** *** The redraw timer *)

(** [GLib.timeout_add(interval, self._tick)] *)
Definition timeout_add (interval : Z) : M t unit :=
  emit (TimeoutAdded interval) ;;
  modify_self (fun s => set_next_timeout_id (S (next_timeout_id s))
                          (set_timeouts (timeouts s ++ [next_timeout_id s]) s)).

(** [int(1000 / FPS)]: the quotient is positive, [int] cuts off its
    fraction. *)
Definition tick_interval : Z := Z.quot 1000 FPS.

Definition start_sprite_drawing : M t unit :=
  modify_self (set_drawing_is_active true) ;;
  self <- get_self ;;
  match _draw_area self with
  | None => raise (Exception "'NoneType' object has no attribute 'queue_draw'")
  | Some _ =>
      emit QueueDraw ;;
      timeout_add tick_interval
  end.

Definition stop_sprite_drawing : M t unit :=
  modify_self (set_drawing_is_active false).

Definition _tick : M t bool :=
  self <- get_self ;;
  match _draw_area self with
  | None => ret false
  | Some area =>
      match area_parent area with
      | None => emit (WidgetDestroyed (area_id area)) ;; ret false
      | Some _ =>
          (if main_window_has_focus self then emit QueueDraw else ret tt) ;;
          modify_self (fun s => set_frame_counter (_frame_counter s + 1) s) ;;
          self <- get_self ;;
          ret (_drawing_is_active self)
      end
  end.

(** The GLib main loop lets the timeout source [id] fire: a source that is
    still installed calls [_tick] and is removed when [_tick] returns
    [False]; a source that was removed is never called again. *)
Definition timeout_fire (id : nat) : M t unit :=
  self <- get_self ;;
  if bool_decide (id ∈ timeouts self) then
    keep <- _tick ;;
    if keep then ret tt
    else modify_self (fun s => set_timeouts
                        (List.filter (fun k => negb (k =? id)%nat) (timeouts s)) s)
  else ret tt.

(** *** The animation *)

Definition _get_sprite_anim : M t rendered :=
  self <- get_self ;;
  match py_index (_rendered_frame_info self) (_anim_counter self) with
  | None => raise IndexError
  | Some current =>
      modify_self (fun s => set_frame_counter (_frame_counter s + 1) s) ;;
      self <- get_self ;;
      (if (current.1 <? _frame_counter self)%Z then
         modify_self (set_frame_counter 0) ;;
         modify_self (fun s => set_anim_counter (_anim_counter s + 1) s) ;;
         self <- get_self ;;
         if (Z.of_nat (length (_rendered_frame_info self)) <=? _anim_counter self)%Z
         then modify_self (set_anim_counter 0)
         else ret tt
       else ret tt) ;;
      ret current.2
  end.

(** [_load_frames]: [frames] are the frames of the animation decoded from
    the monster file, each with its duration and its rendered picture. *)
Definition _load_frames (frames : list (Z * rendered)) : M t unit :=
  call "FileType.WAN.deserialize" ;;
  for_each frames (fun frame =>
    call "sprite.render_frame_group" ;;
    modify_self (fun s => set_rendered_frame_info
                   (_rendered_frame_info s ++ [frame]) s)).

(** [on_draw_sprite_draw(widget, ctx)] *)
Definition on_draw_sprite_draw : M t bool :=
  _ <- _get_sprite_anim ;;
  emit (Called "ctx.paint") ;;
  ret true.

(** *** Export and import *)

Inductive response := ACCEPT | CANCEL.

(** The body of the [try] of [on_export_clicked]. *)
Definition export_spritesheet : M t unit :=
  call "module.get_monster_monster_sprite_chara" ;;
  call "module.get_monster_ground_sprite_chara" ;;
  call "module.get_monster_attack_sprite_chara" ;;
  call "FileType.WAN.CHARA.merge_wan" ;;
  call "FileType.WAN.CHARA.export_sheets" ;;
  emit (MessageDialog "The spritesheet was successfully exported.").

(** [on_export_clicked]: [response] is what the file chooser returned. *)
Definition on_export_clicked (response : response) : M t unit :=
  match response with
  | ACCEPT =>
      try_except export_spritesheet
        (fun e => display_error e "Error exporting the spritesheet.")
  | CANCEL => ret tt
  end.

(** The body of the [try] of [on_import_clicked]. *)
Definition import_spritesheet : M t unit :=
  call "FileType.WAN.CHARA.import_sheets" ;;
  call "FileType.WAN.CHARA.split_wan" ;;
  emit (MessageDialog "The spritesheet was successfully imported.") ;;
  call "module.save_monster_monster_sprite" ;;
  call "module.save_monster_ground_sprite" ;;
  call "module.save_monster_attack_sprite" ;;
  call "mark_as_modified_cb" ;;
  call "MainController.reload_view".

Definition on_import_clicked (response : response) : M t unit :=
  emit (MessageDialog "To import select the directory of the spritesheets. If it is still zipped, unzip it first.") ;;
  match response with
  | ACCEPT =>
      try_except import_spritesheet
        (fun e => display_error e "Error importing the spritesheet.")
  | CANCEL => ret tt
  end.

Definition on_export_ground_clicked : M t unit :=
  call "module.get_monster_ground_sprite_chara" ;;
  call "module.export_a_sprite".

Definition on_import_ground_clicked : M t unit :=
  call "module.import_a_sprite" ;;
  call "module.save_monster_ground_sprite" ;;
  call "mark_as_modified_cb" ;;
  call "MainController.reload_view".

Definition on_export_dungeon_clicked : M t unit :=
  call "module.get_monster_monster_sprite_chara" ;;
  call "module.export_a_sprite".

Definition on_import_dungeon_clicked : M t unit :=
  call "module.import_a_sprite" ;;
  call "module.save_monster_monster_sprite" ;;
  call "mark_as_modified_cb" ;;
  call "MainController.reload_view".

Definition on_export_attack_clicked : M t unit :=
  call "module.get_monster_attack_sprite_chara" ;;
  call "module.export_a_sprite".

Definition on_import_attack_clicked : M t unit :=
  call "module.import_a_sprite" ;;
  call "module.save_monster_attack_sprite" ;;
  call "mark_as_modified_cb" ;;
  call "MainController.reload_view".

(** *** Building the view *)

(** What [get_view] returns: the label for an invalid id or the main box of
    the view. *)
Inductive view := InvalidSpriteLabel | MainBox.

(** [get_view()].  [area] is the drawing area the builder holds,
    [gfxcrunch] what [is_available()] answers, [frames] the decoded frames
    as for [_load_frames]. *)
Definition get_view (area : draw_area) (gfxcrunch : bool)
    (frames : list (Z * rendered)) : M t view :=
  self <- get_self ;;
  if (item_id self <? 0)%Z then ret InvalidSpriteLabel
  else
    call "_get_builder" ;;
    modify_self (set_draw_area (Some area)) ;;
    call "gfxcrunch.is_available" ;;
    (if gfxcrunch then emit (Called "explanation_text2.set_markup") else ret tt) ;;
    call "builder.connect_signals" ;;
    _load_frames frames ;;
    start_sprite_drawing ;;
    ret MainBox.

End MonsterSprite.

(** ** [DungeonInterruptController]
    (skytemple/module/lists/controller/dungeon_interrupt.py) *)

Module DungeonInterrupt.
Import Eff Eff.Notations.
Local Open Scope eff_scope.

(** [range_typed_integers]: the checked conversions raise [OverflowError]
    outside the range of the type. *)
Definition u8_checked {C} (v : Z) : M C Z :=
  if (0 <=? v)%Z && (v <=? 255)%Z then ret v else raise OverflowError.

Definition u16_checked {C} (v : Z) : M C Z :=
  if (0 <=? v)%Z && (v <=? 65535)%Z then ret v else raise OverflowError.

(** [InterDEntryType]: the six kinds of check the help text of the
    controller lists, by their values. *)
Inductive InterDEntryType :=
  | ALWAYS
  | FLAG_NOT_SET
  | FLAG_SET
  | SCN_EQUAL
  | SCN_BELOW_EQUAL
  | SCN_GREATER_EQUAL.

Definition InterDEntryType_value (ty : InterDEntryType) : Z :=
  match ty with
  | ALWAYS => 0
  | FLAG_NOT_SET => 1
  | FLAG_SET => 2
  | SCN_EQUAL => 3
  | SCN_BELOW_EQUAL => 4
  | SCN_GREATER_EQUAL => 5
  end.

(** [InterDEntryType(v)]: an enum raises [ValueError] for a value it does
    not have. *)
Definition InterDEntryType_of_value {C} (v : Z) : M C InterDEntryType :=
  match v with
  | 0%Z => ret ALWAYS
  | 1%Z => ret FLAG_NOT_SET
  | 2%Z => ret FLAG_SET
  | 3%Z => ret SCN_EQUAL
  | 4%Z => ret SCN_BELOW_EQUAL
  | 5%Z => ret SCN_GREATER_EQUAL
  | _ => raise ValueError
  end.

(** [ty.explanation], as the help text names the checks. *)
Definition explanation (ty : InterDEntryType) : string :=
  match ty with
  | ALWAYS => "Always"
  | FLAG_NOT_SET => "Flag Not Set"
  | FLAG_SET => "Flag Set"
  | SCN_EQUAL => "Scenario Equals"
  | SCN_BELOW_EQUAL => "Scenario Below or Equal"
  | SCN_GREATER_EQUAL => "Scenario Greater or Equal"
  end.

Record InterDEntry := Entry {
  floor : Z;
  ent_type : InterDEntryType;
  game_var_id : Z;
  param1 : Z;
  param2 : Z;
  continue_music : bool
}.

(** A row of [interrupt_store], column by column. *)
Record store_row := Row {
  col0 : Z;       (** floor *)
  col1 : Z;       (** value of the entry type *)
  col2 : Z;       (** game variable id *)
  col3 : Z;       (** param1 *)
  col4 : Z;       (** param2 *)
  col5 : string;  (** explanation of the entry type *)
  col6 : string;  (** name of the game variable *)
  col7 : bool     (** continue_music *)
}.

#[projections(primitive)]
Record t := Build {
  list_dungeons : list (list InterDEntry);
    (** [self.inter_d.list_dungeons] *)
  dungeon_store : list nat;
    (** column 0 of [dungeon_store] *)
  cb_dungeon_active : option nat;
    (** the active row of the combo box [cb_dungeon] *)
  interrupt_store : list store_row;
  var_names : list string
}.

Definition set_list_dungeons (v : list (list InterDEntry)) (s : t) : t :=
  Build v (dungeon_store s) (cb_dungeon_active s) (interrupt_store s) (var_names s).

Definition set_interrupt_store (v : list store_row) (s : t) : t :=
  Build (list_dungeons s) (dungeon_store s) (cb_dungeon_active s) v (var_names s).

Definition _get_current_dungeon (self : t) : nat :=
  match cb_dungeon_active self with
  | Some active_iter =>
      match dungeon_store self !! active_iter with
      | Some d => d
      | None => 0%nat
      end
  | None => 0%nat
  end.

(** [l[i] = x] of a Python list *)
Definition list_setitem {C A} (l : list A) (i : nat) (x : A) : M C (list A) :=
  if bool_decide (i < length l)%nat then ret (<[i := x]> l) else raise IndexError.

(** The body of the loop of [_build_list] for the row [v]. *)
Definition build_entry (dungeon : nat) (v : store_row) : M t unit :=
  e_floor <- u8_checked (col0 v) ;;
  e_ent_type <- InterDEntryType_of_value (col1 v) ;;
  e_game_var_id <- u16_checked (col2 v) ;;
  e_param1 <- u8_checked (col3 v) ;;
  e_param2 <- u8_checked (col4 v) ;;
  let e := Entry e_floor e_ent_type e_game_var_id e_param1 e_param2 (col7 v) in
  modify_self (fun s => set_list_dungeons
                 (alter (fun l => l ++ [e]) dungeon (list_dungeons s)) s).

Definition _build_list : M t unit :=
  self <- get_self ;;
  let dungeon := _get_current_dungeon self in
  l <- list_setitem (list_dungeons self) dungeon [] ;;
  modify_self (set_list_dungeons l) ;;
  for_each (interrupt_store self) (build_entry dungeon) ;;
  call "module.mark_dungeon_interrupts_as_modified".

(** *** The edit handlers, without their decorators *)

(** [store[path] = f(store[path])] *)
Definition store_edit (path : nat) (f : store_row -> store_row) : M t unit :=
  self <- get_self ;;
  if bool_decide (path < length (interrupt_store self))%nat
  then modify_self (set_interrupt_store (alter f path (interrupt_store self)))
  else raise IndexError.

Definition on_btn_add_clicked : M t unit :=
  self <- get_self ;;
  match var_names self !! 0%nat with
  | None => raise IndexError
  | Some name0 =>
      modify_self (set_interrupt_store
                     (interrupt_store self
                      ++ [Row 0 0 0 0 0 (explanation ALWAYS) name0 false])) ;;
      _build_list
  end.

(** [active_rows] are the indices of the selected rows;
    [for x in reversed(sorted(active_rows)): del store[x]]. *)
Definition on_btn_remove_clicked (active_rows : list nat) : M t unit :=
  for_each (reverse (merge_sort Nat.le active_rows))
           (fun x => modify_self (fun s =>
              set_interrupt_store (delete x (interrupt_store s)) s)) ;;
  _build_list.

(** [int(text)] is [Some n], or [None] when it raises [ValueError]. *)
Definition on_text_floor_edited (path : nat) (text : option Z) : M t unit :=
  match text with
  | None => ret tt
  | Some n =>
      store_edit path (fun r => Row n (col1 r) (col2 r) (col3 r) (col4 r)
                                    (col5 r) (col6 r) (col7 r)) ;;
      _build_list
  end.

Definition on_combo_type_changed (treepath : nat) (value : Z)
    (explanation : string) : M t unit :=
  store_edit treepath (fun r => Row (col0 r) value (col2 r) (col3 r) (col4 r)
                                    explanation (col6 r) (col7 r)) ;;
  _build_list.

Definition on_combo_game_var_changed (treepath : nat) (value : Z)
    (name : string) : M t unit :=
  store_edit treepath (fun r => Row (col0 r) (col1 r) value (col3 r) (col4 r)
                                    (col5 r) name (col7 r)) ;;
  _build_list.

Definition on_text_param1_edited (path : nat) (text : option Z) : M t unit :=
  match text with
  | None => ret tt
  | Some n =>
      store_edit path (fun r => Row (col0 r) (col1 r) (col2 r) n (col4 r)
                                    (col5 r) (col6 r) (col7 r)) ;;
      _build_list
  end.

Definition on_text_param2_edited (path : nat) (text : option Z) : M t unit :=
  match text with
  | None => ret tt
  | Some n =>
      store_edit path (fun r => Row (col0 r) (col1 r) (col2 r) (col3 r) n
                                    (col5 r) (col6 r) (col7 r)) ;;
      _build_list
  end.

(** [tree_store[path][7] = not widget.get_active()] *)
Definition on_continue_music_toggled (path : nat) (active : bool) : M t unit :=
  store_edit path (fun r => Row (col0 r) (col1 r) (col2 r) (col3 r) (col4 r)
                                (col5 r) (col6 r) (negb active)) ;;
  _build_list.

(** *** Filling the view *)

Definition set_dungeon_store (v : list nat) (s : t) : t :=
  Build (list_dungeons s) v (cb_dungeon_active s) (interrupt_store s) (var_names s).

Definition set_cb_dungeon_active (v : option nat) (s : t) : t :=
  Build (list_dungeons s) (dungeon_store s) v (interrupt_store s) (var_names s).

Definition set_var_names (v : list string) (s : t) : t :=
  Build (list_dungeons s) (dungeon_store s) (cb_dungeon_active s) (interrupt_store s) v.

(** [l[i]] of a Python list for an integer [i] *)
Definition list_getitem {C A} (l : list A) (i : Z) : M C A :=
  match MonsterSprite.py_index l i with
  | Some x => ret x
  | None => raise IndexError
  end.

(** The row [on_cb_dungeon_changed] appends for the entry [p]. *)
Definition append_entry_row (p : InterDEntry) : M t unit :=
  self <- get_self ;;
  name <- list_getitem (var_names self) (game_var_id p) ;;
  modify_self (fun s => set_interrupt_store
                 (interrupt_store s
                  ++ [Row (floor p) (InterDEntryType_value (ent_type p))
                          (game_var_id p) (param1 p) (param2 p)
                          (explanation (ent_type p)) name (continue_music p)]) s).

Definition on_cb_dungeon_changed : M t unit :=
  modify_self (set_interrupt_store []) ;;
  self <- get_self ;;
  match list_dungeons self !! _get_current_dungeon self with
  | None => raise IndexError
  | Some ps => for_each ps append_entry_row
  end.

(** [cb.set_active(i)]: a row the model has becomes the active one, any
    other index leaves no row active. *)
Definition set_active (i : nat) (s : t) : t :=
  set_cb_dungeon_active
    (if bool_decide (i < length (dungeon_store s))%nat then Some i else None) s.

(** [_init_combos()].  [game_variables] are the names of the game variables
    of the ROM; the type store and the texts of the two other stores are
    not modelled. *)
Definition _init_combos (game_variables : list string) : M t unit :=
  modify_self (set_var_names []) ;;
  for_each game_variables (fun g =>
    modify_self (fun s => set_var_names (var_names s ++ [g]) s)) ;;
  modify_self (set_dungeon_store []) ;;
  self <- get_self ;;
  for_each (seq 0 (length (list_dungeons self))) (fun i =>
    modify_self (fun s => set_dungeon_store (dungeon_store s ++ [i]) s)) ;;
  modify_self (set_active 0).

End DungeonInterrupt.

(** * Notions used to state the properties *)

Module Spec.
Import ItemStore Eff.

(** ** Rows of the item store *)

(** The row reached from [t] along the relative path [r]. *)
Definition sub (t : tree) (r : path) : option tree :=
  match r with [] => Some t | _ => lookup_path (children t) r end.

Definition vis_of (o : option tree) : bool :=
  match o with Some t => col_visible (data t) | None => false end.

Definition lbl_of (o : option tree) : option string :=
  (fun t => col_label (data t)) <$> o.

(** [p] addresses a row of the store. *)
Definition is_row (st : store) (p : path) : Prop := is_Some (lookup_path st p).

(** The row at [a] is an ancestor of the row at [p]. *)
Definition ancestor (a p : path) : Prop := a ≠ [] ∧ a `prefix_of` p ∧ a ≠ p.

(** What [_filter__make_subtree_visible] does to one child. *)
Definition visit_child (subtree : tree) : tree :=
  if col_visible (data subtree) then subtree
  else set_visible true (MainController.make_subtree_visible subtree).

(** In the list of visited paths no row comes after a row below it:
    parents are visited before their descendants. *)
Definition parents_first : list path → Prop :=
  StronglySorted (fun x y => ¬ y `prefix_of` x).

(** The test of [_filter__show_matches] on the row at [z]: its label
    contains the search text, both in lower case. *)
Definition matches_at (s : string) (st : store) (z : path) : bool :=
  match label_at st z with
  | Some label => Str.contains (Str.lower s) (Str.lower label)
  | None => false
  end.

(** What holds of the store [st] while [foreach(_filter__show_matches)]
    runs over [st0] and the rows of [done_] have been visited. *)
Definition shown (s : string) (st0 : store) (done_ : list path) (st : store)
  : Prop :=
  (∀ q, label_at st q = label_at st0 q) ∧
  (∀ q, is_Some (lookup_path st0 q) →
        visible_at st q = true ↔
        ∃ z, z ∈ done_ ∧ matches_at s st0 z = true ∧
             (z `prefix_of` q ∨ q `prefix_of` z)).

(** ** Saving *)

(** The test of [_save]: a project is open and it has modifications or
    [force] is set. *)
Definition save_wanted (force : bool) (self : MainController.t) : bool :=
  match MainController.rom_project self with
  | Some rom => MainController.has_modifications rom || force
  | None => false
  end.

End Spec.
Import Spec.

(** * Notions for the sprite preview *)

Module SpriteSpec.
Import Eff Eff.Notations MonsterSprite.
Local Open Scope eff_scope.

(** The animation index addresses a rendered frame. *)
Definition anim_in_range (self : t) : Prop :=
  (0 <= _anim_counter self < Z.of_nat (length (_rendered_frame_info self)))%Z.

(** Drawing is active and the drawing area exists and has a parent. *)
Definition drawing (self : t) : Prop :=
  _drawing_is_active self = true ∧
  ∃ area, _draw_area self = Some area ∧ is_Some (area_parent area).

(** The timeout source [id] was handed out and is no longer installed. *)
Definition stopped (id : nat) (self : t) : Prop :=
  (id < next_timeout_id self)%nat ∧ id ∉ timeouts self.

(** GTK takes the drawing area out of its parent. *)
Definition detach (self : t) : t :=
  set_draw_area
    (match _draw_area self with
     | Some area => Some (DrawArea (area_id area) None)
     | None => None
     end) self.

(** What can happen to the controller between two looks at it. *)
Inductive action :=
  | Start                  (** [start_sprite_drawing()] *)
  | Stop                   (** [stop_sprite_drawing()] *)
  | Fire (id : nat)        (** the main loop fires the timeout source [id] *)
  | Draw                   (** the drawing area is drawn: [on_draw_sprite_draw] *)
  | Detach                 (** the drawing area loses its parent *)
  | Focus (b : bool).      (** the main window gains or loses the focus *)

Definition exec (a : action) : M t unit :=
  match a with
  | Start => start_sprite_drawing
  | Stop => stop_sprite_drawing
  | Fire id => timeout_fire id
  | Draw => _ <- on_draw_sprite_draw ;; ret tt
  | Detach => modify_self detach
  | Focus b => modify_self (set_main_window_has_focus b)
  end.

Definition run (acts : list action) (w : world t) : world t :=
  fold_left (fun w a => (exec a w).2) acts w.

(** A preview with two frames, showing the second one, its drawing area in
    place. *)
Definition preview_world : world t :=
  World 0%nat (fun _ => None) []
    (Build 25 3 1 false (Some (DrawArea 5%nat (Some 6%nat)))
           [(4%Z, Rendered 100 0 0 32 32); (2%Z, Rendered 101 1 0 32 32)]
           true [] 0%nat).

End SpriteSpec.
Import SpriteSpec.

(** * Notions for the interrupt list *)

Module DungeonSpec.
Import Eff Eff.Notations DungeonInterrupt.
Local Open Scope eff_scope.

(** The entry a store row stands for: floor from column 0 as [u8], entry
    type from column 1, game variable id from column 2 as [u16], params
    from columns 3 and 4 as [u8], continue_music from column 7; or the
    exception of the first conversion that fails. *)
Definition entry_of_row (v : store_row) : result InterDEntry :=
  if negb ((0 <=? col0 v)%Z && (col0 v <=? 255)%Z) then Raised OverflowError
  else match col1 v with
       | 0%Z | 1%Z | 2%Z | 3%Z | 4%Z | 5%Z =>
           if negb ((0 <=? col2 v)%Z && (col2 v <=? 65535)%Z) then Raised OverflowError
           else if negb ((0 <=? col3 v)%Z && (col3 v <=? 255)%Z) then Raised OverflowError
           else if negb ((0 <=? col4 v)%Z && (col4 v <=? 255)%Z) then Raised OverflowError
           else Ok (Entry (col0 v)
                      (match col1 v with
                       | 0%Z => ALWAYS
                       | 1%Z => FLAG_NOT_SET
                       | 2%Z => FLAG_SET
                       | 3%Z => SCN_EQUAL
                       | 4%Z => SCN_BELOW_EQUAL
                       | _ => SCN_GREATER_EQUAL
                       end)
                      (col2 v) (col3 v) (col4 v) (col7 v))
       | _ => Raised ValueError
       end.

(** The rows converted in order up to the first row that does not convert,
    with the exception that row raises. *)
Fixpoint convert_rows (rows : list store_row) : list InterDEntry * option exn :=
  match rows with
  | [] => ([], None)
  | v :: rows' =>
      match entry_of_row v with
      | Ok e => let (es, err) := convert_rows rows' in (e :: es, err)
      | Raised x => ([], Some x)
      end
  end.

(** The edits of the interrupt store the controller has handlers for. *)
Inductive edit :=
  | Add
  | Remove (active_rows : list nat)
  | FloorEdited (path : nat) (text : option Z)
  | TypeChanged (treepath : nat) (value : Z) (explanation : string)
  | GameVarChanged (treepath : nat) (value : Z) (name : string)
  | Param1Edited (path : nat) (text : option Z)
  | Param2Edited (path : nat) (text : option Z)
  | MusicToggled (path : nat) (active : bool).

Definition handler (e : edit) : M t unit :=
  match e with
  | Add => on_btn_add_clicked
  | Remove active_rows => on_btn_remove_clicked active_rows
  | FloorEdited path text => on_text_floor_edited path text
  | TypeChanged treepath value explanation =>
      on_combo_type_changed treepath value explanation
  | GameVarChanged treepath value name =>
      on_combo_game_var_changed treepath value name
  | Param1Edited path text => on_text_param1_edited path text
  | Param2Edited path text => on_text_param2_edited path text
  | MusicToggled path active => on_continue_music_toggled path active
  end.

Definition mark_modified : event :=
  Called "module.mark_dungeon_interrupts_as_modified".

(** The claim as the specification words it, for one run of [_build_list]
    from [w]: the list of the selected dungeon is the store rows, each
    converted, and the module has been marked as modified. *)
Definition rebuilt_from_all_rows (w : world t) : Prop :=
  let d := _get_current_dungeon (self w) in
  let w' := (_build_list w).2 in
  (∃ es, list_dungeons (self w') !! d = Some es ∧
         Forall2 (fun v e => entry_of_row v = Ok e) (interrupt_store (self w)) es) ∧
  mark_modified ∈ trace w'.

(** A store whose second row holds floor 300 after the user typed it. *)
Definition overflow_world : world t :=
  World 0%nat (fun _ => None) []
    (Build [[Entry 1 ALWAYS 0 0 0 false; Entry 2 ALWAYS 0 0 0 false;
             Entry 3 ALWAYS 0 0 0 false];
            [Entry 9 FLAG_SET 7 1 0 true]]
           [0%nat; 1%nat] (Some 0%nat)
           [Row 1 0 0 0 0 "Always" "VERSION" false;
            Row 300 0 0 0 0 "Always" "VERSION" false;
            Row 3 0 0 0 0 "Always" "VERSION" false]
           ["VERSION"]).

(** The same store with floor 30 in the second row. *)
Definition in_range_world : world t :=
  World 0%nat (fun _ => None) []
    (Build [[Entry 1 ALWAYS 0 0 0 false; Entry 2 ALWAYS 0 0 0 false;
             Entry 3 ALWAYS 0 0 0 false];
            [Entry 9 FLAG_SET 7 1 0 true]]
           [0%nat; 1%nat] (Some 0%nat)
           [Row 1 0 0 0 0 "Always" "VERSION" false;
            Row 30 0 0 0 0 "Always" "VERSION" false;
            Row 3 0 0 0 0 "Always" "VERSION" false]
           ["VERSION"]).

End DungeonSpec.
Import DungeonSpec.

(** * Notions for view loading, threads and errors *)

Module ViewSpec.
Import ItemStore Eff Eff.Notations MainController.
Local Open Scope eff_scope.

(** The triple [(module, in_view.__class__, item_id)] of a delivered result
    is the triple [load_view] recorded last. *)
Definition selection_matches (self : t) (module : module_id)
    (in_view : view_object) (item_id : Z) : Prop :=
  _current_view_module self = Some module ∧
  _current_view_controller_class self = Some (view_class in_view) ∧
  _current_view_item_id self = Some item_id.

(** The triple [load_view] recorded last. *)
Definition selection_of (self : t) : option module_id * option class_id * option Z :=
  (_current_view_module self, _current_view_controller_class self,
   _current_view_item_id self).

(** A computation that does not touch the recorded triple. *)
Definition keeps_selection {A} (m : M t A) : Prop :=
  ∀ w, selection_of (self (m w).2) = selection_of (self w).

(** The widget of a delivered result, when retrieving it does not raise. *)
Definition view_widget (in_view : view_object) : option widget :=
  match in_view with
  | ViewWidget _ w => Some w
  | ViewController _ _ (Returns w) => Some w
  | ViewController _ _ (Raises _) => None
  end.

(** What [on_view_loaded] and its error path do to the view on show before:
    the old page is destroyed and the old controller is unloaded. *)
Definition replaced_view_events (self : t) : list event :=
  match get_child_by_name (_editor_stack self) "es__loaded_view" with
  | Some old => [WidgetDestroyed old]
  | None => []
  end ++
  match _current_view self with
  | Some (ViewController _ c _) => [ControllerUnloaded c]
  | _ => []
  end.

(** ** Threads *)

(** The lines of [assert current_thread() == main_thread]. *)
Definition thread_assert_lines : list nat := [345; 410; 441; 494; 548]%nat.

Definition thread_assertion_failed {A} (r : result A) : Prop :=
  ∃ line, line ∈ thread_assert_lines ∧ r = Raised (AssertionError line).

(** The callbacks that assert the thread they run on. *)
Inductive callback :=
  | FileOpened
  | FileOpenedError (exception : exn)
  | ButtonPress (double : bool) (selected : option path)
  | ViewLoaded (module : module_id) (in_view : view_object) (item_id : Z)
  | ViewLoadedError (ex : exn).

Definition run_callback (c : callback) : M t unit :=
  match c with
  | FileOpened => on_file_opened
  | FileOpenedError exception => on_file_opened_error exception
  | ButtonPress double selected =>
      on_main_item_list_button_press_event double selected
  | ViewLoaded module in_view item_id => on_view_loaded module in_view item_id
  | ViewLoadedError ex => on_view_loaded_error ex
  end.

(** The single-threaded event loop: the callbacks run one after the other
    on the thread of the world; the results are collected. *)
Fixpoint event_loop (cs : list callback) (w : world t) : list (result unit) :=
  match cs with
  | [] => []
  | c :: cs' => (run_callback c w).1 :: event_loop cs' (run_callback c w).2
  end.

(** The world runs on the thread that imported the module. *)
Definition on_main_thread (w : world t) : Prop :=
  current_thread w = main_thread (self w).

(** A computation that stays on the main thread and fails none of the
    thread assertions when it starts there. *)
Definition thread_safe {A} (m : M t A) : Prop :=
  ∀ w, on_main_thread w →
       on_main_thread (m w).2 ∧ ¬ thread_assertion_failed (m w).1.

(** ** Errors *)

(** A computation that does not change which calls raise, only adds to the
    trace, and, when it ends in an exception of a call, has that call as
    the last thing it did. *)
Definition stops_at_failing_call {C A} (m : M C A) : Prop :=
  ∀ w, raises (m w).2 = raises w ∧
       ∃ evs, trace (m w).2 = trace w ++ evs ∧
              ∀ msg, (m w).1 = Raised (Exception msg) →
                     ∃ pre name, evs = pre ++ [Called name] ∧
                                 raises w name = Some msg.

(** The claim as the specification words it, for one run of the operation
    [m] from [w]: the run returns and put up the modal error dialog. *)
Definition shown_in_error_dialog {C A} (m : M C A) (w : world C) : Prop :=
  ∃ a w' evs title e,
    m w = (Ok a, w') ∧ trace w' = trace w ++ evs ∧ DisplayError title e ∈ evs.

(** The world in which [on_file_opened] enters its [try]: the sprite loader
    is initialised, the item store is cleared and the title is set. *)
Definition opening_world (pr : project) (w : world t) : world t :=
  World (current_thread w) (raises w)
        ((trace w ++ [Called "sprite_provider.init_loader"])
         ++ [SetTitle (basename (filename pr)) false])
        (set_item_store [] (self w)).

(** What [on_view_loaded_error] asks of the error page. *)
Definition error_page_events (self : t) : list event :=
  [Called "es_error_text_buffer.set_text";
   Called (if bool_decide (is_Some (sentry_event_id (settings self)))
           then "button_report.show" else "button_report.hide")].

(** ** Sample worlds *)

Definition sample_row (label : string) (cls : class_id) (item_id : Z)
    (visible : bool) : row_data :=
  RowData label 1%nat cls item_id label visible.

(** A small item tree: the ROM with two groups below it. *)
Definition sample_store : store :=
  [Node (sample_row "ROM" 10%nat 0 true)
     [Node (sample_row "Pokemon" 11%nat 0 true)
        [Node (sample_row "Bulbasaur" 12%nat 1 true) [];
         Node (sample_row "Pikachu" 12%nat 25 false) []];
      Node (sample_row "Items" 13%nat 0 true)
        [Node (sample_row "Poke Ball" 14%nat 1 true) []]]].

Definition sample_controller (search_text : option string) : t :=
  Build 0%nat
        (Some (Project "/roms/sky.nds" false sample_store []))
        (Settings ["/roms/a.nds"; "/roms/sky.nds"] true None)
        ["/roms/a.nds"; "/roms/sky.nds"]
        None (Some true) (Some 0%nat) sample_store
        (Stack [("es_loading", es_loading); ("es_error", es_error)]
               (Some es_loading))
        search_text
        (Some 1%nat) (Some 12%nat) (Some 25%Z) None [] None None.

Definition sample_world (search_text : option string) : world t :=
  World 0%nat (fun _ => None) [] (sample_controller search_text).

(** A sprite controller in a world where merging the sprite files fails. *)
Definition merge_fails_world : world MonsterSprite.t :=
  World 0%nat
        (fun name => if bool_decide (name = "FileType.WAN.CHARA.merge_wan")
                     then Some "unsupported sprite" else None)
        [] (MonsterSprite.init 25 true).

(** A delivered controller whose [get_view()] raises. *)
Definition failing_view : view_object :=
  ViewController 12%nat 7%nat (Raises "sprite file is damaged").

End ViewSpec.
Import ViewSpec.

(** * Notions for the further properties *)

Module StoreSpec.
Import ItemStore Eff.

(** A row and the rows below it with the column [COL_VISIBLE] blanked: what
    is left is the shape of the tree and every other column. *)
Fixpoint forget_visible (t : tree) : tree :=
  match t with
  | Node d cs => Node (set_col_visible false d) (forget_visible <$> cs)
  end.

(** Two stores with the same rows, [COL_VISIBLE] aside. *)
Definition same_but_visible (st1 st2 : store) : Prop :=
  forget_visible <$> st1 = forget_visible <$> st2.

(** A text of blanks only. *)
Definition blank (text : string) : Prop :=
  Forall (fun c => MainController.is_space c = true) (list_ascii_of_string text).

(** The sample controller with every row of its item store hidden. *)
Definition hidden_world (search_text : option string) : world MainController.t :=
  World 0%nat (fun _ => None) []
    (MainController.set_item_store (forget_visible <$> sample_store)
       (sample_controller search_text)).

End StoreSpec.
Import StoreSpec.


Module FilesSpec.
Import Eff Eff.Notations MainController.
Local Open Scope eff_scope.

Definition is_call (name : string) (ev : event) : bool :=
  match ev with
  | Called n => String.eqb n name
  | _ => false
  end.

(** How often the call [name] was started in a trace. *)
Definition calls (name : string) (tr : list event) : nat :=
  length (List.filter (is_call name) tr).

(** No call out of the modelled code raises. *)
Definition nothing_raises {C} (w : world C) : Prop := ∀ name, raises w name = None.

(** Whether [_check_open_file] lets the file be opened at once: the
    debugger agrees, and the project has no unsaved changes or the user
    answers "Don't Save". *)
Definition may_open (check_save : bool) (response : Z) (self : t) : bool :=
  check_save && (negb (project_modified self) || (response =? 0)%Z).

(** Whether [on_main_window_delete_event] lets the window close. *)
Definition may_close (close : bool) (response : Z) (self : t) : bool :=
  close && (negb (project_modified self) || (response =? 0)%Z).

(** The sample controller with unsaved changes. *)
Definition modified_world : world t :=
  World 0%nat (fun _ => None) []
    (set_rom_project (Some (Project "/roms/sky.nds" true sample_store []))
                     (sample_controller None)).

(** A stand-in for [add_extension_if_missing]. *)
Definition add_nds (fn ext : string) : string := fn +:+ "." +:+ ext.

End FilesSpec.
Import FilesSpec.

Module GeometrySpec.
Import MainController.

(** What can happen to the window between two looks at it. *)
Inductive action :=
  | Configure                (** a configure event arrives *)
  | Fire (id : nat)          (** the main loop fires the timeout source [id] *)
  | Changed (position size : Z * Z) (maximized : bool).
                             (** the window is moved, resized or maximized *)

Definition exec (a : action) (g : geometry) : geometry :=
  match a with
  | Configure => on_main_window_configure_event g
  | Fire id => source_fire id g
  | Changed position size maximized => window_changed position size maximized g
  end.

Definition run (acts : list action) (g : geometry) : geometry :=
  fold_left (fun g a => exec a g) acts g.

(** The state after [__init__]: no timeout is pending. *)
Definition init (position size : Z * Z) (maximized : bool) : geometry :=
  Geometry None [] 0 false position size maximized None None None.

(** The pending sources are the one source [_resize_timeout_id] names, or
    none; the ids handed out so far are below [next_source_id]. *)
Definition one_pending (g : geometry) : Prop :=
  sources g = option_list (_resize_timeout_id g) ∧
  (∀ id, id ∈ sources g → (id < next_source_id g)%nat) ∧
  removed_dead_source g = false.

End GeometrySpec.

Module CrumbSpec.
Import ItemStore Eff MainController.

Definition title_at (st : store) (p : path) : option string :=
  col_title <$> row_at st p.

(** The rows on the way from the top level down to the row at [p]: the
    prefixes of [p] that are not empty, the shortest first. *)
Definition line_to (p : path) : list path :=
  (fun n => take n p) <$> seq 1 (length p).

(** The titles with [" > "] before each of them. *)
Fixpoint arrows (titles : list string) : string :=
  match titles with
  | [] => ""
  | title :: titles' => " > " +:+ title +:+ arrows titles'
  end.

(** The modules of a project are loaded in this order: sorted by
    [sort_order], modules with the same [sort_order] in the order the
    project has them. *)
Definition load_order (ms sorted : list module_info) : Prop :=
  sorted ≡ₚ ms ∧
  StronglySorted (fun a b => (sort_order a <= sort_order b)%Z) sorted ∧
  ∀ k, filter (fun m => sort_order m = k) sorted
       = filter (fun m => sort_order m = k) ms.

(** The sample controller with two modules that are not in the order of
    their [sort_order]. *)
Definition two_module_world : world t :=
  World 0%nat (fun _ => None) []
    (set_rom_project
       (Some (Project "/roms/sky.nds" false
                [Node (sample_row "ROM" 10%nat 0 true) []]
                [ModuleInfo "sprite" 20 [Node (sample_row "Sprites" 21%nat 0 true) []];
                 ModuleInfo "lists" 10 [Node (sample_row "Lists" 22%nat 0 true) []]]))
       (sample_controller None)).

End CrumbSpec.
Import CrumbSpec.

Module AnimSpec.
Import Eff Eff.Notations MonsterSprite.
Local Open Scope eff_scope.

(** The drawing area exists and sits in a parent. *)
Definition attached (self : t) : Prop :=
  ∃ area, _draw_area self = Some area ∧ is_Some (area_parent area).

(** The preview holds [frames], shows frame [i] and has counted to [c]. *)
Definition showing (frames : list (Z * rendered)) (i : nat) (c : Z) (self : t)
  : Prop :=
  _rendered_frame_info self = frames ∧
  _anim_counter self = Z.of_nat i ∧
  _frame_counter self = c ∧
  attached self.

(** One turn of the preview: the timer ticks [ticks] times, then the
    drawing area is drawn, which asks [_get_sprite_anim] for the picture. *)
Definition turn (ticks : nat) : M t rendered :=
  for_each (replicate ticks tt) (fun _ => _ <- _tick ;; ret tt) ;;
  _get_sprite_anim.

(** [n] turns, with the pictures drawn. *)
Fixpoint turns (n ticks : nat) : M t (list rendered) :=
  match n with
  | O => ret []
  | S n' => r <- turn ticks ;; rs <- turns n' ticks ;; ret (r :: rs)
  end.

(** The index after frame [i] of [len] frames. *)
Definition next_index (len i : nat) : nat :=
  if (len <=? i + 1)%nat then 0%nat else (i + 1)%nat.

(** For how many turns a frame of duration [d] is drawn when the timer
    ticks [ticks] times between two draws. *)
Definition turns_of (ticks : nat) (d : Z) : nat :=
  Z.to_nat (d / (Z.of_nat ticks + 1)) + 1.

(** The pictures of one run through the frames. *)
Definition one_run (ticks : nat) (frames : list (Z * rendered)) : list rendered :=
  concat ((fun f => replicate (turns_of ticks f.1) f.2) <$> frames).

Definition turns_of_run (ticks : nat) (frames : list (Z * rendered)) : nat :=
  sum_list ((fun f => turns_of ticks f.1) <$> frames).

(** A preview at the start of its animation of two frames. *)
Definition fresh_preview_world : world t :=
  World 0%nat (fun _ => None) []
    (Build 25 0 0 true (Some (DrawArea 5%nat (Some 6%nat)))
           [(4%Z, Rendered 100 0 0 32 32); (2%Z, Rendered 101 1 0 32 32)]
           true [0%nat] 1%nat).

(** A controller as [__init__] leaves it, in a world where no call raises. *)
Definition new_preview_world : world t :=
  World 0%nat (fun _ => None) [] (init 25 true).

End AnimSpec.
Import AnimSpec.

Module ListSpec.
Import Eff Eff.Notations DungeonInterrupt.
Local Open Scope eff_scope.

(** An entry as the file format holds it: its numbers fit their types, and
    its game variable is one of [names]. *)
Definition entry_ok (names : list string) (p : InterDEntry) : Prop :=
  (0 <= floor p <= 255)%Z ∧
  (0 <= game_var_id p <= 65535)%Z ∧
  (Z.to_nat (game_var_id p) < length names)%nat ∧
  (0 <= param1 p <= 255)%Z ∧
  (0 <= param2 p <= 255)%Z.

(** The row [on_cb_dungeon_changed] shows for an entry. *)
Definition row_of (names : list string) (p : InterDEntry) : store_row :=
  Row (floor p) (InterDEntryType_value (ent_type p)) (game_var_id p)
      (param1 p) (param2 p) (explanation (ent_type p))
      (default "" (names !! Z.to_nat (game_var_id p))) (continue_music p).

(** The rows without those at the indices [active_rows]; [k] is the index
    of the first row. *)
Fixpoint omit_from (k : nat) (active_rows : list nat) (rows : list store_row)
  : list store_row :=
  match rows with
  | [] => []
  | r :: rows' =>
      if bool_decide (k ∈ active_rows) then omit_from (S k) active_rows rows'
      else r :: omit_from (S k) active_rows rows'
  end.

Definition omit (active_rows : list nat) (rows : list store_row) : list store_row :=
  omit_from 0 active_rows rows.

(** The list of the selected dungeon is what the rows of the store stand
    for. *)
Definition in_sync (self : t) : Prop :=
  ∃ es, convert_rows (interrupt_store self) = (es, None) ∧
        list_dungeons self !! _get_current_dungeon self = Some es.

(** The controller of [in_range_world] before its view is filled. *)
Definition unfilled_world : world t :=
  World 0%nat (fun _ => None) []
    (Build [[Entry 1 ALWAYS 0 0 0 false; Entry 2 ALWAYS 0 0 0 false;
             Entry 3 ALWAYS 0 0 0 false];
            [Entry 9 FLAG_SET 1 1 0 true]]
           [] None [] []).

End ListSpec.
Import ListSpec.

(** * Properties *)

(** ** Rows and paths of the item store *)

Section store_facts.
Import ItemStore.

Lemma visible_at_vis_of st p : visible_at st p = vis_of (lookup_path st p).
Proof. unfold visible_at, row_at. by destruct (lookup_path st p). Qed.

Lemma label_at_lbl_of st p : label_at st p = lbl_of (lookup_path st p).
Proof. unfold label_at, row_at, lbl_of. by destruct (lookup_path st p). Qed.

Lemma lookup_path_cons f i p :
  lookup_path f (i :: p) = f !! i ≫= fun t => sub t p.
Proof. simpl. destruct (f !! i); simpl; [by destruct p|done]. Qed.

Lemma sub_cons t i r : sub t (i :: r) = children t !! i ≫= fun c => sub c r.
Proof. unfold sub at 1. apply lookup_path_cons. Qed.

Lemma lookup_path_app f p r :
  p ≠ [] → lookup_path f (p ++ r) = lookup_path f p ≫= fun t => sub t r.
Proof.
  revert f. induction p as [|i p IH]; intros f Hp; [done|].
  rewrite <-app_comm_cons, !lookup_path_cons.
  destruct (f !! i) as [t|]; simpl; [|done].
  destruct p as [|j p]; [done|].
  unfold sub at 1 2. rewrite <-app_comm_cons. by apply IH.
Qed.

Lemma sub_app t r1 r2 : sub t (r1 ++ r2) = sub t r1 ≫= fun c => sub c r2.
Proof.
  destruct r1 as [|i r1]; [done|].
  change (lookup_path (children t) ((i :: r1) ++ r2)
          = lookup_path (children t) (i :: r1) ≫= fun c => sub c r2).
  by apply lookup_path_app.
Qed.

Lemma lookup_path_prefix_is_Some f p q :
  p ≠ [] → p `prefix_of` q → is_Some (lookup_path f q) → is_Some (lookup_path f p).
Proof.
  intros Hp [r ->] [t Ht]. rewrite lookup_path_app in Ht by done.
  destruct (lookup_path f p); [by eexists|done].
Qed.

(** What an update at [p] does to the rows at and below [p] ... *)
Lemma lookup_alter_path_ext g f p r :
  p ≠ [] →
  lookup_path (alter_path g f p) (p ++ r) = lookup_path f p ≫= fun t => sub (g t) r.
Proof.
  revert f. induction p as [|i p IH]; intros f Hp; [done|].
  rewrite <-app_comm_cons, !lookup_path_cons. simpl alter_path.
  rewrite list_lookup_alter_eq. destruct (f !! i) as [t|]; simpl; [|done].
  destruct p as [|j p]; [done|].
  unfold sub at 1 2. rewrite <-app_comm_cons. simpl children. by apply IH.
Qed.

(** ... and to all other rows: their columns are left alone. *)
Lemma row_at_alter_path_other g f p q :
  ¬ p `prefix_of` q → row_at (alter_path g f p) q = row_at f q.
Proof.
  unfold row_at. revert f q. induction p as [|i p IH]; intros f q Hpq.
  { destruct Hpq. apply prefix_nil. }
  destruct q as [|j q]; [done|].
  rewrite !lookup_path_cons. simpl alter_path.
  destruct (decide (i = j)) as [->|Hij].
  - rewrite list_lookup_alter_eq. destruct (f !! j) as [t|]; simpl; [|done].
    destruct p as [|k p]; [destruct Hpq; apply prefix_cons, prefix_nil|].
    destruct q as [|l q]; [done|].
    unfold sub. simpl children. apply IH.
    intros Hp. apply Hpq. by apply prefix_cons.
  - by rewrite list_lookup_alter_ne.
Qed.

End store_facts.

(** ** The three updates of the filter, row by row *)

Section filter_updates.
Import ItemStore MainController.

Lemma is_Some_lbl_of o : is_Some (lbl_of o) ↔ is_Some o.
Proof. unfold lbl_of. apply fmap_is_Some. Qed.

Lemma label_at_is_Some st p : is_Some (label_at st p) ↔ is_Some (lookup_path st p).
Proof. rewrite label_at_lbl_of. apply is_Some_lbl_of. Qed.

Lemma visible_at_is_Some st p : visible_at st p = true → is_Some (lookup_path st p).
Proof. rewrite visible_at_vis_of. destruct (lookup_path st p); [by eexists|done]. Qed.

(** An update that keeps the labels below the row it is applied to keeps
    every label of the store. *)
Lemma label_at_alter_path g st p q :
  (∀ t r, lbl_of (sub (g t) r) = lbl_of (sub t r)) →
  label_at (alter_path g st p) q = label_at st q.
Proof.
  intros Hg. destruct p as [|i p]; [done|].
  destruct (decide ((i :: p) `prefix_of` q)) as [[r ->]|Hpq].
  - rewrite !label_at_lbl_of, lookup_alter_path_ext, lookup_path_app by done.
    destruct (lookup_path st (i :: p)); simpl; [apply Hg|done].
  - unfold label_at. by rewrite row_at_alter_path_other.
Qed.

Lemma visible_at_alter_path_mono g st p q :
  (∀ t r, vis_of (sub t r) = true → vis_of (sub (g t) r) = true) →
  visible_at st q = true → visible_at (alter_path g st p) q = true.
Proof.
  intros Hg. destruct p as [|i p]; [done|].
  destruct (decide ((i :: p) `prefix_of` q)) as [[r ->]|Hpq].
  - rewrite !visible_at_vis_of, lookup_alter_path_ext, lookup_path_app by done.
    destruct (lookup_path st (i :: p)); simpl; [apply Hg|done].
  - unfold visible_at. by rewrite row_at_alter_path_other.
Qed.

Lemma is_Some_alter_path g st p q :
  (∀ t r, lbl_of (sub (g t) r) = lbl_of (sub t r)) →
  is_Some (lookup_path (alter_path g st p) q) ↔ is_Some (lookup_path st q).
Proof. intros Hg. by rewrite <-!label_at_is_Some, label_at_alter_path. Qed.

(** *** [row[COL_VISIBLE] = b] *)

Lemma sub_set_visible_ne b t r : r ≠ [] → sub (set_visible b t) r = sub t r.
Proof. by destruct r. Qed.

Lemma sub_set_visible_label b t r :
  lbl_of (sub (set_visible b t) r) = lbl_of (sub t r).
Proof. by destruct r. Qed.

Lemma set_visible_label b st p q :
  label_at (alter_path (set_visible b) st p) q = label_at st q.
Proof. apply label_at_alter_path, sub_set_visible_label. Qed.

Lemma set_visible_other b st p q :
  q ≠ p → visible_at (alter_path (set_visible b) st p) q = visible_at st q.
Proof.
  intros Hqp. destruct p as [|i p]; [done|].
  destruct (decide ((i :: p) `prefix_of` q)) as [[r ->]|Hpq].
  - destruct r as [|j r]; [by rewrite app_nil_r in Hqp|].
    rewrite !visible_at_vis_of, lookup_alter_path_ext, lookup_path_app by done.
    by destruct (lookup_path st (i :: p)).
  - unfold visible_at. by rewrite row_at_alter_path_other.
Qed.

Lemma set_visible_same b st p :
  is_Some (lookup_path st p) →
  visible_at (alter_path (set_visible b) st p) p = b.
Proof.
  intros [t Ht]. destruct p as [|i p]; [done|].
  rewrite visible_at_vis_of. rewrite <-(app_nil_r (i :: p)) at 2.
  rewrite lookup_alter_path_ext by done. by rewrite Ht.
Qed.

Lemma set_visible_true_mono st p q :
  visible_at st q = true →
  visible_at (alter_path (set_visible true) st p) q = true.
Proof.
  intros Hq. destruct (decide (q = p)) as [->|Hne].
  - apply set_visible_same, visible_at_is_Some, Hq.
  - by rewrite set_visible_other.
Qed.

(** *** [_filter__make_path_visible] *)

Lemma iter_parent_snoc q i :
  iter_parent (q ++ [i]) = match q with [] => None | _ => Some q end.
Proof. unfold iter_parent. rewrite removelast_last. by destruct q. Qed.

Lemma iter_parent_length p q : iter_parent p = Some q → S (length q) = length p.
Proof.
  destruct p as [|i p _] using rev_ind; [done|].
  rewrite iter_parent_snoc, length_app. simpl.
  destruct q; destruct p; intros [=]; subst; simpl; lia.
Qed.

(** The fuel handed to the loop is enough: more fuel gives the same store,
    so the loop has run until [iter] became [None]. *)
Lemma make_path_visible_loop_fuel n st p :
  (length p ≤ n)%nat →
  make_path_visible_loop n st (Some p) = _filter__make_path_visible st p.
Proof.
  unfold _filter__make_path_visible. revert st p.
  induction n as [|n IH]; intros st p Hn.
  { destruct p; [done|simpl in Hn; lia]. }
  destruct p as [|i p].
  { simpl. by destruct n. }
  simpl length. cbn [make_path_visible_loop].
  destruct (iter_parent (i :: p)) as [q|] eqn:Hq.
  - apply iter_parent_length in Hq. simpl in *.
    rewrite IH by lia. injection Hq as <-. done.
  - by destruct n, (length p).
Qed.

Lemma make_path_visible_snoc st q i :
  _filter__make_path_visible st (q ++ [i]) =
  match q with
  | [] => alter_path (set_visible true) st [i]
  | _ => _filter__make_path_visible (alter_path (set_visible true) st (q ++ [i])) q
  end.
Proof.
  unfold _filter__make_path_visible. rewrite length_app, Nat.add_1_r.
  cbn [make_path_visible_loop]. rewrite iter_parent_snoc.
  destruct q; [|done]. done.
Qed.

Lemma make_path_visible_label st p q :
  label_at (_filter__make_path_visible st p) q = label_at st q.
Proof.
  revert st. induction p as [|i p IH] using rev_ind; intros st; [done|].
  rewrite make_path_visible_snoc. destruct p.
  - apply set_visible_label.
  - by rewrite IH, set_visible_label.
Qed.

Lemma make_path_visible_mono st p q :
  visible_at st q = true → visible_at (_filter__make_path_visible st p) q = true.
Proof.
  revert st. induction p as [|i p IH] using rev_ind; intros st Hq; [done|].
  rewrite make_path_visible_snoc. destruct p.
  - by apply set_visible_true_mono.
  - by apply IH, set_visible_true_mono.
Qed.

(** Every row on the way from the top level down to [p] ends up visible. *)
Lemma make_path_visible_hit st p q :
  is_Some (lookup_path st p) → q ≠ [] → q `prefix_of` p →
  visible_at (_filter__make_path_visible st p) q = true.
Proof.
  revert st. induction p as [|i p IH] using rev_ind; intros st Hp Hq Hqp.
  { by apply prefix_nil_inv in Hqp. }
  rewrite make_path_visible_snoc.
  assert (Hcase : q = p ++ [i] ∨ q `prefix_of` p).
  { destruct Hqp as [r Hr]. destruct r as [|j r _] using rev_ind.
    - left. by rewrite app_nil_r in Hr.
    - right. rewrite app_assoc in Hr. apply app_inj_tail in Hr as [-> _].
      by exists r. }
  destruct Hcase as [->|Hqp'].
  - destruct p.
    + by apply set_visible_same.
    + apply make_path_visible_mono. by apply set_visible_same.
  - destruct p as [|j p]; [by apply prefix_nil_inv in Hqp'|].
    apply IH; [|done..].
    apply is_Some_alter_path; [apply sub_set_visible_label|].
    eapply lookup_path_prefix_is_Some; [| |exact Hp]; [done|].
    by apply prefix_app_r.
Qed.

(** Nothing else becomes visible. *)
Lemma make_path_visible_back st p q :
  visible_at (_filter__make_path_visible st p) q = true →
  visible_at st q = true ∨ q `prefix_of` p.
Proof.
  revert st. induction p as [|i p IH] using rev_ind; intros st Hq; [by left|].
  rewrite make_path_visible_snoc in Hq.
  assert (Hstep : ∀ st', visible_at (alter_path (set_visible true) st' (p ++ [i])) q = true →
                         visible_at st' q = true ∨ q `prefix_of` p ++ [i]).
  { intros st' H. destruct (decide (q = p ++ [i])) as [->|Hne]; [by right|].
    left. by rewrite set_visible_other in H. }
  destruct p as [|j p]; [by apply Hstep|].
  apply IH in Hq as [Hq|Hq]; [by apply Hstep|].
  right. by apply prefix_app_r.
Qed.

End filter_updates.

(** *** [_filter__make_subtree_visible] *)

Section subtree_visible.
Import ItemStore MainController.

Lemma make_subtree_visible_data t : data (make_subtree_visible t) = data t.
Proof. by destruct t. Qed.

Lemma make_subtree_visible_child t i :
  children (make_subtree_visible t) !! i = visit_child <$> children t !! i.
Proof. destruct t as [d cs]. simpl. by rewrite list_lookup_fmap. Qed.

Lemma sub_make_subtree_visible_label t r :
  lbl_of (sub (make_subtree_visible t) r) = lbl_of (sub t r).
Proof.
  revert t. induction r as [|i r IH]; intros t.
  { simpl. by rewrite make_subtree_visible_data. }
  rewrite !sub_cons, make_subtree_visible_child.
  destruct (children t !! i) as [c|]; simpl; [|done].
  unfold visit_child. destruct (col_visible (data c)); [done|].
  by rewrite sub_set_visible_label.
Qed.

Lemma sub_make_subtree_visible_mono t r :
  vis_of (sub t r) = true → vis_of (sub (make_subtree_visible t) r) = true.
Proof.
  revert t. induction r as [|i r IH]; intros t.
  { simpl. by rewrite make_subtree_visible_data. }
  rewrite !sub_cons, make_subtree_visible_child.
  destruct (children t !! i) as [c|]; simpl; [|done].
  unfold visit_child. destruct (col_visible (data c)); [done|].
  destruct r as [|j r]; [done|].
  rewrite sub_set_visible_ne by done. apply IH.
Qed.

(** A row below [t] becomes visible unless the walk down to it is cut short
    by a row that was visible already. *)
Lemma sub_make_subtree_visible_fill t r :
  r ≠ [] → is_Some (sub t r) →
  vis_of (sub (make_subtree_visible t) r) = true ∨
  ∃ r', r' ≠ [] ∧ r' `prefix_of` r ∧ vis_of (sub t r') = true.
Proof.
  revert t. induction r as [|i r IH]; intros t Hr Hsome; [done|].
  rewrite sub_cons in Hsome. rewrite sub_cons, make_subtree_visible_child.
  destruct (children t !! i) as [c|] eqn:Hc; simpl in *; [|by destruct Hsome].
  unfold visit_child. destruct (col_visible (data c)) eqn:Hvis.
  - right. exists [i]. split; [done|]. split; [apply prefix_cons, prefix_nil|].
    rewrite sub_cons, Hc. done.
  - destruct r as [|j r]; [by left|].
    rewrite sub_set_visible_ne by done.
    destruct (IH c) as [H|(r' & Hr' & Hpre & Hv)]; [done|done|by left|].
    right. exists (i :: r'). split; [done|]. split; [by apply prefix_cons|].
    rewrite sub_cons, Hc. done.
Qed.

Lemma make_subtree_visible_label st p q :
  label_at (_filter__make_subtree_visible st p) q = label_at st q.
Proof. apply label_at_alter_path, sub_make_subtree_visible_label. Qed.

Lemma make_subtree_visible_mono st p q :
  visible_at st q = true →
  visible_at (_filter__make_subtree_visible st p) q = true.
Proof. apply visible_at_alter_path_mono, sub_make_subtree_visible_mono. Qed.

(** Only rows strictly below [p] can change. *)
Lemma make_subtree_visible_back st p q :
  visible_at (_filter__make_subtree_visible st p) q = true →
  visible_at st q = true ∨ (p `prefix_of` q ∧ p ≠ q).
Proof.
  unfold _filter__make_subtree_visible. intros Hq.
  destruct p as [|i p]; [by left|].
  destruct (decide ((i :: p) `prefix_of` q)) as [[r ->]|Hpq].
  - destruct r as [|j r].
    + left. revert Hq. rewrite !visible_at_vis_of, lookup_alter_path_ext by done.
      rewrite app_nil_r. destruct (lookup_path st (i :: p)); simpl; [|done].
      by rewrite make_subtree_visible_data.
    + right. split; [by eexists|]. intros Heq.
      apply (f_equal length) in Heq. rewrite length_app in Heq. simpl in Heq. lia.
  - left. revert Hq. unfold visible_at. by rewrite row_at_alter_path_other.
Qed.

Lemma make_subtree_visible_fill st p q :
  p ≠ [] → p `prefix_of` q → p ≠ q → is_Some (lookup_path st q) →
  visible_at (_filter__make_subtree_visible st p) q = true ∨
  ∃ x, p `prefix_of` x ∧ p ≠ x ∧ x `prefix_of` q ∧ visible_at st x = true.
Proof.
  unfold _filter__make_subtree_visible. intros Hp [r ->] Hne Hq.
  assert (Hr : r ≠ []) by (intros ->; by rewrite app_nil_r in Hne).
  rewrite !visible_at_vis_of, lookup_alter_path_ext by done.
  rewrite lookup_path_app in Hq by done.
  destruct (lookup_path st p) as [t|] eqn:Ht; simpl in *; [|by destruct Hq].
  destruct (sub_make_subtree_visible_fill t r Hr Hq) as [H|(r' & Hr' & Hpre & Hv)];
    [by left|right].
  exists (p ++ r'). split; [by eexists|]. split.
  { intros Heq. apply (f_equal length) in Heq. rewrite length_app in Heq.
    destruct r'; [done|simpl in Heq; lia]. }
  split; [by apply prefix_app|].
  by rewrite visible_at_vis_of, lookup_path_app, Ht.
Qed.

End subtree_visible.

(** ** The order in which [foreach] visits the rows *)

Section foreach_order.
Import ItemStore.

Lemma tree_paths_unfold d cs : tree_paths (Node d cs) = [] :: forest_paths 0 cs.
Proof.
  reflexivity.
Qed.

Lemma elem_of_forest_paths p i f :
  p ∈ forest_paths i f ↔
  ∃ j r t, p = (i + j)%nat :: r ∧ f !! j = Some t ∧ r ∈ tree_paths t.
Proof.
  revert i. induction f as [|c f IH]; intros i; simpl.
  { split; [by intros ?%elem_of_nil|by intros (?&?&?&?&?&?)]. }
  rewrite elem_of_app, list_elem_of_fmap, IH. split.
  - intros [(r & -> & Hr)|(j & r & t & -> & Hj & Hr)].
    + exists 0%nat, r, c. by rewrite Nat.add_0_r.
    + exists (S j), r, t. split; [f_equal; lia|done].
  - intros (j & r & t & -> & Hj & Hr). destruct j as [|j]; simpl in Hj.
    + left. injection Hj as ->. exists r. by rewrite Nat.add_0_r.
    + right. exists j, r, t. split; [f_equal; lia|done].
Qed.

(** [foreach] visits exactly the rows of the store. *)
Lemma elem_of_tree_paths t r : r ∈ tree_paths t ↔ is_Some (sub t r).
Proof.
  revert t. induction r as [|i r IH]; intros [d cs]; rewrite tree_paths_unfold.
  { split; [by eexists|intros _; apply list_elem_of_here]. }
  rewrite elem_of_cons, elem_of_forest_paths, sub_cons. simpl children. split.
  - intros [?|(j & r' & t & [= -> ->] & Hj & Hr)]; [done|].
    rewrite Hj. simpl. by apply IH.
  - intros Hs. right. destruct (cs !! i) as [c|] eqn:Hc; [|by destruct Hs].
    exists i, r, c. split; [done|]. split; [done|]. by apply IH.
Qed.

Lemma elem_of_store_paths st p :
  p ∈ forest_paths 0 st ↔ is_Some (lookup_path st p).
Proof.
  rewrite elem_of_forest_paths. split.
  - intros (j & r & t & -> & Hj & Hr). change (0 + j)%nat with j.
    rewrite lookup_path_cons, Hj. simpl. by apply elem_of_tree_paths.
  - intros Hs. destruct p as [|i p]; [by destruct Hs|].
    rewrite lookup_path_cons in Hs. destruct (st !! i) as [t|] eqn:Ht; [|by destruct Hs].
    exists i, p, t. split; [done|]. split; [done|]. by apply elem_of_tree_paths.
Qed.

End foreach_order.

Section foreach_pre_order.
Import ItemStore.

Lemma tree_ind_Forall (P : tree → Prop) :
  (∀ d cs, Forall P cs → P (Node d cs)) → ∀ t, P t.
Proof.
  intros H. fix IH 1. intros [d cs]. apply H.
  induction cs as [|c cs IHcs]; constructor; [apply IH|exact IHcs].
Qed.

Lemma parents_first_forest i f :
  Forall (fun t => parents_first (tree_paths t)) f →
  parents_first (forest_paths i f).
Proof.
  unfold parents_first. intros Hf. revert i.
  induction Hf as [|c f Hc Hf IH]; intros i; simpl; [constructor|].
  apply StronglySorted_app_2; [| |apply IH].
  - intros x1 x2 (r1 & -> & _)%list_elem_of_fmap
      (j & r2 & t & -> & _)%elem_of_forest_paths Hpre.
    apply prefix_cons_inv_1 in Hpre. lia.
  - eapply StronglySorted_fmap; [|exact Hc].
    intros x y Hxy Hpre. apply Hxy. by apply prefix_cons_inv_2 in Hpre.
Qed.

Lemma parents_first_tree t : parents_first (tree_paths t).
Proof.
  induction t as [d cs IH] using tree_ind_Forall.
  rewrite tree_paths_unfold. apply StronglySorted_cons. split.
  - apply Forall_forall. intros y (j & r & t & -> & _)%elem_of_forest_paths Hpre.
    by apply prefix_nil_inv in Hpre.
  - by apply parents_first_forest.
Qed.

Lemma parents_first_store (st : store) : parents_first (forest_paths 0 st).
Proof. apply parents_first_forest, Forall_forall. intros t _. apply parents_first_tree. Qed.

Lemma parents_first_split (st : store) l1 z l2 z' :
  forest_paths 0 st = l1 ++ z :: l2 → z' ∈ l1 → ¬ z `prefix_of` z'.
Proof.
  intros Heq Hz'. pose proof (parents_first_store st) as Hs.
  rewrite Heq in Hs. unfold parents_first in Hs.
  eapply (StronglySorted_app_1_elem_of _ l1 (z :: l2) z' z Hs); [done|].
  apply list_elem_of_here.
Qed.

End foreach_pre_order.

(** ** The two passes of [_filter__refresh_results] *)

Section filter_passes.
Import ItemStore MainController.

(** *** First pass: [foreach(_filter__reset_row, b)] *)

Lemma reset_loop_label b ps st q :
  label_at (foreach_loop (_filter__reset_row b) ps st) q = label_at st q.
Proof.
  revert st. induction ps as [|p ps IH]; intros st; [done|].
  simpl. by rewrite IH, set_visible_label.
Qed.

Lemma reset_loop_other b ps st q :
  q ∉ ps → visible_at (foreach_loop (_filter__reset_row b) ps st) q = visible_at st q.
Proof.
  revert st. induction ps as [|p ps IH]; intros st Hq; [done|].
  apply not_elem_of_cons in Hq as [Hne Hq]. simpl.
  by rewrite IH, set_visible_other.
Qed.

Lemma reset_loop_hit b ps st q :
  q ∈ ps → is_Some (lookup_path st q) →
  visible_at (foreach_loop (_filter__reset_row b) ps st) q = b.
Proof.
  revert st. induction ps as [|p ps IH]; intros st Hq Hsome.
  { by apply elem_of_nil in Hq. }
  simpl. destruct (decide (q ∈ ps)) as [Hin|Hnin].
  - apply IH; [done|]. apply is_Some_alter_path; [apply sub_set_visible_label|done].
  - apply elem_of_cons in Hq as [->|]; [|done].
    rewrite reset_loop_other by done. by apply set_visible_same.
Qed.

Lemma foreach_reset_label b st q :
  label_at (foreach (_filter__reset_row b) st) q = label_at st q.
Proof. apply reset_loop_label. Qed.

Lemma foreach_reset_visible b st q :
  is_Some (lookup_path st q) →
  visible_at (foreach (_filter__reset_row b) st) q = b.
Proof. intros Hq. apply reset_loop_hit; [by apply elem_of_store_paths|done]. Qed.

Lemma foreach_reset_is_Some b st q :
  is_Some (lookup_path (foreach (_filter__reset_row b) st) q)
  ↔ is_Some (lookup_path st q).
Proof. by rewrite <-!label_at_is_Some, foreach_reset_label. Qed.

(** *** Second pass: [foreach(_filter__show_matches)] *)

Lemma matches_at_is_Some s st z :
  matches_at s st z = true → is_Some (lookup_path st z).
Proof.
  unfold matches_at. intros H. apply label_at_is_Some.
  destruct (label_at st z); [by eexists|done].
Qed.

Section show_matches_loop.
Variable s : string.
Variable st0 : store.

Lemma shown_is_Some done_ st q :
  shown s st0 done_ st → is_Some (lookup_path st q) ↔ is_Some (lookup_path st0 q).
Proof. intros [Hl _]. by rewrite <-!label_at_is_Some, Hl. Qed.

Lemma shown_step l1 z l2 st :
  forest_paths 0 st0 = l1 ++ z :: l2 →
  shown s st0 l1 st →
  shown s st0 (l1 ++ [z]) (_filter__show_matches (Some s) st z).2 ∧
  (_filter__show_matches (Some s) st z).1 = false.
Proof.
  intros Hpaths Hinv. pose proof Hinv as [Hlbl Hvis].
  assert (Hz : is_Some (lookup_path st0 z)).
  { apply elem_of_store_paths. rewrite Hpaths. apply elem_of_app. right. apply list_elem_of_here. }
  assert (Hznil : z ≠ []) by (intros ->; by destruct Hz).
  unfold _filter__show_matches. rewrite Hlbl.
  destruct (label_at st0 z) as [label|] eqn:Hlabel.
  2: { apply label_at_is_Some in Hz. rewrite Hlabel in Hz. by destruct Hz. }
  simpl. destruct (Str.contains (Str.lower s) (Str.lower label)) eqn:Hmatch; simpl.
  - (* the row matches: its path and its subtree are made visible *)
    split; [|done]. split.
    { intros q. by rewrite make_subtree_visible_label, make_path_visible_label. }
    assert (Hzm : matches_at s st0 z = true) by (unfold matches_at; by rewrite Hlabel).
    assert (Hzst : is_Some (lookup_path st z)) by (by eapply shown_is_Some).
    intros q Hq. split.
    + intros [H|[Hpre Hne]]%make_subtree_visible_back.
      * apply make_path_visible_back in H as [H|H].
        -- apply (Hvis q Hq) in H as (z' & Hz' & Hm & Hc).
           exists z'. split; [apply elem_of_app; by left|done].
        -- exists z. split; [apply elem_of_app; right; apply list_elem_of_here|].
           split; [done|by right].
      * exists z. split; [apply elem_of_app; right; apply list_elem_of_here|].
        split; [done|by left].
    + intros (z' & [Hz' | ->%list_elem_of_singleton]%elem_of_app & Hm & Hc).
      { apply make_subtree_visible_mono, make_path_visible_mono.
        apply Hvis; [done|]. by exists z'. }
      destruct (decide (q `prefix_of` z)) as [Hqz|Hqz].
      { apply make_subtree_visible_mono, make_path_visible_hit; [done| |done].
        intros ->. by destruct Hq. }
      destruct Hc as [Hzq|]; [|done].
      assert (Hne : z ≠ q) by (intros ->; by apply Hqz).
      destruct (make_subtree_visible_fill (_filter__make_path_visible st z) z q)
        as [H|(x & Hzx & Hzx' & Hxq & Hx)]; [done|done|done| |done|].
      { apply label_at_is_Some. rewrite make_path_visible_label, Hlbl.
        by apply label_at_is_Some. }
      (* the walk down from [z] met a row [x] that was visible before *)
      apply make_subtree_visible_mono.
      apply make_path_visible_back in Hx as [Hx|Hx].
      2: { destruct Hzx'. by apply (anti_symm prefix). }
      assert (Hxsome : is_Some (lookup_path st0 x)).
      { apply (shown_is_Some _ _ _ Hinv), visible_at_is_Some, Hx. }
      apply (Hvis x Hxsome) in Hx as (z' & Hz' & Hm' & [Hc'|Hc']).
      * apply make_path_visible_mono, Hvis; [done|].
        exists z'. split; [done|]. split; [done|]. left. by etrans.
      * exfalso. eapply parents_first_split; [exact Hpaths|exact Hz'|]. by etrans.
  - (* no match: the store is not touched *)
    split; [|done]. split; [done|].
    intros q Hq. rewrite Hvis by done. split.
    + intros (z' & Hz' & Hm & Hc). exists z'. split; [apply elem_of_app; by left|done].
    + intros (z' & [Hz' | ->%list_elem_of_singleton]%elem_of_app & Hm & Hc).
      * by exists z'.
      * unfold matches_at in Hm. rewrite Hlabel in Hm. congruence.
Qed.

Lemma shown_loop l2 l1 st :
  forest_paths 0 st0 = l1 ++ l2 →
  shown s st0 l1 st →
  shown s st0 (l1 ++ l2) (foreach_loop (_filter__show_matches (Some s)) l2 st).
Proof.
  revert l1 st. induction l2 as [|z l2 IH]; intros l1 st Hpaths Hinv.
  { by rewrite app_nil_r. }
  destruct (shown_step l1 z l2 st Hpaths Hinv) as [Hinv' Hstop].
  cbn [foreach_loop]. destruct (_filter__show_matches (Some s) st z) as [stop st'].
  simpl in *. subst stop.
  rewrite (cons_middle z l1 l2), app_assoc. apply IH; [|done].
  by rewrite <-app_assoc.
Qed.

End show_matches_loop.

(** After both passes a row is visible exactly when it lies on one line
    (above, at or below) with a row whose label matches. *)
Lemma refresh_store_matches s st q :
  s ≠ "" → is_Some (lookup_path st q) →
  visible_at (filter_refresh_store (Some s) st) q = true ↔
  ∃ z, matches_at s st z = true ∧ (z `prefix_of` q ∨ q `prefix_of` z).
Proof.
  intros Hs Hq. unfold filter_refresh_store.
  destruct (decide (Some s = Some "")) as [[=]|_]; [done|].
  set (st1 := foreach (_filter__reset_row false) st).
  assert (Hinit : shown s st1 [] st1).
  { split; [done|]. intros q' Hq'. unfold st1 at 1.
    rewrite foreach_reset_visible
      by exact (proj1 (foreach_reset_is_Some false st q') Hq').
    split; [done|]. by intros (z & ?%elem_of_nil & _). }
  pose proof (shown_loop s st1 (forest_paths 0 st1) [] st1 eq_refl Hinit) as [_ Hvis].
  simpl in Hvis. unfold foreach.
  rewrite Hvis by exact (proj2 (foreach_reset_is_Some false st q) Hq).
  assert (Hm : ∀ z, matches_at s st1 z = matches_at s st z).
  { intros z. unfold matches_at, st1. by rewrite foreach_reset_label. }
  split.
  - intros (z & _ & Hz & Hc). exists z. by rewrite <-Hm.
  - intros (z & Hz & Hc). exists z. rewrite Hm. split; [|done].
    apply elem_of_store_paths, (proj2 (foreach_reset_is_Some false st z)).
    by eapply matches_at_is_Some.
Qed.

Lemma show_matches_label search_text st p q :
  label_at (_filter__show_matches search_text st p).2 q = label_at st q.
Proof.
  unfold _filter__show_matches. destruct search_text as [s|]; [|done].
  destruct (label_at st p); [|done]. simpl.
  destruct (Str.contains _ _); [|done]. simpl.
  by rewrite make_subtree_visible_label, make_path_visible_label.
Qed.

Lemma show_loop_label search_text ps st q :
  label_at (foreach_loop (_filter__show_matches search_text) ps st) q = label_at st q.
Proof.
  revert st. induction ps as [|p ps IH]; intros st; [done|].
  cbn [foreach_loop]. pose proof (show_matches_label search_text st p q) as H.
  destruct (_filter__show_matches search_text st p) as [stop st']. simpl in H.
  destruct stop; [done|]. by rewrite IH.
Qed.

Lemma refresh_store_label search_text st q :
  label_at (filter_refresh_store search_text st) q = label_at st q.
Proof.
  unfold filter_refresh_store. destruct (decide _).
  - apply foreach_reset_label.
  - unfold foreach at 1. by rewrite show_loop_label, foreach_reset_label.
Qed.

Lemma refresh_store_is_Some search_text st q :
  is_Some (lookup_path (filter_refresh_store search_text st) q)
  ↔ is_Some (lookup_path st q).
Proof. by rewrite <-!label_at_is_Some, refresh_store_label. Qed.

(** With the empty search text every row is shown. *)
Lemma refresh_store_empty st q :
  is_Some (lookup_path st q) →
  visible_at (filter_refresh_store (Some "") st) q = true.
Proof.
  intros Hq. unfold filter_refresh_store.
  destruct (decide _); [|done]. by apply foreach_reset_visible.
Qed.

(** Without a search text ([None]) the second pass stops at the first row
    and every row stays hidden. *)
Lemma refresh_store_None st q :
  visible_at (filter_refresh_store None st) q = false.
Proof.
  unfold filter_refresh_store. destruct (decide _); [done|].
  unfold foreach at 1.
  set (st1 := foreach (_filter__reset_row false) st).
  assert (Hstop : ∀ ps, foreach_loop (_filter__show_matches None) ps st1 = st1)
    by (by intros [|??]).
  rewrite Hstop. unfold st1.
  destruct (visible_at _ q) eqn:Hv; [|done].
  pose proof (visible_at_is_Some _ _ Hv) as Hsome.
  rewrite foreach_reset_visible in Hv; [done|].
  exact (proj1 (foreach_reset_is_Some false st q) Hsome).
Qed.

End filter_passes.

(** ** The search filter on the controller *)

Section filter_claims.
Import ItemStore Eff MainController.

(** A run of [_filter__refresh_results] on a controller whose tree view and
    filter model exist (they are created by [__init__]) completes, and
    replaces the item store by [filter_refresh_store]. *)
Lemma filter_refresh_results_run (w : world t) :
  is_Some (_main_item_list (self w)) →
  is_Some (_main_item_filter (self w)) →
  _filter__refresh_results w =
  (Ok tt, World (current_thread w) (raises w) (trace w)
            (set_item_store
               (filter_refresh_store (_search_text (self w)) (_item_store (self w)))
               (self w))).
Proof.
  intros Hl Hf. unfold _filter__refresh_results, filter_refresh_store, bind, get_self.
  cbn. destruct (decide (_search_text (self w) = Some "")); [done|].
  rewrite (bool_decide_eq_true_2 _ Hl). cbn.
  rewrite (bool_decide_eq_true_2 _ Hf). done.
Qed.

Lemma ancestor_is_row st a p : ancestor a p → is_row st p → is_row st a.
Proof. intros (Ha & Hpre & _). by apply lookup_path_prefix_is_Some. Qed.

Lemma refresh_store_ancestors search_text st p a :
  visible_at (filter_refresh_store search_text st) p = true →
  ancestor a p →
  visible_at (filter_refresh_store search_text st) a = true.
Proof.
  intros Hp Hanc.
  pose proof (visible_at_is_Some _ _ Hp) as Hrow%refresh_store_is_Some.
  pose proof (ancestor_is_row st a p Hanc Hrow) as Harow.
  destruct Hanc as (Ha & Hpre & Hne).
  destruct search_text as [s|]; [|by rewrite refresh_store_None in Hp].
  destruct (decide (s = "")) as [->|Hs]; [by apply refresh_store_empty|].
  apply (refresh_store_matches s st a Hs Harow).
  apply (refresh_store_matches s st p Hs Hrow) in Hp as (z & Hz & [Hzp|Hpz]).
  - exists z. split; [done|]. by eapply prefix_weak_total.
  - exists z. split; [done|]. right. by etrans.
Qed.

(** C2.  After a run of [_filter__refresh_results], whatever the search
    text and the item tree, every row whose [COL_VISIBLE] flag is set has
    the flag set on all its ancestors. *)
Theorem filter_visible_rows_have_visible_ancestors (w : world t) :
  is_Some (_main_item_list (self w)) →
  is_Some (_main_item_filter (self w)) →
  ∃ w', _filter__refresh_results w = (Ok tt, w') ∧
        ∀ p a, visible_at (_item_store (self w')) p = true →
               ancestor a p →
               visible_at (_item_store (self w')) a = true.
Proof.
  intros Hl Hf. eexists. split; [by apply filter_refresh_results_run|].
  cbn. intros p a. apply refresh_store_ancestors.
Qed.


End filter_claims.

(** ** Recent files *)

Section recent_files.
Import Eff MainController.

Lemma filter_iff_elem_of {A} (P Q : A → Prop)
    `{!∀ x, Decision (P x), !∀ x, Decision (Q x)} (l : list A) :
  (∀ x, x ∈ l → P x ↔ Q x) → filter P l = filter Q l.
Proof.
  induction l as [|a l IH]; intros Hall; [done|].
  rewrite !filter_cons. rewrite IH by (intros x Hx; apply Hall; by right).
  destruct (decide (P a)) as [HP|HP], (decide (Q a)) as [HQ|HQ]; try done.
  - destruct HQ. apply Hall; [by left|done].
  - destruct HP. apply Hall; [by left|done].
Qed.

Lemma recent_files_loop_spec fn rfs acc :
  ∃ ext, recent_files_loop fn rfs acc = acc ++ ext ∧
         ext `sublist_of` rfs ∧
         (∀ x, x ∈ ext ↔ x ∈ rfs ∧ x ≠ fn ∧ x ∉ acc) ∧
         (NoDup acc → NoDup (acc ++ ext)) ∧
         (NoDup rfs → ext = filter (fun x => x ≠ fn ∧ x ∉ acc) rfs).
Proof.
  revert acc. induction rfs as [|rf rfs IH]; intros acc; simpl.
  { exists []. rewrite app_nil_r. split; [done|]. split; [done|].
    split; [|done]. intros x. split; [by intros ?%elem_of_nil|].
    by intros [?%elem_of_nil _]. }
  destruct (bool_decide (rf ≠ fn) && negb (bool_decide (rf ∈ acc))) eqn:Hc.
  - apply andb_prop in Hc as [Hne%bool_decide_eq_true Hnin%negb_true_iff].
    apply bool_decide_eq_false in Hnin.
    destruct (IH (acc ++ [rf])) as (ext & Heq & Hsub & Hin & Hnd & Hfil).
    exists (rf :: ext). rewrite Heq, <-app_assoc. split; [done|].
    split; [by apply sublist_skip|]. split; [|split].
    + intros x. rewrite !elem_of_cons, Hin, elem_of_app, list_elem_of_singleton.
      split.
      * intros [->|(? & ? & ?)]; [by auto|]. split; [by right|]. split; [done|]. tauto.
      * intros ([->|?] & ? & ?); [by left|].
        destruct (decide (x = rf)) as [->|]; [by left|]. right. tauto.
    + intros Hacc. rewrite (cons_middle rf acc ext), app_assoc. apply Hnd.
      apply NoDup_app. split; [done|]. split; [|apply NoDup_singleton].
      intros x Hx ->%list_elem_of_singleton. done.
    + intros [Hrf Hrfs]%NoDup_cons. rewrite filter_cons_True by done.
      f_equal. rewrite Hfil by done. apply filter_iff_elem_of.
      intros x Hx. rewrite elem_of_app, list_elem_of_singleton.
      split; [tauto|]. intros [? ?]. split; [done|]. intros [?| ->]; done.
  - assert (Hskip : ¬ (rf ≠ fn ∧ rf ∉ acc)).
    { intros [H1 H2]. rewrite (bool_decide_eq_true_2 _ H1) in Hc.
      by rewrite (bool_decide_eq_false_2 _ H2) in Hc. }
    destruct (IH acc) as (ext & Heq & Hsub & Hin & Hnd & Hfil).
    exists ext. split; [done|]. split; [by apply sublist_cons|]. split; [|split].
    + intros x. rewrite Hin, elem_of_cons. split; [tauto|].
      intros ([->|?] & ? & ?); [|done]. by destruct Hskip.
    + done.
    + intros [Hrf Hrfs]%NoDup_cons. rewrite filter_cons_False by done. by apply Hfil.
Qed.

End recent_files.

Section recent_files_claim.
Import Eff MainController.

(** C8.  After [_update_recent_files(fn)] the list starts with [fn], has no
    duplicates, holds exactly the earlier entries other than [fn] in the
    order they had (a list without duplicates is kept as it is, without
    [fn]), and the settings store holds the same list. *)
Theorem update_recent_files_spec (fn : string) (w : world t) :
  (_update_recent_files fn w).1 = Ok tt ∧
  ∃ rest,
    recent_files (self (_update_recent_files fn w).2) = fn :: rest ∧
    NoDup (fn :: rest) ∧
    (∀ x, x ∈ rest ↔ x ∈ recent_files (self w) ∧ x ≠ fn) ∧
    rest `sublist_of` recent_files (self w) ∧
    (NoDup (recent_files (self w)) →
     rest = filter (fun x => x ≠ fn) (recent_files (self w))) ∧
    stored_recent_files (settings (self (_update_recent_files fn w).2))
    = recent_files (self (_update_recent_files fn w).2).
Proof.
  split; [done|].
  destruct (recent_files_loop_spec fn (recent_files (self w)) [])
    as (ext & Heq & Hsub & Hin & Hnd & Hfil).
  exists ext. cbn. rewrite Heq. cbn.
  assert (Hin' : ∀ x, x ∈ ext ↔ x ∈ recent_files (self w) ∧ x ≠ fn).
  { intros x. rewrite Hin. split; [tauto|]. intros [? ?].
    split; [done|]. split; [done|]. apply not_elem_of_nil. }
  split; [done|]. split.
  { apply NoDup_cons. split; [|apply Hnd, NoDup_nil_2].
    intros [_ ?]%Hin'. done. }
  split; [done|]. split; [done|]. split; [|done].
  intros Hnodup. rewrite Hfil by done. apply filter_iff_elem_of.
  intros x _. split; [tauto|]. intros ?. split; [done|]. apply not_elem_of_nil.
Qed.

End recent_files_claim.

(** ** Saving *)

Section save_claim.
Import Eff MainController.

(** C7.  [_save] starts the project's save exactly when a project is open
    and it has modifications or [force] is set; otherwise it returns with
    the world as it found it. *)
Theorem save_iff_wanted (force : bool) (after_save_action : option nat)
    (w : world t) :
  ∃ evs,
    trace (_save force after_save_action w).2 = trace w ++ evs ∧
    (Called "rom.save" ∈ evs ↔ save_wanted force (self w) = true) ∧
    (save_wanted force (self w) = false →
     _save force after_save_action w = (Ok tt, w)).
Proof.
  unfold save_wanted, _save, bind, get_self. cbn.
  destruct (rom_project (self w)) as [rom|] eqn:Hrom.
  - destruct (has_modifications rom || force) eqn:Hc.
    + unfold call. cbn. destruct (raises w "rom.save").
      * exists [Called "rom.save"]. split; [done|]. split; [|done].
        split; [done|]. intros _. apply list_elem_of_here.
      * exists [Called "rom.save"; DialogRun "file_opening_dialog"]. cbn.
        rewrite <-app_assoc. split; [done|]. split; [|done].
        split; [done|]. intros _. apply list_elem_of_here.
    + exists []. rewrite app_nil_r. split; [done|]. split; [|done].
      split; [by intros ?%elem_of_nil|done].
  - exists []. rewrite app_nil_r. split; [done|]. split; [|done].
    split; [by intros ?%elem_of_nil|done].
Qed.

End save_claim.

(** ** The sprite preview: animation index and redraw timer *)

Section sprite_animation.
Import Eff MonsterSprite.

Lemma py_index_in_range {A} (l : list A) (i : Z) :
  (0 <= i < Z.of_nat (length l))%Z →
  ∃ x, l !! Z.to_nat i = Some x ∧ py_index l i = Some x.
Proof.
  intros [H0 Hlen]. unfold py_index.
  destruct (Z.leb_spec 0 i); [|lia].
  destruct (lookup_lt_is_Some_2 l (Z.to_nat i)) as [x Hx]; [lia|]. by exists x.
Qed.

(** C10.  With a frame list that is not empty and an animation index in
    range, [_get_sprite_anim] returns the picture of the frame at the index
    and leaves the index in range: it moves on by one when the frame
    counter has passed the frame's duration, and from the last frame it
    goes back to 0. *)
Theorem get_sprite_anim_keeps_index_in_range (w : world t) :
  _rendered_frame_info (self w) ≠ [] →
  anim_in_range (self w) →
  ∃ current w',
    _rendered_frame_info (self w) !! Z.to_nat (_anim_counter (self w))
      = Some current ∧
    _get_sprite_anim w = (Ok current.2, w') ∧
    _rendered_frame_info (self w') = _rendered_frame_info (self w) ∧
    anim_in_range (self w') ∧
    _anim_counter (self w') =
      (if (current.1 <? _frame_counter (self w) + 1)%Z
       then if (Z.of_nat (length (_rendered_frame_info (self w)))
                <=? _anim_counter (self w) + 1)%Z
            then 0 else _anim_counter (self w) + 1
       else _anim_counter (self w))%Z.
Proof.
  intros _ Hrange. unfold anim_in_range in *.
  destruct (py_index_in_range _ _ Hrange) as (current & Hnth & Hidx).
  exists current. unfold _get_sprite_anim, bind, get_self. cbn. rewrite Hidx. cbn.
  destruct (current.1 <? _frame_counter (self w) + 1)%Z; cbn.
  - destruct (Z.leb_spec (Z.of_nat (length (_rendered_frame_info (self w))))
                         (_anim_counter (self w) + 1)); cbn.
    + eexists. split; [done|]. split; [done|]. cbn. split; [done|]. split; [lia|done].
    + eexists. split; [done|]. split; [done|]. cbn. split; [done|]. split; [lia|done].
  - eexists. split; [done|]. split; [done|]. cbn. done.
Qed.

End sprite_animation.

Section sprite_timer.
Import Eff MonsterSprite.

Lemma tick_interval_value : tick_interval = 33%Z ∧ tick_interval = (1000 / 30)%Z.
Proof. by vm_compute. Qed.

Lemma start_sprite_drawing_spec (w : world t) area :
  _draw_area (self w) = Some area →
  ∃ w', start_sprite_drawing w = (Ok tt, w') ∧
        trace w' = trace w ++ [QueueDraw; TimeoutAdded tick_interval] ∧
        timeouts (self w') = timeouts (self w) ++ [next_timeout_id (self w)] ∧
        next_timeout_id (self w') = S (next_timeout_id (self w)) ∧
        _drawing_is_active (self w') = true.
Proof.
  intros Harea. unfold start_sprite_drawing, timeout_add, bind, get_self, emit.
  cbn. rewrite Harea. cbn. eexists. split; [done|]. cbn.
  by rewrite <-app_assoc.
Qed.

(** What [_tick] returns, and what it leaves alone. *)
Lemma tick_spec (w : world t) :
  ∃ b w', _tick w = (Ok b, w') ∧
          (b = true ↔ drawing (self w)) ∧
          timeouts (self w') = timeouts (self w) ∧
          next_timeout_id (self w') = next_timeout_id (self w) ∧
          _anim_counter (self w') = _anim_counter (self w) ∧
          _rendered_frame_info (self w') = _rendered_frame_info (self w).
Proof.
  unfold _tick, drawing, bind, get_self, emit. cbn.
  destruct (_draw_area (self w)) as [[id parent]|] eqn:Harea; cbn.
  - destruct parent as [p|]; cbn.
    + destruct (main_window_has_focus (self w)); cbn;
        (eexists _, _; split; [done|]; cbn; split; [|done]; split;
         [intros H; split; [done|]; eexists; split; [done|]; by eexists
         |by intros [? _]]).
    + eexists _, _. split; [done|]. cbn. split; [|done]. split; [done|].
      intros (_ & area & [= <-] & Hp). by destruct Hp.
  - eexists _, _. split; [done|]. split; [|done]. split; [done|].
    by intros (_ & area & [=] & _).
Qed.

Lemma tick_after_stop (w : world t) :
  (_tick (stop_sprite_drawing w).2).1 = Ok false.
Proof.
  destruct (tick_spec (stop_sprite_drawing w).2) as (b & w' & -> & Hb & _).
  cbn. destruct b; [|done]. destruct (proj1 Hb eq_refl) as [Hact _]. done.
Qed.

Lemma tick_after_detach (w : world t) :
  (_tick (exec Detach w).2).1 = Ok false.
Proof.
  destruct (tick_spec (exec Detach w).2) as (b & w' & -> & Hb & _).
  cbn. destruct b; [|done].
  destruct (proj1 Hb eq_refl) as (_ & area & Harea & Hp). cbn in Harea.
  destruct (_draw_area (self w)); [|done]. injection Harea as <-. by destruct Hp.
Qed.

Lemma timeout_fire_unfold (w : world t) id :
  timeout_fire id w =
  if bool_decide (id ∈ timeouts (self w)) then
    match _tick w with
    | (Ok true, w') => (Ok tt, w')
    | (Ok false, w') =>
        (Ok tt, World (current_thread w') (raises w') (trace w')
                  (set_timeouts
                     (List.filter (fun k => negb (k =? id)%nat) (timeouts (self w')))
                     (self w')))
    | (Raised e, w') => (Raised e, w')
    end
  else (Ok tt, w).
Proof.
  unfold timeout_fire, bind, get_self. cbn -[_tick].
  destruct (bool_decide _); [|done].
  by destruct (_tick w) as [[[|]|] ?].
Qed.

(** A source that fires while drawing is off is removed. *)
Lemma timeout_fire_stops (w : world t) id :
  (id < next_timeout_id (self w))%nat → ¬ drawing (self w) →
  stopped id (self (timeout_fire id w).2).
Proof.
  intros Hid Hoff. rewrite timeout_fire_unfold.
  destruct (bool_decide_reflect (id ∈ timeouts (self w))) as [Hin|Hnin]; [|done].
  destruct (tick_spec w) as (b & w' & -> & Hb & Hto & Hnext & _).
  destruct b; [by destruct Hoff; apply Hb|]. cbn. unfold stopped. cbn.
  rewrite Hnext. split; [done|].
  rewrite list_elem_of_In, filter_In. intros [_ H].
  by rewrite Nat.eqb_refl in H.
Qed.

Lemma timeout_fire_removed (w : world t) id :
  id ∉ timeouts (self w) → timeout_fire id w = (Ok tt, w).
Proof.
  intros Hnin. rewrite timeout_fire_unfold.
  by rewrite (bool_decide_eq_false_2 _ Hnin).
Qed.

Lemma get_sprite_anim_timeouts (w : world t) :
  timeouts (self (_get_sprite_anim w).2) = timeouts (self w) ∧
  next_timeout_id (self (_get_sprite_anim w).2) = next_timeout_id (self w).
Proof.
  unfold _get_sprite_anim, bind, get_self. cbn.
  destruct (py_index _ _); [|done]. cbn.
  destruct (_ <? _)%Z; [|done]. cbn. by destruct (_ <=? _)%Z.
Qed.

Lemma exec_stopped a (w : world t) id :
  stopped id (self w) → stopped id (self (exec a w).2).
Proof.
  intros [Hid Hnin]. unfold stopped. destruct a as [| |k| | |b]; unfold exec.
  - unfold start_sprite_drawing, timeout_add, bind, get_self, emit. cbn.
    destruct (_draw_area (self w)); cbn; [|done].
    split; [lia|]. rewrite elem_of_app, list_elem_of_singleton. intros [?| ->]; [done|lia].
  - done.
  - rewrite timeout_fire_unfold.
    destruct (bool_decide (k ∈ timeouts (self w))); [|done].
    destruct (tick_spec w) as (b & w' & -> & _ & Hto & Hnext & _).
    destruct b; cbn; rewrite ?Hto, Hnext; [done|]. split; [done|].
    rewrite list_elem_of_In, filter_In, <-list_elem_of_In. by intros [? _].
  - unfold on_draw_sprite_draw, bind, emit.
    pose proof (get_sprite_anim_timeouts w) as [Hto Hnext].
    destruct (_get_sprite_anim w) as [[r|e] w']; cbn in *; by rewrite Hto, Hnext.
  - done.
  - done.
Qed.

Lemma run_stopped acts (w : world t) id :
  stopped id (self w) → stopped id (self (run acts w)).
Proof.
  revert w. induction acts as [|a acts IH]; intros w Hs; [done|].
  cbn. by apply IH, exec_stopped.
Qed.

(** C6.  [start_sprite_drawing] installs [_tick] with the fixed interval of
    [floor(1000 / 30)] = 33 milliseconds.  [_tick] returns true exactly
    when drawing is active and the drawing area exists and has a parent;
    it returns false after [stop_sprite_drawing] and after the drawing
    area lost its parent.  A source that fires while [_tick] returns false
    is removed, and from then on, whatever happens to the controller, its
    firing does nothing: the world, and with it the trace of redraw
    requests, stays as it is. *)
Theorem redraw_timer_spec :
  (tick_interval = 33%Z ∧ tick_interval = (1000 / 30)%Z) ∧
  (∀ (w : world t) area,
     _draw_area (self w) = Some area →
     ∃ w', start_sprite_drawing w = (Ok tt, w') ∧
           trace w' = trace w ++ [QueueDraw; TimeoutAdded tick_interval] ∧
           timeouts (self w') = timeouts (self w) ++ [next_timeout_id (self w)]) ∧
  (∀ w : world t, ∃ b w', _tick w = (Ok b, w') ∧ (b = true ↔ drawing (self w))) ∧
  (∀ w : world t, (_tick (stop_sprite_drawing w).2).1 = Ok false) ∧
  (∀ w : world t, (_tick (exec Detach w).2).1 = Ok false) ∧
  (∀ (w : world t) id,
     (id < next_timeout_id (self w))%nat → ¬ drawing (self w) →
     stopped id (self (timeout_fire id w).2)) ∧
  (∀ (w : world t) id acts,
     stopped id (self w) →
     stopped id (self (run acts w)) ∧
     timeout_fire id (run acts w) = (Ok tt, run acts w)).
Proof.
  split; [apply tick_interval_value|].
  split.
  { intros w area Harea.
    destruct (start_sprite_drawing_spec w area Harea) as (w' & ? & ? & ? & _).
    by exists w'. }
  split.
  { intros w. destruct (tick_spec w) as (b & w' & ? & ? & _). by exists b, w'. }
  split; [apply tick_after_stop|].
  split; [apply tick_after_detach|].
  split; [apply timeout_fire_stops|].
  intros w id acts Hs. pose proof (run_stopped acts w id Hs) as Hs'.
  split; [done|]. apply timeout_fire_removed, Hs'.
Qed.

End sprite_timer.

Section sprite_index_invariant.
Import Eff MonsterSprite.

Lemma get_sprite_anim_anim_in_range (w : world t) :
  anim_in_range (self w) → anim_in_range (self (_get_sprite_anim w).2).
Proof.
  unfold anim_in_range, _get_sprite_anim, bind, get_self. cbn. intros Hrange.
  destruct (py_index _ _) as [current|]; cbn; [|done].
  destruct (current.1 <? _frame_counter (self w) + 1)%Z; cbn; [|done].
  destruct (Z.leb_spec (Z.of_nat (length (_rendered_frame_info (self w))))
                       (_anim_counter (self w) + 1)); cbn; lia.
Qed.

(** Whatever happens to the controller, the animation index stays in
    range. *)
Lemma exec_anim_in_range a (w : world t) :
  anim_in_range (self w) → anim_in_range (self (exec a w).2).
Proof.
  intros Hrange. destruct a as [| |k| | |b]; unfold exec.
  - unfold start_sprite_drawing, timeout_add, bind, get_self, emit. cbn.
    by destruct (_draw_area (self w)).
  - done.
  - rewrite timeout_fire_unfold. destruct (bool_decide _); [|done].
    destruct (tick_spec w) as (b & w' & -> & _ & _ & _ & Hanim & Hinfo).
    unfold anim_in_range in *. destruct b; cbn; by rewrite Hanim, Hinfo.
  - unfold on_draw_sprite_draw, bind, emit.
    pose proof (get_sprite_anim_anim_in_range w Hrange) as H.
    by destruct (_get_sprite_anim w) as [[r|e] w'].
  - unfold anim_in_range in *. cbn. by destruct (_draw_area (self w)).
  - done.
Qed.

Lemma run_anim_in_range acts (w : world t) :
  anim_in_range (self w) → anim_in_range (self (run acts w)).
Proof.
  revert w. induction acts as [|a acts IH]; intros w Hrange; [done|].
  cbn. by apply IH, exec_anim_in_range.
Qed.

End sprite_index_invariant.

(** ** Rebuilding the interrupt list *)

Section dungeon_build_list.
Import Eff DungeonInterrupt.

(** The loop body of [_build_list] computes [entry_of_row] and appends. *)
Lemma build_entry_spec d v (w : world t) :
  build_entry d v w =
  match entry_of_row v with
  | Ok e => (Ok tt, World (current_thread w) (raises w) (trace w)
                      (set_list_dungeons
                         (alter (fun l => l ++ [e]) d (list_dungeons (self w)))
                         (self w)))
  | Raised x => (Raised x, w)
  end.
Proof.
  unfold build_entry, entry_of_row, u8_checked, u16_checked,
    InterDEntryType_of_value, bind, ret, raise, modify_self.
  destruct ((0 <=? col0 v)%Z && (col0 v <=? 255)%Z); cbn; [|done].
  destruct (col1 v) as [|p|p]; cbn; try done;
    repeat (destruct p as [p|p|]; cbn; try done);
    (destruct ((0 <=? col2 v)%Z && (col2 v <=? 65535)%Z); cbn; [|done];
     destruct ((0 <=? col3 v)%Z && (col3 v <=? 255)%Z); cbn; [|done];
     destruct ((0 <=? col4 v)%Z && (col4 v <=? 255)%Z); cbn; done).
Qed.

Lemma alter_app_nil {A} d (l : list (list A)) : alter (fun x => x ++ []) d l = l.
Proof. apply list_alter_id. intros x. apply app_nil_r. Qed.

Lemma build_entries_spec d rows (w : world t) :
  for_each rows (build_entry d) w =
  (match (convert_rows rows).2 with None => Ok tt | Some x => Raised x end,
   World (current_thread w) (raises w) (trace w)
     (set_list_dungeons
        (alter (fun l => l ++ (convert_rows rows).1) d (list_dungeons (self w)))
        (self w))).
Proof.
  revert w. induction rows as [|v rows IH]; intros w; cbn [for_each convert_rows].
  { unfold ret. cbn. by rewrite alter_app_nil. }
  unfold bind. rewrite build_entry_spec.
  destruct (entry_of_row v) as [e|x]; cbn.
  - rewrite IH. cbn. destruct (convert_rows rows) as [es err]. cbn.
    rewrite list_alter_alter_eq. unfold set_list_dungeons. cbn.
    replace (alter ((fun l => l ++ es) ∘ (fun l => l ++ [e])) d (list_dungeons (self w)))
      with (alter (fun l => l ++ e :: es) d (list_dungeons (self w))); [done|].
    apply list_alter_ext; [|done]. intros l _. cbn. by rewrite <-app_assoc.
  - by rewrite alter_app_nil.
Qed.

(** [_build_list], in one step. *)
Lemma build_list_run (w : world t) :
  let d := _get_current_dungeon (self w) in
  let conv := convert_rows (interrupt_store (self w)) in
  _build_list w =
  if bool_decide (d < length (list_dungeons (self w)))%nat then
    let w1 := World (current_thread w) (raises w) (trace w)
                (set_list_dungeons (<[d := conv.1]> (list_dungeons (self w))) (self w)) in
    match conv.2 with
    | Some x => (Raised x, w1)
    | None => call "module.mark_dungeon_interrupts_as_modified" w1
    end
  else (Raised IndexError, w).
Proof.
  cbn zeta. unfold _build_list, list_setitem, bind, get_self. cbn -[call].
  destruct (bool_decide _) eqn:Hd; cbn -[call]; [|done].
  rewrite build_entries_spec. cbn -[call].
  assert (Heq : alter (fun l => l ++ (convert_rows (interrupt_store (self w))).1)
                  (_get_current_dungeon (self w))
                  (<[_get_current_dungeon (self w) := []]> (list_dungeons (self w)))
                = <[_get_current_dungeon (self w) :=
                      (convert_rows (interrupt_store (self w))).1]>
                    (list_dungeons (self w))).
  { apply list_eq. intros i.
    destruct (decide (i = _get_current_dungeon (self w))) as [->|Hne].
    - apply bool_decide_eq_true in Hd.
      rewrite list_lookup_alter_eq, !list_lookup_insert_eq by (rewrite ?length_insert; lia).
      done.
    - by rewrite list_lookup_alter_ne, !list_lookup_insert_ne. }
  rewrite Heq. by destruct (convert_rows _).2.
Qed.

End dungeon_build_list.

Section dungeon_claim.
Import Eff DungeonInterrupt.

Lemma convert_rows_all rows es :
  convert_rows rows = (es, None) →
  Forall2 (fun v e => entry_of_row v = Ok e) rows es.
Proof.
  revert es. induction rows as [|v rows IH]; intros es; cbn.
  { intros [= <-]. constructor. }
  destruct (entry_of_row v) as [e|x] eqn:He; [|done].
  destruct (convert_rows rows) as [es' err]. intros [= <- ->].
  constructor; [done|]. by apply IH.
Qed.

Lemma call_self {C} name (w : world C) : self (call name w).2 = self w.
Proof. unfold call. by destruct (raises w name). Qed.

Lemma call_trace {C} name (w : world C) : trace (call name w).2 = trace w ++ [Called name].
Proof. unfold call. by destruct (raises w name). Qed.

Lemma build_list_frame (w : world t) i :
  i ≠ _get_current_dungeon (self w) →
  list_dungeons (self (_build_list w).2) !! i = list_dungeons (self w) !! i.
Proof.
  intros Hne. rewrite build_list_run. cbn zeta.
  destruct (bool_decide _); [|done].
  destruct (convert_rows _).2; rewrite ?call_self; cbn;
    by rewrite list_lookup_insert_ne.
Qed.

Lemma build_list_keeps_store (w : world t) :
  interrupt_store (self (_build_list w).2) = interrupt_store (self w) ∧
  length (list_dungeons (self (_build_list w).2)) = length (list_dungeons (self w)).
Proof.
  rewrite build_list_run. cbn zeta. destruct (bool_decide _); [|done].
  destruct (convert_rows _).2; rewrite ?call_self; cbn; by rewrite length_insert.
Qed.

(** An edit of the store followed by [_build_list] touches the list of the
    selected dungeon only. *)
Lemma edit_then_build_list_frame (m : M t unit) :
  (∀ w, list_dungeons (self (m w).2) = list_dungeons (self w) ∧
        _get_current_dungeon (self (m w).2) = _get_current_dungeon (self w)) →
  ∀ w i, i ≠ _get_current_dungeon (self w) →
         list_dungeons (self (bind m (fun _ => _build_list) w).2) !! i
         = list_dungeons (self w) !! i.
Proof.
  intros Hm w i Hne. unfold bind. destruct (Hm w) as [Hl Hd].
  destruct (m w) as [[[]|x] w1]; cbn -[_build_list] in *; [|by rewrite Hl].
  rewrite build_list_frame by (by rewrite Hd). by rewrite Hl.
Qed.

Lemma store_edit_keeps path f (w : world t) :
  list_dungeons (self (store_edit path f w).2) = list_dungeons (self w) ∧
  _get_current_dungeon (self (store_edit path f w).2) = _get_current_dungeon (self w).
Proof. unfold store_edit, bind, get_self. cbn. by destruct (bool_decide _). Qed.

Lemma delete_rows_keeps xs (w : world t) :
  let m := for_each xs (fun x => modify_self (fun s =>
             set_interrupt_store (delete x (interrupt_store s)) s)) in
  list_dungeons (self (m w).2) = list_dungeons (self w) ∧
  _get_current_dungeon (self (m w).2) = _get_current_dungeon (self w).
Proof.
  cbn zeta. revert w. induction xs as [|x xs IH]; intros w; [done|].
  cbn [for_each]. unfold bind. cbn.
  match goal with |- context [for_each xs ?f ?w1] => destruct (IH w1) as [-> ->] end.
  done.
Qed.

Lemma handler_frame e (w : world t) i :
  i ≠ _get_current_dungeon (self w) →
  list_dungeons (self (handler e w).2) !! i = list_dungeons (self w) !! i.
Proof.
  intros Hne. destruct e as [|rows|p [n|]|p v x|p v x|p [n|]|p [n|]|p b];
    unfold handler, on_btn_add_clicked, on_btn_remove_clicked, on_text_floor_edited,
      on_combo_type_changed, on_combo_game_var_changed, on_text_param1_edited,
      on_text_param2_edited, on_continue_music_toggled;
    try done;
    try (apply edit_then_build_list_frame; [|done]; intros w0;
         first [apply store_edit_keeps | apply delete_rows_keeps]).
  unfold bind at 1, get_self. cbn -[_build_list].
  destruct (var_names (self w) !! 0%nat) as [name0|]; [|done].
  apply (edit_then_build_list_frame
           (modify_self (set_interrupt_store
              (interrupt_store (self w)
               ++ [Row 0 0 0 0 0 (explanation ALWAYS) name0 false])))); done.
Qed.

(** C9, as the code has it.  [_build_list] leaves the entry list of every
    dungeon other than the selected one as it is, whether it completes or
    raises, and the same holds for every edit handler.  When every row of
    the store passes the checked conversions, the list of the selected
    dungeon becomes the rows converted in order and the module is then
    marked as modified.  When a row does not pass, the exception of its
    conversion leaves [_build_list] and the module is not marked. *)
Theorem build_list_frame_and_rebuild (w : world t) :
  let d := _get_current_dungeon (self w) in
  let rows := interrupt_store (self w) in
  (∀ i, i ≠ d →
        list_dungeons (self (_build_list w).2) !! i = list_dungeons (self w) !! i) ∧
  (∀ e i, i ≠ d →
          list_dungeons (self (handler e w).2) !! i = list_dungeons (self w) !! i) ∧
  (∀ es, (d < length (list_dungeons (self w)))%nat →
         convert_rows rows = (es, None) →
         Forall2 (fun v e => entry_of_row v = Ok e) rows es ∧
         list_dungeons (self (_build_list w).2) !! d = Some es ∧
         trace (_build_list w).2 = trace w ++ [mark_modified]) ∧
  (∀ es x, (d < length (list_dungeons (self w)))%nat →
           convert_rows rows = (es, Some x) →
           (_build_list w).1 = Raised x ∧
           trace (_build_list w).2 = trace w).
Proof.
  cbn zeta. split; [intros i; apply build_list_frame|].
  split; [intros e i; apply handler_frame|].
  split.
  - intros es Hd Hconv. split; [by apply convert_rows_all|].
    rewrite build_list_run. cbn zeta.
    rewrite (bool_decide_eq_true_2 _ Hd), Hconv. cbn -[call].
    rewrite call_self, call_trace. cbn. split; [|done].
    by apply list_lookup_insert_eq.
  - intros es x Hd Hconv. rewrite build_list_run. cbn zeta.
    by rewrite (bool_decide_eq_true_2 _ Hd), Hconv.
Qed.

(** With a row that does not convert, the list of the selected dungeon is
    left holding the rows before it. *)
Lemma build_list_overflow_keeps_prefix (w : world t) es x :
  (_get_current_dungeon (self w) < length (list_dungeons (self w)))%nat →
  convert_rows (interrupt_store (self w)) = (es, Some x) →
  list_dungeons (self (_build_list w).2) !! _get_current_dungeon (self w) = Some es.
Proof.
  intros Hd Hconv. rewrite build_list_run. cbn zeta.
  rewrite (bool_decide_eq_true_2 _ Hd), Hconv. cbn.
  by apply list_lookup_insert_eq.
Qed.

(** The claim as worded fails on a store with floor 300 in its second row:
    [_build_list] raises [OverflowError], the selected dungeon keeps the
    first row only, and the module is not marked as modified. *)
Lemma build_list_overflow_counterexample :
  _build_list overflow_world
  = (Raised OverflowError,
     World 0%nat (raises overflow_world) []
       (set_list_dungeons [[Entry 1 ALWAYS 0 0 0 false];
                           [Entry 9 FLAG_SET 7 1 0 true]]
                          (self overflow_world))) ∧
  ¬ rebuilt_from_all_rows overflow_world.
Proof.
  split; [reflexivity|].
  intros [_ Hmark]. vm_compute in Hmark. by apply elem_of_nil in Hmark.
Qed.

Lemma build_list_frame_and_rebuild_witness :
  Forall2 (fun v e => entry_of_row v = Ok e)
          (interrupt_store (self in_range_world))
          [Entry 1 ALWAYS 0 0 0 false; Entry 30 ALWAYS 0 0 0 false;
           Entry 3 ALWAYS 0 0 0 false] ∧
  list_dungeons (self (_build_list in_range_world).2) !! 0%nat
  = Some [Entry 1 ALWAYS 0 0 0 false; Entry 30 ALWAYS 0 0 0 false;
          Entry 3 ALWAYS 0 0 0 false] ∧
  trace (_build_list in_range_world).2 = trace in_range_world ++ [mark_modified].
Proof.
  apply (proj1 (proj2 (proj2 (build_list_frame_and_rebuild in_range_world)))).
  - vm_compute. lia.
  - reflexivity.
Defined.

End dungeon_claim.

(** ** Loading views: the last request wins *)

Section view_loading.
Import ItemStore Eff MainController.

Lemma assert_main_thread_run line (w : world t) :
  on_main_thread w → assert_main_thread line w = (Ok tt, w).
Proof.
  intros Hw. unfold assert_main_thread. by rewrite (bool_decide_eq_true_2 _ Hw).
Qed.

Lemma retrieve_view_run in_view view (w : world t) :
  view_widget in_view = Some view → retrieve_view in_view w = (Ok view, w).
Proof. destruct in_view as [cls v|cls c [v|msg]]; by intros [= <-]. Qed.

(** The test of [on_view_loaded] is the comparison of the two triples. *)
Lemma mismatch_test self module in_view item_id :
  bool_decide (_current_view_module self ≠ Some module)
  || bool_decide (_current_view_controller_class self ≠ Some (view_class in_view))
  || bool_decide (_current_view_item_id self ≠ Some item_id) = false
  ↔ selection_matches self module in_view item_id.
Proof.
  unfold selection_matches. rewrite !orb_false_iff, !bool_decide_eq_false.
  split.
  - intros [[H1 H2] H3]. by repeat split; apply dec_stable.
  - intros (H1 & H2 & H3). repeat split; by intros ?.
Qed.

Lemma load_view_records (w : world t) treeiter scroll d :
  row_at (_item_store (self w)) treeiter = Some d →
  is_Some (_main_item_list (self w)) →
  ∃ w', load_view treeiter scroll w = (Ok tt, w') ∧
        _current_view_module (self w') = Some (col_module d) ∧
        _current_view_controller_class (self w') = Some (col_controller_class d) ∧
        _current_view_item_id (self w') = Some (col_item_id d) ∧
        visible_child (_editor_stack (self w')) = Some es_loading ∧
        last (trace w') = Some (TaskStarted (col_module d) (col_controller_class d)
                                            (col_item_id d)).
Proof.
  intros Hrow Hlist. unfold load_view, _lock_trees, _init_window_before_view_load,
    _set_title, bind, get_self. cbn. rewrite Hrow. cbn.
  rewrite (bool_decide_eq_true_2 _ Hlist). cbn.
  destruct (breadcrumbs_loop _ _ _ _ _) as [bc bc_array]. cbn.
  destruct (rom_project (self w)) as [pr|]; cbn.
  - destruct (has_modifications pr); cbn;
      (eexists; split; [done|]; cbn; repeat (split; [done|]); by rewrite last_snoc).
  - eexists. split; [done|]. cbn. repeat (split; [done|]). by rewrite last_snoc.
Qed.

Lemma on_view_loaded_stale (w : world t) module in_view item_id view :
  on_main_thread w → view_widget in_view = Some view →
  ¬ selection_matches (self w) module in_view item_id →
  on_view_loaded module in_view item_id w =
  (Ok tt, World (current_thread w) (raises w) (trace w ++ [WidgetDestroyed view])
            (self w)).
Proof.
  intros Hw Hview Hstale. unfold on_view_loaded, bind at 1.
  rewrite assert_main_thread_run by done. unfold bind, get_self, try_except. cbn.
  rewrite (retrieve_view_run _ view) by done. cbn.
  destruct (_ || _ || _) eqn:Htest; [done|].
  by apply mismatch_test in Htest.
Qed.

Lemma on_view_loaded_current (w : world t) module in_view item_id view :
  on_main_thread w → view_widget in_view = Some view →
  is_Some (_main_item_list (self w)) →
  selection_matches (self w) module in_view item_id →
  ∃ w',
    on_view_loaded module in_view item_id w = (Ok tt, w') ∧
    ("es__loaded_view", view) ∈ pages (_editor_stack (self w')) ∧
    visible_child (_editor_stack (self w')) = Some view ∧
    _current_view (self w') = Some in_view ∧
    _main_item_list (self w') = Some true ∧
    trace w' = trace w ++ replaced_view_events (self w)
               ++ [WidgetShown view; EventTriggered "EVT_VIEW_SWITCH"].
Proof.
  intros Hw Hview Hlist Hmatch. unfold on_view_loaded, bind at 1.
  rewrite assert_main_thread_run by done. unfold bind, get_self, try_except. cbn.
  rewrite (retrieve_view_run _ view) by done. cbn.
  rewrite (proj2 (mismatch_test _ _ _ _) Hmatch).
  unfold destroy_old_view, unload_if_controller, destroy, _unlock_trees, bind, get_self.
  unfold replaced_view_events.
  destruct (get_child_by_name (_editor_stack (self w)) "es__loaded_view") as [old|];
    destruct (_current_view (self w)) as [[cls0 w0|cls0 c0 g0]|]; cbn;
    rewrite (bool_decide_eq_true_2 _ Hlist); cbn;
    (eexists; split; [reflexivity|]; cbn;
     split; [apply elem_of_app; right; apply list_elem_of_here|];
     repeat (split; [done|]);
     by rewrite <-?app_assoc).
Qed.

End view_loading.

(** The recorded triple is written by [load_view] alone: delivering a
    result or an error leaves it as it is. *)
Section keeps_selection.
Import ItemStore Eff MainController.

Lemma keeps_ret {A} (a : A) : keeps_selection (ret a).
Proof. by intros w. Qed.

Lemma keeps_bind {A B} (m : M t A) (k : A → M t B) :
  keeps_selection m → (∀ a, keeps_selection (k a)) → keeps_selection (bind m k).
Proof.
  intros Hm Hk w. unfold bind. specialize (Hm w).
  destruct (m w) as [[a|e] w1]; cbn in *; [|done]. by rewrite Hk.
Qed.

Lemma keeps_try_except {A} (m : M t A) (h : exn → M t A) :
  keeps_selection m → (∀ e, keeps_selection (h e)) → keeps_selection (try_except m h).
Proof.
  intros Hm Hh w. unfold try_except. specialize (Hm w).
  destruct (m w) as [[a|e] w1]; cbn in *; [done|]. by rewrite Hh.
Qed.

Lemma keeps_get_self : keeps_selection get_self.
Proof. by intros w. Qed.

Lemma keeps_modify_self (f : t → t) :
  (∀ s, selection_of (f s) = selection_of s) → keeps_selection (modify_self f).
Proof. intros Hf w. cbn. apply Hf. Qed.

Lemma keeps_emit ev : keeps_selection (emit ev).
Proof. by intros w. Qed.

Lemma keeps_raise {A} e : keeps_selection (@raise t A e).
Proof. by intros w. Qed.

Lemma keeps_assert line cond : keeps_selection (assert line cond).
Proof. intros w. unfold assert. by destruct cond. Qed.

Lemma keeps_assert_main_thread line : keeps_selection (assert_main_thread line).
Proof. intros w. unfold assert_main_thread, assert. by destruct (bool_decide _). Qed.

End keeps_selection.

Ltac keeps_step :=
  first
    [ apply keeps_ret | apply keeps_get_self | apply keeps_emit | apply keeps_raise
    | apply keeps_assert | apply keeps_assert_main_thread
    | apply keeps_modify_self; intros ?; reflexivity
    | apply keeps_bind; [|intros ?]
    | apply keeps_try_except; [|intros ?]
    | match goal with
      | |- keeps_selection (match ?x with _ => _ end) => destruct x
      | |- keeps_selection (if ?b then _ else _) => destruct b
      end ].

Section selection_is_stable.
Import ItemStore Eff MainController.

Lemma on_view_loaded_error_keeps_selection ex :
  keeps_selection (on_view_loaded_error ex).
Proof. unfold on_view_loaded_error, _unlock_trees. repeat keeps_step. Qed.

Lemma on_view_loaded_keeps_selection module in_view item_id :
  keeps_selection (on_view_loaded module in_view item_id).
Proof.
  unfold on_view_loaded, retrieve_view, destroy_old_view, unload_if_controller,
    destroy, _unlock_trees.
  repeat first [apply on_view_loaded_error_keeps_selection | keeps_step].
Qed.

Lemma stack_remove_pages s w pg :
  pg ∈ pages (stack_remove s w) → pg ∈ pages s.
Proof.
  unfold stack_remove. cbn. rewrite !list_elem_of_In, filter_In. by intros [? _].
Qed.

Lemma assert_main_thread_fails line (w : world t) :
  ¬ on_main_thread w → assert_main_thread line w = (Raised (AssertionError line), w).
Proof.
  intros Hw. unfold assert_main_thread, assert. by rewrite (bool_decide_eq_false_2 _ Hw).
Qed.

(** When the view cannot be retrieved, the error path takes the old page
    out of the stack and adds none. *)
Lemma on_view_loaded_failure_pages (w : world t) module cls c msg item_id pg :
  on_main_thread w →
  pg ∈ pages (_editor_stack
                (self (on_view_loaded module (ViewController cls c (Raises msg))
                         item_id w).2)) →
  pg ∈ pages (_editor_stack (self w)).
Proof.
  intros Hw.
  destruct w as [th rs tr [mt rp se rf ld mil mif ist es stx cvm cvc cvi cv bc asa sid]].
  unfold on_main_thread in Hw. cbn in Hw. subst mt.
  destruct mil as [b|];
    unfold on_view_loaded, on_view_loaded_error, assert_main_thread, _unlock_trees,
      destroy_old_view, unload_if_controller, destroy, bind, try_except, get_self; cbn.
  - repeat (rewrite bool_decide_eq_true_2 by (first [done|by eexists]); cbn).
    destruct (get_child_by_name es "es__loaded_view") as [old|];
      destruct cv as [[cls0 w0|cls0 c0 g0]|]; cbn;
      first [exact (fun H => H) | apply stack_remove_pages].
  - repeat (rewrite bool_decide_eq_true_2 by done; cbn).
    exact (fun H => H).
Qed.

(** A stale result adds no page to the editor stack, also when its
    [get_view()] raises or an assertion fails on the way. *)
Lemma on_view_loaded_stale_adds_no_page (w : world t) module in_view item_id pg :
  ¬ selection_matches (self w) module in_view item_id →
  pg ∈ pages (_editor_stack (self (on_view_loaded module in_view item_id w).2)) →
  pg ∈ pages (_editor_stack (self w)).
Proof.
  intros Hstale. destruct (decide (on_main_thread w)) as [Hw|Hw].
  - destruct (view_widget in_view) as [view|] eqn:Hview.
    + rewrite (on_view_loaded_stale w module in_view item_id view) by done.
      exact (fun H => H).
    + destruct in_view as [cls v|cls c [v|msg]]; try discriminate Hview.
      by apply on_view_loaded_failure_pages.
  - unfold on_view_loaded, bind at 1.
    rewrite assert_main_thread_fails by done. exact (fun H => H).
Qed.




End selection_is_stable.

(** ** Thread assertions under the single-threaded event loop *)

Section thread_safety.
Import ItemStore Eff MainController.

Lemma not_failed_Ok {A} (a : A) : ¬ thread_assertion_failed (Ok a).
Proof. by intros (line & _ & [=]). Qed.

Lemma not_failed_Exception {A} msg : ¬ @thread_assertion_failed A (Raised (Exception msg)).
Proof. by intros (line & _ & [=]). Qed.

Lemma thread_safe_ret {A} (a : A) : thread_safe (ret a).
Proof. intros w Hw. split; [done|apply not_failed_Ok]. Qed.

Lemma thread_safe_bind {A B} (m : M t A) (k : A → M t B) :
  thread_safe m → (∀ a, thread_safe (k a)) → thread_safe (bind m k).
Proof.
  intros Hm Hk w Hw. unfold bind. destruct (Hm w Hw) as [Hw' Hr].
  destruct (m w) as [[a|e] w']; cbn in *; [by apply Hk|].
  split; [done|]. intros (line & Hl & [= ->]). apply Hr. by exists line.
Qed.

Lemma thread_safe_try_except {A} (m : M t A) (h : exn → M t A) :
  thread_safe m → (∀ e, thread_safe (h e)) → thread_safe (try_except m h).
Proof.
  intros Hm Hh w Hw. unfold try_except. destruct (Hm w Hw) as [Hw' Hr].
  destruct (m w) as [[a|e] w']; cbn in *; [|by apply Hh].
  split; [done|apply not_failed_Ok].
Qed.

Lemma thread_safe_get_self : thread_safe get_self.
Proof. intros w Hw. split; [done|apply not_failed_Ok]. Qed.

Lemma thread_safe_modify_self (f : t → t) :
  (∀ s, main_thread (f s) = main_thread s) → thread_safe (modify_self f).
Proof.
  intros Hf w Hw. split; [|apply not_failed_Ok].
  unfold on_main_thread in *. cbn. by rewrite Hf.
Qed.

Lemma thread_safe_emit ev : thread_safe (emit ev).
Proof. intros w Hw. split; [done|apply not_failed_Ok]. Qed.

Lemma thread_safe_call name : thread_safe (call name).
Proof.
  intros w Hw. unfold call. destruct (raises w name); cbn.
  - split; [done|apply not_failed_Exception].
  - split; [done|apply not_failed_Ok].
Qed.

Lemma thread_safe_raise {A} e :
  (∀ line, e = AssertionError line → line ∉ thread_assert_lines) →
  thread_safe (@raise t A e).
Proof.
  intros He w Hw. split; [done|]. intros (line & Hl & [= ->]). by eapply He.
Qed.

Lemma thread_safe_assert line cond :
  line ∉ thread_assert_lines → thread_safe (assert line cond).
Proof.
  intros Hl. unfold assert. destruct cond; [apply thread_safe_ret|].
  apply thread_safe_raise. by intros ? [= <-].
Qed.

(** The assertion itself: on the main thread it passes. *)
Lemma thread_safe_assert_main_thread line : thread_safe (assert_main_thread line).
Proof.
  intros w Hw. unfold assert_main_thread.
  rewrite (bool_decide_eq_true_2 _ Hw). split; [done|apply not_failed_Ok].
Qed.

Lemma thread_safe_for_each {A} (xs : list A) (body : A → M t unit) :
  (∀ x, thread_safe (body x)) → thread_safe (for_each xs body).
Proof.
  intros Hb. induction xs as [|x xs IH]; [apply thread_safe_ret|].
  apply thread_safe_bind; [apply Hb|]. intros _. apply IH.
Qed.

Lemma not_thread_line line :
  bool_decide (line ∈ thread_assert_lines) = false → line ∉ thread_assert_lines.
Proof. apply bool_decide_eq_false. Qed.

End thread_safety.

Create HintDb thread_safe.

#[local] Hint Resolve thread_safe_ret thread_safe_get_self thread_safe_emit
  thread_safe_call thread_safe_assert_main_thread : thread_safe.

Ltac thread_safe_step :=
  first
    [ solve [auto with thread_safe]
    | apply thread_safe_bind; [|intros ?]
    | apply thread_safe_try_except; [|intros ?]
    | apply thread_safe_modify_self; intros ?; reflexivity
    | apply thread_safe_assert; apply not_thread_line; reflexivity
    | apply thread_safe_raise; intros ? [=]; subst; apply not_thread_line; reflexivity
    | apply thread_safe_raise; intros ? [=]
    | apply thread_safe_for_each; intros ?
    | match goal with
      | |- thread_safe (match ?x with _ => _ end) => destruct x
      | |- thread_safe (if ?b then _ else _) => destruct b
      | |- thread_safe (let (_, _) := ?x in _) => destruct x
      end ].

Ltac thread_safe_tac := repeat thread_safe_step.

Section thread_safety_handlers.
Import ItemStore Eff MainController.

Lemma thread_safe_set_title rom_name is_modified :
  thread_safe (_set_title rom_name is_modified).
Proof. apply thread_safe_emit. Qed.
#[local] Hint Resolve thread_safe_set_title : thread_safe.

Lemma thread_safe_hide_loading_dialog : thread_safe hide_loading_dialog.
Proof. unfold hide_loading_dialog. thread_safe_tac. Qed.
#[local] Hint Resolve thread_safe_hide_loading_dialog : thread_safe.

Lemma thread_safe_unlock_trees : thread_safe _unlock_trees.
Proof. unfold _unlock_trees. thread_safe_tac. Qed.
#[local] Hint Resolve thread_safe_unlock_trees : thread_safe.

Lemma thread_safe_lock_trees : thread_safe _lock_trees.
Proof. unfold _lock_trees. thread_safe_tac. Qed.
#[local] Hint Resolve thread_safe_lock_trees : thread_safe.

Lemma thread_safe_on_file_opened_error exception :
  thread_safe (on_file_opened_error exception).
Proof.
  unfold on_file_opened_error, display_error. thread_safe_tac.
Qed.
#[local] Hint Resolve thread_safe_on_file_opened_error : thread_safe.

Lemma thread_safe_on_view_loaded_error ex : thread_safe (on_view_loaded_error ex).
Proof.
  unfold on_view_loaded_error. thread_safe_tac.
Qed.
#[local] Hint Resolve thread_safe_on_view_loaded_error : thread_safe.

Lemma thread_safe_load_view treeiter scroll : thread_safe (load_view treeiter scroll).
Proof.
  unfold load_view, _init_window_before_view_load, _set_title. thread_safe_tac.
Qed.
#[local] Hint Resolve thread_safe_load_view : thread_safe.

Lemma thread_safe_on_view_loaded module in_view item_id :
  thread_safe (on_view_loaded module in_view item_id).
Proof.
  unfold on_view_loaded, retrieve_view, destroy_old_view, unload_if_controller, destroy.
  thread_safe_tac.
Qed.

Lemma thread_safe_on_button_press double selected :
  thread_safe (on_main_item_list_button_press_event double selected).
Proof.
  unfold on_main_item_list_button_press_event. thread_safe_tac.
Qed.

Lemma thread_safe_load_project pr : thread_safe (load_project pr).
Proof. unfold load_project, load_tree_items. thread_safe_tac. Qed.

Lemma thread_safe_on_file_opened : thread_safe on_file_opened.
Proof.
  unfold on_file_opened, load_project, load_tree_items, _init_window_after_rom_load,
    _set_title, on_settings_show_assistant_clicked.
  thread_safe_tac.
Qed.

Lemma thread_safe_run_callback c : thread_safe (run_callback c).
Proof.
  destruct c; cbn [run_callback].
  - apply thread_safe_on_file_opened.
  - apply thread_safe_on_file_opened_error.
  - apply thread_safe_on_button_press.
  - apply thread_safe_on_view_loaded.
  - apply thread_safe_on_view_loaded_error.
Qed.

Lemma event_loop_thread_safe cs (w : world t) r :
  on_main_thread w → r ∈ event_loop cs w → ¬ thread_assertion_failed r.
Proof.
  revert w. induction cs as [|c cs IH]; intros w Hw Hr; cbn in Hr.
  { by apply elem_of_nil in Hr. }
  destruct (thread_safe_run_callback c w Hw) as [Hw' Hok].
  apply elem_of_cons in Hr as [->|Hr]; [done|]. by eapply IH.
Qed.


End thread_safety_handlers.

(** ** Errors at the boundary of the user interface *)

Section failing_calls.
Import Eff.
Context {C : Type}.

Lemma stops_ret {A} (a : A) : stops_at_failing_call (@ret C A a).
Proof.
  intros w. split; [done|]. exists []. by rewrite app_nil_r.
Qed.

Lemma stops_bind {A B} (m : M C A) (k : A → M C B) :
  stops_at_failing_call m → (∀ a, stops_at_failing_call (k a)) →
  stops_at_failing_call (bind m k).
Proof.
  intros Hm Hk w. unfold bind. destruct (Hm w) as (Hr & evs & Ht & Hlast).
  destruct (m w) as [[a|e] w1]; cbn in *.
  - destruct (Hk a w1) as (Hr' & evs' & Ht' & Hlast').
    split; [by rewrite Hr'|]. exists (evs ++ evs').
    split; [by rewrite Ht', Ht, app_assoc|].
    intros msg Hmsg. destruct (Hlast' msg Hmsg) as (pre & name & -> & Hname).
    exists (evs ++ pre), name. rewrite <-app_assoc. split; [done|]. by rewrite <-Hr.
  - split; [done|]. exists evs. split; [exact Ht|].
    intros msg [= ->]. by apply Hlast.
Qed.

Lemma stops_call name : stops_at_failing_call (@call C name).
Proof.
  intros w. unfold call. destruct (raises w name) as [msg|] eqn:Hname; cbn.
  - split; [done|]. exists [Called name]. split; [done|].
    intros msg' [= <-]. by exists [], name.
  - split; [done|]. exists [Called name]. by split.
Qed.

Lemma stops_emit ev : stops_at_failing_call (@emit C ev).
Proof. intros w. split; [done|]. exists [ev]. by split. Qed.

Lemma stops_get_self : stops_at_failing_call (@get_self C).
Proof. intros w. split; [done|]. exists []. by rewrite app_nil_r. Qed.

Lemma stops_modify_self f : stops_at_failing_call (@modify_self C f).
Proof. intros w. split; [done|]. exists []. cbn. by rewrite app_nil_r. Qed.

Lemma stops_assert line cond : stops_at_failing_call (@assert C line cond).
Proof.
  intros w. unfold assert. destruct cond; cbn.
  - split; [done|]. exists []. by rewrite app_nil_r.
  - split; [done|]. exists []. by rewrite app_nil_r.
Qed.

Lemma stops_for_each {A} (xs : list A) (body : A → M C unit) :
  (∀ x, stops_at_failing_call (body x)) → stops_at_failing_call (for_each xs body).
Proof.
  intros Hb. induction xs as [|x xs IH]; [apply stops_ret|].
  apply stops_bind; [apply Hb|]. intros _. apply IH.
Qed.

(** [try: body  except BaseException as e: display_error(..., title)]: when
    the body raises, the handler returns, with the error dialog as the one
    thing done after the point where the body stopped. *)
Lemma try_display_error (body : M C unit) title (w : world C) e :
  (body w).1 = Raised e →
  try_except body (fun e => display_error e title) w =
  (Ok tt, World (current_thread (body w).2) (raises (body w).2)
            (trace (body w).2 ++ [DisplayError title e]) (self (body w).2)).
Proof.
  unfold try_except. destruct (body w) as [[[]|e'] w1]; cbn; [done|]. by intros [= ->].
Qed.

End failing_calls.

Ltac stops_step :=
  first
    [ apply stops_ret | apply stops_call | apply stops_emit | apply stops_get_self
    | apply stops_modify_self | apply stops_assert
    | apply stops_bind; [|intros ?]
    | apply stops_for_each; intros ? ].

Section error_claim.
Import ItemStore Eff.

Lemma stops_export_spritesheet : stops_at_failing_call MonsterSprite.export_spritesheet.
Proof. unfold MonsterSprite.export_spritesheet. repeat stops_step. Qed.

Lemma stops_import_spritesheet : stops_at_failing_call MonsterSprite.import_spritesheet.
Proof. unfold MonsterSprite.import_spritesheet. repeat stops_step. Qed.

Lemma stops_load_project pr : stops_at_failing_call (MainController.load_project pr).
Proof.
  unfold MainController.load_project, MainController.load_tree_items.
  repeat stops_step.
Qed.

End error_claim.

Section error_claim_main.
Import ItemStore Eff MainController.

Lemma hide_loading_dialog_run (w : world t) :
  ∃ s, hide_loading_dialog w = (Ok tt, World (current_thread w) (raises w) (trace w) s) ∧
       _loading_dialog s = None ∧
       main_thread s = main_thread (self w) ∧
       _item_store s = _item_store (self w).
Proof.
  unfold hide_loading_dialog, bind, get_self. cbn.
  destruct (_loading_dialog (self w)) eqn:Hd; cbn; eexists; (split; [done|]); done.
Qed.

Lemma on_file_opened_error_run (w : world t) e :
  on_main_thread w →
  ∃ w', on_file_opened_error e w = (Ok tt, w') ∧
        trace w' = trace w ++ [DisplayError "Error opening the ROM" e] ∧
        _loading_dialog (self w') = None ∧
        _item_store (self w') = _item_store (self w).
Proof.
  intros Hw. unfold on_file_opened_error, bind at 1.
  rewrite assert_main_thread_run by done. unfold bind.
  destruct (hide_loading_dialog_run w) as (s & -> & Hd & _ & Hst).
  eexists. split; [done|]. done.
Qed.

Lemma on_file_saved_error_run (w : world t) ex :
  ∃ w', on_file_saved_error ex w = (Ok tt, w') ∧
        trace w' = trace w ++ [DisplayError "Error saving the ROM" ex] ∧
        _loading_dialog (self w') = None.
Proof.
  unfold on_file_saved_error, bind.
  destruct (hide_loading_dialog_run w) as (s & -> & Hd & _).
  eexists. split; [done|]. done.
Qed.

Lemma on_file_opened_failure (w : world t) pr e :
  on_main_thread w →
  rom_project (self w) = Some pr →
  raises w "sprite_provider.init_loader" = None →
  (load_project pr (opening_world pr w)).1 = Raised e →
  ∃ w', on_file_opened w = (Ok tt, w') ∧
        trace w' = trace (load_project pr (opening_world pr w)).2
                   ++ [DisplayError "Error opening the ROM" e] ∧
        _loading_dialog (self w') = None.
Proof.
  intros Hw Hpr Hinit Hfail.
  assert (Hw1 : on_main_thread (opening_world pr w)) by exact Hw.
  destruct (thread_safe_load_project pr _ Hw1) as [Hw2 _].
  unfold on_file_opened, bind at 1. rewrite assert_main_thread_run by done.
  unfold bind at 1, get_self. cbn -[load_project on_file_opened_error load_view].
  rewrite Hpr. unfold bind at 1, call. rewrite Hinit.
  unfold bind at 1. cbn -[load_project on_file_opened_error load_view].
  fold (opening_world pr w).
  unfold bind at 1, try_except, bind at 1.
  destruct (load_project pr (opening_world pr w)) as [[root|e'] w2]; [done|].
  cbn in Hfail, Hw2. injection Hfail as ->. unfold bind at 1.
  destruct (on_file_opened_error_run w2 e Hw2) as (w' & -> & Ht & Hd & _).
  exists w'. done.
Qed.

(** When [get_view()] of the delivered controller raises, the error page of
    the editor stack is shown; no dialog is put up. *)
Lemma on_view_loaded_failure (w : world t) module cls c msg item_id :
  on_main_thread w →
  is_Some (_main_item_list (self w)) →
  get_child_by_name (_editor_stack (self w)) "es__loaded_view" ≠ Some es_error →
  ∃ w', on_view_loaded module (ViewController cls c (Raises msg)) item_id w
        = (Ok tt, w') ∧
        visible_child (_editor_stack (self w')) = Some es_error ∧
        _main_item_list (self w') = Some true ∧
        trace w' = trace w ++ error_page_events (self w)
                   ++ replaced_view_events (self w) ++ [ControllerUnloaded c].
Proof.
  intros Hw Hlist Hold.
  destruct w as [th rs tr [mt rp se rf ld mil mif ist es stx cvm cvc cvi cv bc asa sid]].
  unfold on_main_thread in Hw. cbn in Hw, Hlist, Hold. subst mt.
  destruct Hlist as [b ->].
  unfold on_view_loaded, on_view_loaded_error, assert_main_thread, _unlock_trees,
    destroy_old_view, unload_if_controller, destroy, error_page_events,
    replaced_view_events, bind, try_except, get_self. cbn.
  repeat (rewrite bool_decide_eq_true_2 by (first [done|by eexists]); cbn).
  destruct (get_child_by_name es "es__loaded_view") as [old|];
    destruct cv as [[cls0 w0|cls0 c0 g0]|]; cbn;
    (eexists; split; [reflexivity|]; cbn;
     split; [first [done|by rewrite bool_decide_eq_false_2 by congruence]|];
     split; [done|]; by rewrite <-?app_assoc).
Qed.

End error_claim_main.

Section error_claim_sprite.
Import Eff MonsterSprite.

Lemma on_export_clicked_failure (w : world t) e :
  (export_spritesheet w).1 = Raised e →
  on_export_clicked ACCEPT w =
  (Ok tt, World (current_thread (export_spritesheet w).2)
            (raises (export_spritesheet w).2)
            (trace (export_spritesheet w).2
             ++ [DisplayError "Error exporting the spritesheet." e])
            (self (export_spritesheet w).2)).
Proof. apply try_display_error. Qed.

Lemma on_import_clicked_failure (w : world t) e :
  let w0 := (emit (MessageDialog "To import select the directory of the spritesheets. If it is still zipped, unzip it first.") w).2 in
  (import_spritesheet w0).1 = Raised e →
  on_import_clicked ACCEPT w =
  (Ok tt, World (current_thread (import_spritesheet w0).2)
            (raises (import_spritesheet w0).2)
            (trace (import_spritesheet w0).2
             ++ [DisplayError "Error importing the spritesheet." e])
            (self (import_spritesheet w0).2)).
Proof.
  cbn zeta. intros Hfail. unfold on_import_clicked, bind at 1.
  cbn -[import_spritesheet try_except]. by apply try_display_error.
Qed.

(** The handlers for a single sprite have no [try]: an exception of
    [import_a_sprite] leaves the handler, and no dialog is put up. *)
Lemma on_import_ground_clicked_escapes (w : world t) msg :
  raises w "module.import_a_sprite" = Some msg →
  on_import_ground_clicked w =
  (Raised (Exception msg),
   World (current_thread w) (raises w)
         (trace w ++ [Called "module.import_a_sprite"]) (self w)).
Proof.
  intros Hfail. unfold on_import_ground_clicked, bind at 1, call. by rewrite Hfail.
Qed.

End error_claim_sprite.

Section error_claim_statement.
Import ItemStore Eff.

(** C4, as the code has it.  An exception raised while a ROM is opened
    (inside the [try] of [on_file_opened]), one reported for a save
    ([on_file_saved_error]) and one raised while a spritesheet is exported
    or imported is caught and shown with [display_error]; the dialog is the
    one thing done after the point of failure, and when a call raised, that
    call is the last step that was started.  An exception of [get_view()]
    of a loaded view is caught as well, but it is shown on the error page
    of the editor stack and not in a dialog, after which the old view is
    destroyed and the controllers are unloaded. *)
Theorem errors_surface_at_the_boundary :
  (∀ (w : world MainController.t) pr e,
     on_main_thread w →
     MainController.rom_project (self w) = Some pr →
     raises w "sprite_provider.init_loader" = None →
     (MainController.load_project pr (opening_world pr w)).1 = Raised e →
     ∃ w', MainController.on_file_opened w = (Ok tt, w') ∧
           trace w' = trace (MainController.load_project pr (opening_world pr w)).2
                      ++ [DisplayError "Error opening the ROM" e] ∧
           MainController._loading_dialog (self w') = None) ∧
  (∀ pr, stops_at_failing_call (MainController.load_project pr)) ∧
  (∀ (w : world MainController.t) ex,
     ∃ w', MainController.on_file_saved_error ex w = (Ok tt, w') ∧
           trace w' = trace w ++ [DisplayError "Error saving the ROM" ex] ∧
           MainController._loading_dialog (self w') = None) ∧
  (∀ (w : world MonsterSprite.t) e,
     (MonsterSprite.export_spritesheet w).1 = Raised e →
     (MonsterSprite.on_export_clicked MonsterSprite.ACCEPT w).1 = Ok tt ∧
     trace (MonsterSprite.on_export_clicked MonsterSprite.ACCEPT w).2
     = trace (MonsterSprite.export_spritesheet w).2
       ++ [DisplayError "Error exporting the spritesheet." e]) ∧
  (∀ (w : world MonsterSprite.t) e,
     let w0 := (emit (MessageDialog "To import select the directory of the spritesheets. If it is still zipped, unzip it first.") w).2 in
     (MonsterSprite.import_spritesheet w0).1 = Raised e →
     (MonsterSprite.on_import_clicked MonsterSprite.ACCEPT w).1 = Ok tt ∧
     trace (MonsterSprite.on_import_clicked MonsterSprite.ACCEPT w).2
     = trace (MonsterSprite.import_spritesheet w0).2
       ++ [DisplayError "Error importing the spritesheet." e]) ∧
  (stops_at_failing_call MonsterSprite.export_spritesheet ∧
   stops_at_failing_call MonsterSprite.import_spritesheet) ∧
  (∀ (w : world MainController.t) module cls c msg item_id,
     on_main_thread w →
     is_Some (MainController._main_item_list (self w)) →
     MainController.get_child_by_name
       (MainController._editor_stack (self w)) "es__loaded_view"
     ≠ Some MainController.es_error →
     ∃ w', MainController.on_view_loaded module
             (MainController.ViewController cls c (MainController.Raises msg))
             item_id w = (Ok tt, w') ∧
           MainController.visible_child (MainController._editor_stack (self w'))
           = Some MainController.es_error ∧
           MainController._main_item_list (self w') = Some true ∧
           trace w' = trace w ++ error_page_events (self w)
                      ++ replaced_view_events (self w) ++ [ControllerUnloaded c]).
Proof.
  split; [exact on_file_opened_failure|].
  split; [exact stops_load_project|].
  split; [exact on_file_saved_error_run|].
  split.
  { intros w e Hfail. by rewrite (on_export_clicked_failure w e Hfail). }
  split.
  { intros w e w0 Hfail. by rewrite (on_import_clicked_failure w e Hfail). }
  split; [split; [exact stops_export_spritesheet|exact stops_import_spritesheet]|].
  exact on_view_loaded_failure.
Qed.

(** The claim as worded fails when [get_view()] of a loaded view raises:
    the run of [on_view_loaded] returns without an error dialog. *)
Lemma view_load_error_counterexample :
  ¬ shown_in_error_dialog
      (MainController.on_view_loaded 1%nat failing_view 25)
      (sample_world None).
Proof.
  intros (a & w' & evs & title & e & Hrun & Htrace & Hin).
  vm_compute in Hrun. injection Hrun as _ <-. cbn in Htrace. subst evs.
  repeat (apply elem_of_cons in Hin as [Hin|Hin]; [discriminate|]).
  by apply elem_of_nil in Hin.
Qed.

Lemma errors_surface_at_the_boundary_witness :
  (MonsterSprite.on_export_clicked MonsterSprite.ACCEPT merge_fails_world).1 = Ok tt ∧
  trace (MonsterSprite.on_export_clicked MonsterSprite.ACCEPT merge_fails_world).2
  = trace (MonsterSprite.export_spritesheet merge_fails_world).2
    ++ [DisplayError "Error exporting the spritesheet."
          (Exception "unsupported sprite")].
Proof.
  apply (proj1 (proj2 (proj2 (proj2 errors_surface_at_the_boundary)))).
  reflexivity.
Defined.

End error_claim_statement.

(** * Further properties *)

(** ** The search filter *)

Section filter_more.
Import ItemStore Eff Eff.Notations MainController.
Local Open Scope eff_scope.

Lemma forget_visible_unfold t :
  forget_visible t = Node (set_col_visible false (data t)) (forget_visible <$> children t).
Proof. by destruct t. Qed.

Lemma forget_set_visible b t : forget_visible (set_visible b t) = forget_visible t.
Proof. by destruct t as [[] cs]. Qed.

Lemma forget_fmap_alter (h : tree → tree) i (f : list tree) :
  (∀ t, forget_visible (h t) = forget_visible t) →
  forget_visible <$> alter h i f = forget_visible <$> f.
Proof.
  intros Hh. apply list_eq. intros k. rewrite !list_lookup_fmap.
  destruct (decide (k = i)) as [->|Hk].
  - rewrite list_lookup_alter_eq. destruct (f !! i); simpl; [by rewrite Hh|done].
  - by rewrite list_lookup_alter_ne.
Qed.

Lemma forget_alter_path g f p :
  (∀ t, forget_visible (g t) = forget_visible t) →
  forget_visible <$> alter_path g f p = forget_visible <$> f.
Proof.
  intros Hg. revert f. induction p as [|i p IH]; intros f; [done|].
  simpl. apply forget_fmap_alter. intros t.
  destruct p as [|j p]; [apply Hg|].
  change (Node (set_col_visible false (data t))
               (forget_visible <$> alter_path g (children t) (j :: p))
          = forget_visible t).
  rewrite IH. symmetry. apply forget_visible_unfold.
Qed.

Lemma forget_make_subtree_visible t :
  forget_visible (make_subtree_visible t) = forget_visible t.
Proof.
  induction t as [d cs IH] using tree_ind_Forall. simpl. f_equal.
  induction IH as [|c cs Hc _ IHcs]; [done|]. simpl. f_equal; [|done].
  destruct (col_visible (data c)); [done|].
  by rewrite forget_set_visible.
Qed.

Lemma forget_make_path_visible_loop fuel st iter :
  forget_visible <$> make_path_visible_loop fuel st iter = forget_visible <$> st.
Proof.
  revert st iter. induction fuel as [|fuel IH]; intros st [p|]; simpl; try done.
  rewrite IH. apply forget_alter_path, forget_set_visible.
Qed.

Lemma forget_foreach_loop func ps st :
  (∀ st p, forget_visible <$> (func st p).2 = forget_visible <$> st) →
  forget_visible <$> foreach_loop func ps st = forget_visible <$> st.
Proof.
  intros Hf. revert st. induction ps as [|p ps IH]; intros st; [done|].
  simpl. specialize (Hf st p). destruct (func st p) as [stop st']. simpl in Hf.
  destruct stop; [done|]. by rewrite IH.
Qed.

Lemma forget_show_matches search_text st p :
  forget_visible <$> (_filter__show_matches search_text st p).2 = forget_visible <$> st.
Proof.
  unfold _filter__show_matches. destruct search_text as [s|]; [|done].
  destruct (label_at st p); [|done].
  destruct (Str.contains _ _); [|done]. simpl.
  unfold _filter__make_subtree_visible, _filter__make_path_visible.
  rewrite forget_alter_path by apply forget_make_subtree_visible.
  apply forget_make_path_visible_loop.
Qed.

Lemma forget_refresh_store search_text st :
  forget_visible <$> filter_refresh_store search_text st = forget_visible <$> st.
Proof.
  unfold filter_refresh_store, foreach.
  destruct (decide _).
  - apply forget_foreach_loop. intros st' p. apply forget_alter_path, forget_set_visible.
  - rewrite forget_foreach_loop by apply forget_show_matches.
    apply forget_foreach_loop. intros st' p. apply forget_alter_path, forget_set_visible.
Qed.

Lemma lookup_path_forget st p :
  lookup_path (forget_visible <$> st) p = forget_visible <$> lookup_path st p.
Proof.
  revert st. induction p as [|i p IH]; intros st; [done|].
  simpl. rewrite list_lookup_fmap. destruct (st !! i) as [t|]; simpl; [|done].
  destruct p as [|j p]; [done|].
  rewrite (forget_visible_unfold t). simpl children. apply IH.
Qed.

Lemma same_but_visible_label st1 st2 q :
  same_but_visible st1 st2 → label_at st1 q = label_at st2 q.
Proof.
  intros Hs. unfold label_at, row_at.
  assert (forget_visible <$> lookup_path st1 q = forget_visible <$> lookup_path st2 q) as H.
  { by rewrite <-!lookup_path_forget, Hs. }
  destruct (lookup_path st1 q) as [[[] ?]|], (lookup_path st2 q) as [[[] ?]|];
    cbn in *; by simplify_eq.
Qed.

Lemma same_but_visible_is_Some st1 st2 q :
  same_but_visible st1 st2 → is_Some (lookup_path st1 q) ↔ is_Some (lookup_path st2 q).
Proof. intros Hs. by rewrite <-!label_at_is_Some, (same_but_visible_label st1 st2). Qed.

Lemma same_but_visible_matches s st1 st2 z :
  same_but_visible st1 st2 → matches_at s st1 z = matches_at s st2 z.
Proof. intros Hs. unfold matches_at. by rewrite (same_but_visible_label st1 st2). Qed.

Lemma refresh_store_visible_is_Some search_text st q :
  visible_at (filter_refresh_store search_text st) q = true → is_Some (lookup_path st q).
Proof. intros H. by apply (refresh_store_is_Some search_text), visible_at_is_Some. Qed.

Lemma refresh_store_same_flags search_text st1 st2 q :
  same_but_visible st1 st2 →
  visible_at (filter_refresh_store search_text st1) q
  = visible_at (filter_refresh_store search_text st2) q.
Proof.
  intros Hs.
  assert (∀ a b : bool, (a = true ↔ b = true) → a = b) as Hbool.
  { intros [] [] [??]; auto. symmetry; auto. }
  apply Hbool.
  destruct search_text as [s|]; [|by rewrite !refresh_store_None].
  destruct (decide (s = "")) as [->|Hne].
  - split; intros H%refresh_store_visible_is_Some; apply refresh_store_empty;
      by apply (same_but_visible_is_Some st1 st2).
  - split; intros H.
    + pose proof (refresh_store_visible_is_Some _ _ _ H) as Hq.
      apply refresh_store_matches in H as (z & Hz & Hl); [|done..].
      apply refresh_store_matches; [done|by apply (same_but_visible_is_Some st1 st2)|].
      exists z. by rewrite <-(same_but_visible_matches s st1 st2).
    + pose proof (refresh_store_visible_is_Some _ _ _ H) as Hq.
      apply refresh_store_matches in H as (z & Hz & Hl); [|done..].
      apply refresh_store_matches; [done|by apply (same_but_visible_is_Some st1 st2)|].
      exists z. by rewrite (same_but_visible_matches s st1 st2).
Qed.

Lemma filter_refresh_results_store (w : world t) :
  _item_store (self (_filter__refresh_results w).2) = _item_store (self w) ∨
  _item_store (self (_filter__refresh_results w).2)
  = filter_refresh_store (_search_text (self w)) (_item_store (self w)).
Proof.
  unfold _filter__refresh_results, filter_refresh_store, bind, get_self, assert.
  destruct (decide _); [by right|].
  destruct (bool_decide (is_Some (_main_item_list (self w)))); [|by left].
  cbn. destruct (bool_decide (is_Some (_main_item_filter (self w)))); [|by left].
  by right.
Qed.

(** X1.  The search filter writes the column COL_VISIBLE and nothing else:
    whatever the search text, and whether or not the assertions of
    [_filter__refresh_results] hold, the item store has the same rows in the
    same places with the same other columns afterwards. *)
Theorem filter_writes_only_col_visible (w : world t) :
  same_but_visible (_item_store (self (_filter__refresh_results w).2))
                   (_item_store (self w)).
Proof.
  unfold same_but_visible.
  destruct (filter_refresh_results_store w) as [-> | ->]; [done|].
  apply forget_refresh_store.
Qed.

(** X2.  The flags the filter leaves behind do not depend on the flags it
    finds: from two controllers with the same search text whose item
    stores agree on everything but COL_VISIBLE, every row gets the same
    flag. *)
Theorem filter_result_ignores_old_flags (w1 w2 : world t) :
  is_Some (_main_item_list (self w1)) → is_Some (_main_item_filter (self w1)) →
  is_Some (_main_item_list (self w2)) → is_Some (_main_item_filter (self w2)) →
  _search_text (self w1) = _search_text (self w2) →
  same_but_visible (_item_store (self w1)) (_item_store (self w2)) →
  ∀ p, visible_at (_item_store (self (_filter__refresh_results w1).2)) p
       = visible_at (_item_store (self (_filter__refresh_results w2).2)) p.
Proof.
  intros Hl1 Hf1 Hl2 Hf2 Hs Hst p.
  rewrite !filter_refresh_results_run by done. cbn. rewrite Hs.
  by apply refresh_store_same_flags.
Qed.

(** X3.  Filtering twice with the same search text gives the flags of
    filtering once. *)
Theorem filter_is_idempotent search_text st p :
  visible_at (filter_refresh_store search_text (filter_refresh_store search_text st)) p
  = visible_at (filter_refresh_store search_text st) p.
Proof. apply refresh_store_same_flags, forget_refresh_store. Qed.

Lemma lstrip_blank text : blank text → lstrip text = "".
Proof.
  unfold blank. induction text as [|c text IH]; [done|].
  simpl. intros [Hc Ht]%Forall_cons. rewrite Hc. by apply IH.
Qed.

Lemma strip_blank text : blank text → strip text = "".
Proof. intros H. unfold strip. by rewrite (lstrip_blank text). Qed.


Lemma lower_eq_empty s : Str.lower s = "" → s = "".
Proof. by destruct s. Qed.


End filter_more.

(** ** Recent files, opening, saving and closing *)

Section files_more.
Import Eff Eff.Notations MainController.
Local Open Scope eff_scope.

Lemma recent_files_loop_again fn rest :
  NoDup (fn :: rest) → recent_files_loop fn (fn :: rest) [] = rest.
Proof.
  intros Hnd.
  destruct (recent_files_loop_spec fn (fn :: rest) []) as (ext & -> & _ & _ & _ & Hfil).
  rewrite (Hfil Hnd). cbn [app]. rewrite filter_cons_False by (intros [? _]; done).
  apply NoDup_cons in Hnd as [Hfn _]. clear Hfil.
  induction rest as [|x rest IH]; [done|].
  apply not_elem_of_cons in Hfn as [Hx Hfn].
  rewrite filter_cons_True; [by rewrite (IH Hfn)|].
  split; [congruence|apply not_elem_of_nil].
Qed.

Lemma recent_files_loop_NoDup fn rfs : NoDup (fn :: recent_files_loop fn rfs []).
Proof.
  destruct (recent_files_loop_spec fn rfs []) as (ext & -> & _ & Hin & Hnd & _).
  apply NoDup_cons. split; [|apply Hnd, NoDup_nil_2].
  cbn [app]. intros (_ & ? & _)%Hin. done.
Qed.

(** X6.  [_update_recent_files] is idempotent: entering the same file name a
    second time changes neither the list nor the settings. *)
Theorem update_recent_files_idempotent (fn : string) (w : world t) :
  _update_recent_files fn (_update_recent_files fn w).2
  = (Ok tt, (_update_recent_files fn w).2).
Proof.
  unfold _update_recent_files, bind, get_self, modify_self. cbn -[recent_files_loop].
  rewrite (recent_files_loop_again fn) by apply recent_files_loop_NoDup.
  reflexivity.
Qed.

Lemma not_call_elem_of name evs :
  calls name evs = 0%nat → Called name ∉ evs.
Proof.
  unfold calls. induction evs as [|ev evs IH]; [intros _; apply not_elem_of_nil|].
  simpl. destruct (is_call name ev) eqn:Hc; [done|].
  intros H. apply not_elem_of_cons. split; [|by apply IH].
  intros <-. simpl in Hc. by rewrite String.eqb_refl in Hc.
Qed.

(** X7.  [_open_file] opens the ROM exactly when the debugger agrees and
    the project has no unsaved changes or the user answers "Don't Save".
    When it does not open, the recent files and the settings stay as they
    are; when it opens and the call returns, the file name is the first of
    the recent files and the loading dialog is run. *)
Theorem open_file_iff_may_open (filename : string) (check_save : bool)
    (response : Z) (reopen : nat) (w : world t) :
  let w' := (_open_file filename check_save response reopen w).2 in
  ∃ evs,
    trace w' = trace w ++ evs ∧
    (Called "RomProject.open" ∈ evs ↔ may_open check_save response (self w) = true) ∧
    (may_open check_save response (self w) = false →
     recent_files (self w') = recent_files (self w) ∧
     settings (self w') = settings (self w)) ∧
    (may_open check_save response (self w) = true →
     raises w "RomProject.open" = None →
     head (recent_files (self w')) = Some filename ∧
     stored_recent_files (settings (self w')) = recent_files (self w') ∧
     last evs = Some (DialogRun "file_opening_dialog")).
Proof.
  unfold _open_file, _check_open_file, may_open, _show_are_you_sure, _save,
    project_modified, bind, get_self, modify_self, emit, ret, call.
  destruct check_save; cbn.
  2:{ exists []. rewrite app_nil_r. split; [done|]. split; [|done].
      split; [by intros ?%elem_of_nil|done]. }
  destruct (rom_project (self w)) as [rom|] eqn:Hrom; cbn.
  - destruct (has_modifications rom) eqn:Hmod; cbn.
    + destruct (response =? 0)%Z eqn:H0; cbn.
      * destruct (raises w "RomProject.open") eqn:Hr; cbn.
        -- eexists. rewrite <-app_assoc. split; [done|]. split; [|done].
           split; [done|]. intros _. apply list_elem_of_further, list_elem_of_here.
        -- eexists. rewrite <-!app_assoc. split; [done|]. split; [|done].
           split; [done|]. intros _. apply list_elem_of_further, list_elem_of_here.
      * destruct (response =? 1)%Z eqn:H1; cbn.
        -- rewrite Hrom. cbn. rewrite Hmod. cbn.
           destruct (raises w "rom.save") eqn:Hr; cbn.
           ++ eexists. rewrite <-!app_assoc. split; [done|]. split; [|done].
              split; [|done]. intros H. exfalso. revert H.
              by apply not_call_elem_of.
           ++ eexists. rewrite <-!app_assoc. split; [done|]. split; [|done].
              split; [|done]. intros H. exfalso. revert H.
              by apply not_call_elem_of.
        -- eexists. split; [done|]. split; [|done].
           split; [|done]. intros H. exfalso. revert H.
           by apply not_call_elem_of.
    + destruct (raises w "RomProject.open") eqn:Hr; cbn.
      * eexists. split; [done|]. split; [|done].
        split; [done|]. intros _. apply list_elem_of_here.
      * eexists. rewrite <-!app_assoc. split; [done|]. split; [|done].
        split; [done|]. intros _. apply list_elem_of_here.
  - destruct (raises w "RomProject.open") eqn:Hr; cbn.
    * eexists. split; [done|]. split; [|done].
      split; [done|]. intros _. apply list_elem_of_here.
    * eexists. rewrite <-!app_assoc. split; [done|]. split; [|done].
      split; [done|]. intros _. apply list_elem_of_here.
Qed.

Local Ltac fin :=
  repeat split; intros; first [done | congruence | by exfalso; auto].

(** X8.  The window closes only when nothing is lost: the handler returns
    [False] exactly when the debugger closed and the project has no unsaved
    changes or the user answers "Don't Save".  With unsaved changes and the
    answer "Save" the window stays, and a save is started that is to
    destroy the window when it is done. *)
Theorem window_closes_iff_may_close (close : bool) (response : Z)
    (destroy_window : nat) (w : world t) :
  let r := on_main_window_delete_event close response destroy_window w in
  (r.1 = Ok false ↔ may_close close response (self w) = true) ∧
  (¬ (close = true ∧ project_modified (self w) = true ∧ response = 1%Z) →
   self r.2 = self w) ∧
  (close = true → project_modified (self w) = true → response = 1%Z →
   _after_save_action (self r.2) = Some destroy_window ∧
   Called "rom.save" ∈ trace r.2 ∧
   (raises w "rom.save" = None → r.1 = Ok true)).
Proof.
  unfold on_main_window_delete_event, may_close, _show_are_you_sure, _save,
    project_modified, bind, get_self, modify_self, emit, ret, call.
  destruct close; cbn; [|fin].
  destruct (rom_project (self w)) as [rom|] eqn:Hrom; cbn; [|fin].
  destruct (has_modifications rom) eqn:Hmod; cbn; [|fin].
  destruct (response =? 0)%Z eqn:H0; cbn.
  { apply Z.eqb_eq in H0 as ->. fin. }
  destruct (response =? 1)%Z eqn:H1; cbn.
  2:{ apply Z.eqb_neq in H1. fin. }
  apply Z.eqb_eq in H1 as ->.
  rewrite Hrom. cbn. rewrite Hmod. cbn.
  destruct (raises w "rom.save") eqn:Hr; cbn.
  - split; [done|]. split; [by intros []|]. intros _ _ _. split; [done|]. split; [|done].
    rewrite <-app_assoc. apply elem_of_app. right.
    apply list_elem_of_further, list_elem_of_here.
  - split; [done|]. split; [by intros []|]. intros _ _ _. split; [done|]. split; [|done].
    rewrite <-!app_assoc. apply elem_of_app. right.
    apply list_elem_of_further, list_elem_of_here.
Qed.

Lemma calls_app name tr1 tr2 : calls name (tr1 ++ tr2) = (calls name tr1 + calls name tr2)%nat.
Proof. unfold calls. by rewrite List.filter_app, length_app. Qed.


(** X10.  "Save As" saves even an unmodified project under the new name:
    with a project open, the dialog accepted and a file name chosen, the
    project gets the name with its extension, the save is started, and when
    no call raises the name becomes the first of the recent files.  The
    name is assigned before the save is started: when starting the save
    raises, the project keeps the new name and the recent files are not
    touched. *)
Theorem save_as_saves_under_new_name
    (add_extension_if_missing : string → string → string)
    (fn : string) (pr : project) (w : world t) :
  rom_project (self w) = Some pr →
  let fn' := add_extension_if_missing fn "nds" in
  let r := on_save_as_button_clicked add_extension_if_missing true (Some fn) w in
  (filename <$> rom_project (self r.2)) = Some fn' ∧
  Called "rom.save" ∈ trace r.2 ∧
  (nothing_raises w →
   r.1 = Ok tt ∧
   head (recent_files (self r.2)) = Some fn' ∧
   stored_recent_files (settings (self r.2)) = recent_files (self r.2)) ∧
  (is_Some (raises w "rom.save") →
   recent_files (self r.2) = recent_files (self w) ∧ r.1 ≠ Ok tt).
Proof.
  intros Hrom. unfold on_save_as_button_clicked, _save, _update_recent_files,
    bind, get_self, modify_self, emit, ret, call.
  rewrite Hrom. cbn. rewrite orb_true_r. cbn.
  destruct (raises w "rom.save") eqn:Hs; cbn.
  - split; [done|]. split; [apply elem_of_app; right; apply list_elem_of_here|].
    split; [|done]. intros Hr. by rewrite Hr in Hs.
  - destruct (raises w "rom_module.update_filename") eqn:Hu; cbn.
    + split; [done|].
      split; [rewrite <-!app_assoc; apply elem_of_app; right; apply list_elem_of_here|].
      split; [|by intros [? ?]]. intros Hr. by rewrite Hr in Hu.
    + split; [done|].
      split; [rewrite <-!app_assoc; apply elem_of_app; right; apply list_elem_of_here|].
      split; [done|by intros [? ?]].
Qed.

End files_more.

(** ** The window geometry *)

Section geometry_more.
Import MainController GeometrySpec.

Lemma filter_other_single (id : nat) :
  List.filter (fun k => negb (k =? id)%nat) [id] = [].
Proof. simpl. by rewrite Nat.eqb_refl. Qed.

Lemma exec_one_pending a g : one_pending g → one_pending (exec a g).
Proof.
  intros (Hs & Hlt & Hd). destruct a as [|id|position size maximized]; simpl.
  - unfold on_main_window_configure_event, one_pending.
    destruct (_resize_timeout_id g) as [id|] eqn:Hid; simpl in *.
    + rewrite Hs, filter_other_single, Hd. simpl.
      rewrite bool_decide_eq_true_2 by apply list_elem_of_here.
      split; [done|]. split; [|done].
      intros k ->%list_elem_of_singleton. lia.
    + rewrite Hs. simpl. split; [done|]. split; [|done].
      intros k ->%list_elem_of_singleton. lia.
  - unfold source_fire. destruct (bool_decide (id ∈ sources g)) eqn:Hin; [|done].
    apply bool_decide_eq_true in Hin. unfold one_pending. simpl.
    destruct (_resize_timeout_id g) as [id'|]; simpl in *.
    + rewrite Hs in Hin. apply list_elem_of_singleton in Hin as ->.
      rewrite Hs, filter_other_single. split; [done|]. split; [|done].
      by intros k ?%elem_of_nil.
    + rewrite Hs in Hin. by apply elem_of_nil in Hin.
  - done.
Qed.

Lemma run_one_pending acts g : one_pending g → one_pending (run acts g).
Proof.
  revert g. induction acts as [|a acts IH]; intros g Hg; [done|].
  simpl. by apply IH, exec_one_pending.
Qed.

(** X11.  Saving the window geometry is debounced with one timer: however
    configure events, firings of timeout sources and changes of the window
    follow each other after [__init__], at most one timeout source is
    pending, it is the one [_resize_timeout_id] names, and
    [GLib.source_remove] is never called for a source that has fired
    already. *)
Theorem configure_event_keeps_one_timer (acts : list action)
    (position size : Z * Z) (maximized : bool) :
  let g := run acts (init position size maximized) in
  sources g = option_list (_resize_timeout_id g) ∧
  removed_dead_source g = false.
Proof.
  destruct (run_one_pending acts (init position size maximized)) as (H1 & _ & H2).
  - split; [done|]. split; [|done]. by intros id ?%elem_of_nil.
  - done.
Qed.

Lemma run_snoc acts a g : run (acts ++ [a]) g = exec a (run acts g).
Proof. unfold run. by rewrite fold_left_app. Qed.

(** X12.  What the delayed handler stores is the geometry of the window at
    the time it runs, not at the time of the configure event: when the
    pending source fires after any history, the stored position and
    maximized state are those of the window then, the stored size as well
    unless the window is maximized, in which case the size stored before is
    kept; and no timer is pending afterwards. *)
Theorem fired_handler_stores_current_geometry (acts : list action)
    (position size : Z * Z) (maximized : bool) (id : nat) :
  let g := run acts (init position size maximized) in
  let g' := run (acts ++ [Fire id]) (init position size maximized) in
  _resize_timeout_id g = Some id →
  stored_position g' = Some (window_position g) ∧
  stored_maximized g' = Some (window_maximized g) ∧
  stored_size g' = (if window_maximized g then stored_size g
                    else Some (window_size g)) ∧
  sources g' = [] ∧ _resize_timeout_id g' = None.
Proof.
  intros g g' Hid. subst g'. rewrite run_snoc. fold g.
  destruct (run_one_pending acts (init position size maximized)) as (Hs & _ & _).
  { split; [done|]. split; [|done]. by intros k ?%elem_of_nil. }
  fold g in Hs. rewrite Hid in Hs. simpl in Hs.
  simpl. unfold source_fire. rewrite Hs.
  rewrite bool_decide_eq_true_2 by apply list_elem_of_here.
  simpl. rewrite Hs, filter_other_single.
  by destruct (window_maximized g).
Qed.

End geometry_more.

(** ** Breadcrumbs, reloading and opening *)

Section view_more.
Import ItemStore Eff Eff.Notations MainController.
Local Open Scope eff_scope.

Lemma str_app_assoc (a b c : string) : (a +:+ b) +:+ c = a +:+ (b +:+ c).
Proof.
  induction a as [|x a IH]; [done|].
  change (String x ((a +:+ b) +:+ c) = String x (a +:+ (b +:+ c))). by rewrite IH.
Qed.

Lemma str_app_nil_r (a : string) : a +:+ "" = a.
Proof.
  induction a as [|x a IH]; [done|].
  change (String x (a +:+ "") = String x a). by rewrite IH.
Qed.

Lemma line_to_snoc p i : line_to (p ++ [i]) = ((fun q => q) <$> line_to p) ++ [p ++ [i]].
Proof.
  unfold line_to. rewrite length_app. simpl.
  rewrite Nat.add_1_r, seq_S, fmap_app. simpl.
  rewrite firstn_all2 by (rewrite length_app; simpl; lia).
  f_equal. rewrite <-list_fmap_compose. apply list_fmap_ext.
  intros k n Hn. apply lookup_seq in Hn as [-> Hk]. simpl.
  by rewrite take_app_le by lia.
Qed.

Lemma arrows_app ts1 ts2 : arrows (ts1 ++ ts2) = arrows ts1 +:+ arrows ts2.
Proof.
  induction ts1 as [|t ts1 IH]; [done|].
  simpl. by rewrite IH, !str_app_assoc.
Qed.

Lemma breadcrumbs_loop_nil st parent bc arr :
  breadcrumbs_loop 0 st parent bc arr = (bc, arr).
Proof. done. Qed.

Lemma breadcrumbs_loop_line st p :
  (p = [] ∨ is_Some (lookup_path st p)) →
  ∃ titles,
    Forall2 (fun q title => title_at st q = Some title) (line_to p) titles ∧
    ∀ bc arr, breadcrumbs_loop (length p) st (Some p) bc arr
              = (arrows titles +:+ bc, arr ++ reverse titles).
Proof.
  induction p as [|i p IH] using rev_ind; intros Hp.
  { exists []. split; [constructor|]. intros bc arr. by rewrite app_nil_r. }
  destruct Hp as [Hp|Hp]; [by destruct p|].
  destruct IH as (titles & Hall & Hloop).
  { destruct p as [|j p]; [by left|right].
    apply (lookup_path_prefix_is_Some st (j :: p) ((j :: p) ++ [i])); [done| |done].
    by apply prefix_app_r. }
  destruct Hp as [[d cs] Hrow].
  exists (titles ++ [col_title d]). split.
  { rewrite line_to_snoc, list_fmap_id. apply Forall2_app; [done|].
    constructor; [|constructor]. unfold title_at, row_at. by rewrite Hrow. }
  intros bc arr. rewrite length_app. simpl. rewrite Nat.add_1_r.
  simpl. unfold row_at. rewrite Hrow. simpl. rewrite iter_parent_snoc.
  destruct p as [|j p].
  - destruct titles; [|by inversion Hall]. simpl.
    by rewrite !str_app_assoc.
  - rewrite Hloop, arrows_app, reverse_app. simpl.
    rewrite <-!app_assoc. simpl. by rewrite !str_app_assoc.
Qed.

Lemma drop_arrows titles :
  drop_chars 3 (arrows titles) = String.concat " > " titles.
Proof.
  destruct titles as [|t ts]; [done|].
  change (t +:+ arrows ts = String.concat " > " (t :: ts)).
  revert t. induction ts as [|t' ts IH]; intros t.
  - apply str_app_nil_r.
  - change (t +:+ " > " +:+ t' +:+ arrows ts
            = t +:+ " > " +:+ String.concat " > " (t' :: ts)).
    by rewrite IH.
Qed.


(** X14.  Reloading asks for the view on show: once [on_view_loaded] has
    accepted a result, [reload_view] locks the tree, shows the loading
    page and starts the load of the same module, class and item, and the
    recorded selection still names them, so that the reloaded view will be
    accepted as well. *)
Theorem reload_view_requests_shown_view (w : world t) module in_view item_id view :
  on_main_thread w → view_widget in_view = Some view →
  is_Some (_main_item_list (self w)) →
  selection_matches (self w) module in_view item_id →
  let w1 := (on_view_loaded module in_view item_id w).2 in
  ∃ w2, reload_view w1 = (Ok tt, w2) ∧
        last (trace w2) = Some (TaskStarted module (view_class in_view) item_id) ∧
        visible_child (_editor_stack (self w2)) = Some es_loading ∧
        _main_item_list (self w2) = Some false ∧
        selection_matches (self w2) module in_view item_id.
Proof.
  intros Hw Hview Hlist Hmatch w1.
  destruct (on_view_loaded_current w module in_view item_id view Hw Hview Hlist Hmatch)
    as (w' & Hrun & _ & _ & Hcur & Hlist' & _).
  pose proof (on_view_loaded_keeps_selection module in_view item_id w) as Hsel.
  subst w1. rewrite Hrun in *. cbn in Hsel.
  destruct Hmatch as (Hm & Hc & Hi).
  unfold selection_of in Hsel. rewrite Hm, Hc, Hi in Hsel.
  injection Hsel as Hm' Hc' Hi'.
  unfold reload_view, _lock_trees, assert_not_none, bind, get_self. cbn.
  rewrite Hlist'. cbn. rewrite Hcur, Hm', Hi'. cbn.
  eexists. split; [done|]. cbn. rewrite last_snoc.
  repeat split; done.
Qed.

Lemma load_modules_run ms (w : world t) :
  nothing_raises w →
  for_each ms (fun m => load_tree_items (module_name m) (tree_items m)) w
  = (Ok tt,
     World (current_thread w) (raises w)
       (trace w ++ ((fun m => Called (module_name m +:+ ".load_tree_items")) <$> ms))
       (set_item_store (_item_store (self w) ++ concat (tree_items <$> ms)) (self w))).
Proof.
  revert w. induction ms as [|m ms IH]; intros w Hr.
  { cbn. by rewrite !app_nil_r. }
  cbn [for_each]. unfold bind at 1. unfold load_tree_items, call, bind, modify_self.
  rewrite Hr. cbn -[for_each]. rewrite IH by (intros name; apply Hr).
  cbn. by rewrite <-!app_assoc.
Qed.

Lemma insert_by_sort_order_perm m l : insert_by_sort_order m l ≡ₚ m :: l.
Proof.
  induction l as [|x l IH]; [done|]. simpl.
  destruct (sort_order m <=? sort_order x)%Z; [done|].
  rewrite IH. apply Permutation_swap.
Qed.

Lemma insert_by_sort_order_sorted m l :
  StronglySorted (fun a b => (sort_order a <= sort_order b)%Z) l →
  StronglySorted (fun a b => (sort_order a <= sort_order b)%Z)
                 (insert_by_sort_order m l).
Proof.
  induction 1 as [|x l Hl IH Hx]; simpl.
  { repeat constructor. }
  destruct (sort_order m <=? sort_order x)%Z eqn:Hle.
  - apply Z.leb_le in Hle. constructor; [by constructor|].
    constructor; [done|]. eapply Forall_impl; [exact Hx|]. simpl. intros; lia.
  - apply Z.leb_gt in Hle. constructor; [done|].
    rewrite insert_by_sort_order_perm. constructor; [lia|done].
Qed.

Lemma insert_by_sort_order_filter k m l :
  filter (fun m => sort_order m = k) (insert_by_sort_order m l)
  = filter (fun m => sort_order m = k) (m :: l).
Proof.
  induction l as [|x l IH]; [done|]. simpl.
  destruct (sort_order m <=? sort_order x)%Z eqn:Hle; [done|].
  apply Z.leb_gt in Hle. rewrite filter_cons, IH, !filter_cons.
  destruct (decide (sort_order x = k)), (decide (sort_order m = k)); try done. lia.
Qed.

Lemma sorted_by_sort_order_load_order ms : load_order ms (sorted_by_sort_order ms).
Proof.
  unfold load_order, sorted_by_sort_order.
  induction ms as [|m ms (Hperm & Hsorted & Hstable)]; simpl.
  { split; [done|]. split; [constructor|done]. }
  split; [by rewrite insert_by_sort_order_perm, Hperm|].
  split; [by apply insert_by_sort_order_sorted|].
  intros k. by rewrite insert_by_sort_order_filter, !filter_cons, Hstable.
Qed.

(** X15.  Opening a ROM fills the tree and asks for the root view: on the
    main thread, with a project whose ROM module has a root row, the tree
    view built and no call raising, [on_file_opened] returns with the item
    store holding the rows of the ROM module followed by the rows of the
    modules in the order of their [sort_order] (equal ones in the order of
    the project), with the root row recorded as the selection and its load
    started, the tree locked, the loading page on show and the loading
    dialog gone. *)
Theorem on_file_opened_loads_tree_and_root (w : world t) pr root rest :
  on_main_thread w → nothing_raises w →
  rom_project (self w) = Some pr →
  rom_tree_items pr = root :: rest →
  is_Some (_main_item_list (self w)) →
  ∃ w' ms,
    on_file_opened w = (Ok tt, w') ∧
    load_order (modules pr) ms ∧
    _item_store (self w') = rom_tree_items pr ++ concat (tree_items <$> ms) ∧
    selection_of (self w')
    = (Some (col_module (data root)), Some (col_controller_class (data root)),
       Some (col_item_id (data root))) ∧
    TaskStarted (col_module (data root)) (col_controller_class (data root))
                (col_item_id (data root)) ∈ trace w' ∧
    _main_item_list (self w') = Some false ∧
    visible_child (_editor_stack (self w')) = Some es_loading ∧
    _loading_dialog (self w') = None.
Proof.
  intros Hw Hr Hpr Hroot Hlist.
  destruct (has_modifications pr) eqn:Hmod;
    destruct (_loading_dialog (self w)) eqn:Hld;
    destruct (assistant_shown (settings (self w))) eqn:Has.
  all: eexists _, (sorted_by_sort_order (modules pr)).
  all: split; [|split; [apply sorted_by_sort_order_load_order|]].
  all: try (unfold on_file_opened, bind at 1;
    rewrite assert_main_thread_run by done;
    unfold bind at 1, get_self at 1; cbn [fst snd]; rewrite Hpr;
    unfold _init_window_after_rom_load, _set_title, load_project, try_except,
      bind at 1 2 3 4 5 6 7 8 9, call at 1 2 3, load_tree_items at 1, modify_self,
      emit at 1;
    rewrite !Hr; cbn -[for_each load_view];
    unfold bind at 1 2 3 4 5 6, call, modify_self; rewrite !Hr;
    cbn -[for_each load_view];
    unfold bind at 1; rewrite load_modules_run by (intros name; apply Hr);
    cbn -[load_view]; rewrite !Hr; cbn -[load_view];
    rewrite (bool_decide_eq_true_2 _ Hlist); cbn -[load_view];
    unfold load_view, _lock_trees, _init_window_before_view_load, _set_title,
      hide_loading_dialog, on_settings_show_assistant_clicked, bind, get_self,
      modify_self, emit, ret;
    cbn; rewrite Hroot; cbn;
    rewrite (bool_decide_eq_true_2 _ Hlist); cbn; rewrite Hpr; cbn;
    rewrite Hmod; cbn; rewrite Hld; cbn; rewrite Has; cbn;
    reflexivity).
  all: cbn; rewrite ?Hroot; repeat split; try done.
  all: rewrite <-?app_assoc; cbn.
  all: repeat (first [ apply list_elem_of_here
                     | apply elem_of_app; right
                     | apply list_elem_of_further ]).
Qed.

(** ** The help button *)

Lemma isupper_lower_ascii c : isupper c = true → isupper (Str.lower_ascii c) = false.
Proof.
  destruct c as [[] [] [] [] [] [] [] []]; vm_compute; first [done | by intros _].
Qed.

Lemma isupper_dash : isupper "-" = false.
Proof. reflexivity. Qed.

Lemma slug_chars_no_upper s :
  Forall (fun c => isupper c = false) (list_ascii_of_string (slug_chars s)).
Proof.
  induction s as [|c s IH]; simpl; [constructor|].
  destruct (isupper c) eqn:Hc; simpl.
  - constructor; [done|]. constructor; [by apply isupper_lower_ascii|done].
  - by constructor.
Qed.

Lemma lstrip_dash_suffix s :
  Forall (fun c => isupper c = false) (list_ascii_of_string s) →
  Forall (fun c => isupper c = false) (list_ascii_of_string (lstrip_dash s)).
Proof.
  induction s as [|c s IH]; simpl; [done|].
  intros [Hc Hs]%Forall_cons. destruct (bool_decide (c = "-"%char)); [by apply IH|].
  by constructor.
Qed.

Lemma lstrip_dash_no_dash s r : lstrip_dash s ≠ String "-" r.
Proof.
  induction s as [|c s IH]; simpl; [done|].
  destruct (bool_decide (c = "-"%char)) eqn:Hc; [done|].
  apply bool_decide_eq_false in Hc. congruence.
Qed.

Lemma slug_chars_fixed s :
  Forall (fun c => isupper c = false) (list_ascii_of_string s) → slug_chars s = s.
Proof.
  induction s as [|c s IH]; simpl; [done|].
  intros [Hc Hs]%Forall_cons. rewrite Hc. by rewrite IH.
Qed.

Lemma lstrip_dash_fixed s : (∀ r, s ≠ String "-" r) → lstrip_dash s = s.
Proof.
  destruct s as [|c s]; [done|]. simpl. intros H.
  destruct (bool_decide (c = "-"%char)) eqn:Hc; [|done].
  apply bool_decide_eq_true in Hc as ->. by destruct (H s).
Qed.

(** X16.  A slug of the help link has no capital letter and does not start
    with a hyphen, and converting a slug again changes nothing. *)
Theorem slug_convert_gives_a_slug (s : string) :
  Forall (fun c => isupper c = false) (list_ascii_of_string (slug_convert s)) ∧
  (∀ r, slug_convert s ≠ String "-" r) ∧
  slug_convert (slug_convert s) = slug_convert s.
Proof.
  unfold slug_convert.
  assert (H1 : Forall (fun c => isupper c = false)
                      (list_ascii_of_string (lstrip_dash (slug_chars s)))).
  { apply lstrip_dash_suffix, slug_chars_no_upper. }
  split; [done|]. split; [apply lstrip_dash_no_dash|].
  rewrite (slug_chars_fixed _ H1). apply lstrip_dash_fixed. apply lstrip_dash_no_dash.
Qed.

End view_more.

(** ** The sprite preview *)

Section sprite_more.
Import Eff Eff.Notations MonsterSprite.
Local Open Scope eff_scope.

Lemma tick_showing (w : world t) frames i c :
  showing frames i c (self w) →
  ∃ b w', _tick w = (Ok b, w') ∧ showing frames i (c + 1) (self w') ∧
          raises w' = raises w.
Proof.
  intros (Hf & Ha & Hc & [id parent] & Harea & Hp).
  unfold _tick, bind, get_self, emit. cbn. rewrite Harea. cbn.
  destruct Hp as [p Hp]. simpl in Hp. subst parent. cbn.
  destruct (main_window_has_focus (self w)); cbn;
    (eexists _, _; split; [done|]; cbn; split; [|done];
     split; [done|]; split; [done|]; split; [by rewrite Hc|];
     eexists; split; [done|]; by eexists).
Qed.

Lemma ticks_showing n (w : world t) frames i c :
  showing frames i c (self w) →
  ∃ w', for_each (replicate n tt) (fun _ => _ <- _tick ;; ret tt) w = (Ok tt, w') ∧
        showing frames i (c + Z.of_nat n) (self w') ∧ raises w' = raises w.
Proof.
  revert w c. induction n as [|n IH]; intros w c Hs.
  { exists w. split; [done|]. by rewrite Z.add_0_r. }
  destruct (tick_showing w frames i c Hs) as (b & w1 & Hrun & Hs1 & Hr1).
  destruct (IH w1 (c + 1)%Z Hs1) as (w2 & Hrun2 & Hs2 & Hr2).
  exists w2. cbn [replicate for_each]. unfold bind at 1 2. rewrite Hrun. cbn.
  rewrite Hrun2. split; [done|]. split; [|congruence].
  by replace (c + Z.of_nat (S n))%Z with (c + 1 + Z.of_nat n)%Z by lia.
Qed.

Lemma get_sprite_anim_showing (w : world t) frames i c d r :
  showing frames i c (self w) → frames !! i = Some (d, r) →
  ∃ w', _get_sprite_anim w = (Ok r, w') ∧ raises w' = raises w ∧
        if (d <? c + 1)%Z
        then showing frames (next_index (length frames) i) 0 (self w')
        else showing frames i (c + 1) (self w').
Proof.
  intros (Hf & Ha & Hc & Hat) Hi.
  unfold _get_sprite_anim, bind, get_self. cbn.
  unfold py_index. rewrite Ha, Hf.
  destruct (Z.leb_spec 0 (Z.of_nat i)); [|lia].
  rewrite Nat2Z.id, Hi. cbn. rewrite Hc.
  destruct (d <? c + 1)%Z; cbn.
  - rewrite Ha, Hf. unfold next_index.
    destruct (Z.leb_spec (Z.of_nat (length frames)) (Z.of_nat i + 1)),
             (Nat.leb_spec (length frames) (i + 1)); try lia; cbn;
      (eexists; split; [done|]; split; [done|]; unfold showing; cbn;
       split; [done|]; split; [lia|]; split; [done|]; done).
  - eexists. split; [done|]. split; [done|]. unfold showing. cbn. by rewrite Ha.
Qed.

Lemma turn_showing ticks (w : world t) frames i c d r :
  showing frames i c (self w) → frames !! i = Some (d, r) →
  ∃ w', turn ticks w = (Ok r, w') ∧ raises w' = raises w ∧
        if (d <? c + Z.of_nat ticks + 1)%Z
        then showing frames (next_index (length frames) i) 0 (self w')
        else showing frames i (c + Z.of_nat ticks + 1) (self w').
Proof.
  intros Hs Hi.
  destruct (ticks_showing ticks w frames i c Hs) as (w1 & Hrun & Hs1 & Hr1).
  destruct (get_sprite_anim_showing w1 frames i _ d r Hs1 Hi) as (w2 & Hrun2 & Hr2 & Hs2).
  exists w2. unfold turn. unfold bind at 1. rewrite Hrun, Hrun2.
  split; [done|]. split; [congruence|done].
Qed.

Lemma turns_one_frame ticks frames i d r m : ∀ (w : world t) c,
  showing frames i c (self w) → frames !! i = Some (d, r) →
  (c + Z.of_nat m * (Z.of_nat ticks + 1) <= d
   < c + (Z.of_nat m + 1) * (Z.of_nat ticks + 1))%Z →
  ∃ w', turns (S m) ticks w = (Ok (replicate (S m) r), w') ∧
        raises w' = raises w ∧
        showing frames (next_index (length frames) i) 0 (self w').
Proof.
  induction m as [|m IH]; intros w c Hs Hi Hd.
  - destruct (turn_showing ticks w frames i c d r Hs Hi) as (w1 & Hrun & Hr1 & Hs1).
    destruct (Z.ltb_spec d (c + Z.of_nat ticks + 1)); [|lia].
    exists w1. cbn [turns]. unfold bind, ret. by rewrite Hrun.
  - destruct (turn_showing ticks w frames i c d r Hs Hi) as (w1 & Hrun & Hr1 & Hs1).
    destruct (Z.ltb_spec d (c + Z.of_nat ticks + 1)); [lia|].
    destruct (IH w1 _ Hs1 Hi) as (w2 & Hrun2 & Hr2 & Hs2); [lia|].
    exists w2. change (turns (S (S m)) ticks)
      with (r <- turn ticks ;; rs <- turns (S m) ticks ;; ret (r :: rs)).
    unfold bind at 1 2. rewrite Hrun, Hrun2.
    split; [done|]. split; [congruence|done].
Qed.

Lemma turns_of_bounds ticks d :
  (0 <= d)%Z →
  (0 + Z.of_nat (turns_of ticks d - 1) * (Z.of_nat ticks + 1) <= d
   < 0 + (Z.of_nat (turns_of ticks d - 1) + 1) * (Z.of_nat ticks + 1))%Z.
Proof.
  intros Hd. unfold turns_of. rewrite Nat.add_sub.
  assert (0 <= d / (Z.of_nat ticks + 1))%Z by (apply Z.div_pos; lia).
  rewrite Z2Nat.id by done.
  pose proof (Z.mul_div_le d (Z.of_nat ticks + 1)).
  pose proof (Z.mul_succ_div_gt d (Z.of_nat ticks + 1)). lia.
Qed.

Lemma turns_whole_frame ticks frames i d r (w : world t) :
  showing frames i 0 (self w) → frames !! i = Some (d, r) → (0 <= d)%Z →
  ∃ w', turns (turns_of ticks d) ticks w = (Ok (replicate (turns_of ticks d) r), w') ∧
        raises w' = raises w ∧
        showing frames (next_index (length frames) i) 0 (self w').
Proof.
  intros Hs Hi Hd.
  replace (turns_of ticks d) with (S (turns_of ticks d - 1))
    by (unfold turns_of; lia).
  apply (turns_one_frame ticks frames i d r _ w 0%Z Hs Hi).
  by apply turns_of_bounds.
Qed.

(** X17.  A frame stays on screen for its duration, counted by draws and
    ticks alike: [_tick] and [_get_sprite_anim] both advance the frame
    counter, so with [ticks] ticks of the timer before every draw a frame
    of duration [d] is drawn [d / (ticks + 1) + 1] times; then the preview
    moves on to the next frame, or back to the first one, with the frame
    counter at 0. *)
Theorem frame_is_drawn_for_its_duration (ticks : nat) (w : world t)
    frames i d r :
  showing frames i 0 (self w) → frames !! i = Some (d, r) → (0 <= d)%Z →
  ∃ w', turns (turns_of ticks d) ticks w
        = (Ok (replicate (turns_of ticks d) r), w') ∧
        showing frames (next_index (length frames) i) 0 (self w').
Proof.
  intros Hs Hi Hd.
  destruct (turns_whole_frame ticks frames i d r w Hs Hi Hd) as (w' & ? & _ & ?).
  by exists w'.
Qed.

Lemma turns_app n1 n2 ticks (w w1 : world t) rs1 :
  turns n1 ticks w = (Ok rs1, w1) →
  turns (n1 + n2) ticks w
  = match turns n2 ticks w1 with
    | (Ok rs2, w2) => (Ok (rs1 ++ rs2), w2)
    | (Raised e, w2) => (Raised e, w2)
    end.
Proof.
  revert w rs1. induction n1 as [|n1 IH]; intros w rs1.
  { intros [= <- <-]. simpl. by destruct (turns n2 ticks w) as [[]]. }
  cbn [turns Nat.add]. unfold bind, ret.
  destruct (turn ticks w) as [[r|e] w']; [|done].
  destruct (turns n1 ticks w') as [[rs|e] w''] eqn:Hrun; [|done].
  intros [= <- <-]. rewrite (IH _ _ Hrun).
  by destruct (turns n2 ticks w'') as [[]].
Qed.

Lemma turns_rest ticks pre suf (w : world t) :
  suf ≠ [] →
  Forall (fun f => 0 <= f.1)%Z suf →
  showing (pre ++ suf) (length pre) 0 (self w) →
  ∃ w', turns (turns_of_run ticks suf) ticks w = (Ok (one_run ticks suf), w') ∧
        showing (pre ++ suf) 0 0 (self w').
Proof.
  revert pre w. induction suf as [|[d r] suf IH]; intros pre w Hne Hall Hs; [done|].
  apply Forall_cons in Hall as [Hd Hall]. simpl in Hd.
  destruct (turns_whole_frame ticks (pre ++ (d, r) :: suf) (length pre) d r w Hs)
    as (w1 & Hrun & _ & Hs1); [by rewrite list_lookup_middle|done|].
  change (turns_of_run ticks ((d, r) :: suf))
    with (turns_of ticks d + turns_of_run ticks suf)%nat.
  change (one_run ticks ((d, r) :: suf))
    with (replicate (turns_of ticks d) r ++ one_run ticks suf).
  rewrite (turns_app _ _ _ _ _ _ Hrun).
  destruct suf as [|f suf].
  - change (turns_of_run ticks []) with 0%nat. change (one_run ticks []) with (@nil rendered).
    cbn [turns]. unfold ret. eexists. split; [done|].
    unfold next_index in Hs1. rewrite length_app in Hs1. simpl in Hs1.
    destruct (Nat.leb_spec (length pre + 1) (length pre + 1)); [done|lia].
  - unfold next_index in Hs1. rewrite length_app in Hs1. simpl in Hs1.
    destruct (Nat.leb_spec (length pre + S (S (length suf))) (length pre + 1)); [lia|].
    destruct (IH (pre ++ [(d, r)]) w1) as (w2 & Hrun2 & Hs2); [done|done| |].
    { rewrite <-app_assoc, length_app. simpl. exact Hs1. }
    rewrite Hrun2.
    eexists. split; [done|]. by rewrite <-app_assoc in Hs2.
Qed.

(** X18.  The animation loops: from its first frame with the frame counter
    at 0, a preview with frames of durations that are not negative draws
    every frame in turn, each for its number of turns, and ends where it
    began, at the first frame with the frame counter at 0. *)
Theorem animation_loops (ticks : nat) (w : world t) frames :
  frames ≠ [] →
  Forall (fun f => 0 <= f.1)%Z frames →
  showing frames 0 0 (self w) →
  ∃ w', turns (turns_of_run ticks frames) ticks w = (Ok (one_run ticks frames), w') ∧
        showing frames 0 0 (self w').
Proof. intros Hne Hall Hs. by apply (turns_rest ticks [] frames w). Qed.

Lemma render_frames_run frames : ∀ th rs tr (s : t),
  (∀ name : string, rs name = None) →
  ∃ evs, for_each frames (fun frame =>
           call "sprite.render_frame_group" ;;
           modify_self (fun s => set_rendered_frame_info
                          (_rendered_frame_info s ++ [frame]) s))
           (World th rs tr s)
         = (Ok tt, World th rs (tr ++ evs)
                     (set_rendered_frame_info (_rendered_frame_info s ++ frames) s)).
Proof.
  induction frames as [|f frames IH]; intros th rs tr s Hr.
  - exists []. cbn. by rewrite !app_nil_r.
  - cbn [for_each]. unfold bind at 1 2, call, modify_self. cbn -[for_each].
    rewrite Hr. cbn -[for_each].
    edestruct IH as (evs & Heq); [exact Hr|]. rewrite Heq.
    eexists. cbn. by rewrite <-!app_assoc.
Qed.

Lemma load_frames_run frames : ∀ th rs tr (s : t),
  (∀ name : string, rs name = None) →
  ∃ evs, _load_frames frames (World th rs tr s)
         = (Ok tt, World th rs (tr ++ evs)
                     (set_rendered_frame_info (_rendered_frame_info s ++ frames) s)).
Proof.
  intros th rs tr s Hr. unfold _load_frames, bind at 1, call. cbn -[for_each].
  rewrite Hr.
  edestruct render_frames_run as (evs & Heq); [exact Hr|]. rewrite Heq.
  eexists. by rewrite <-!app_assoc.
Qed.

Lemma get_view_run area gfxcrunch frames (w : world t) :
  nothing_raises w → (0 <= item_id (self w))%Z →
  ∃ evs, get_view area gfxcrunch frames w
         = (Ok MainBox,
            World (current_thread w) (raises w) (trace w ++ evs)
              (set_next_timeout_id (S (next_timeout_id (self w)))
                 (set_timeouts (timeouts (self w) ++ [next_timeout_id (self w)])
                    (set_drawing_is_active true
                       (set_rendered_frame_info
                          (_rendered_frame_info (self w) ++ frames)
                          (set_draw_area (Some area) (self w))))))).
Proof.
  intros Hr Hid. unfold get_view, bind at 1, get_self.
  destruct (Z.ltb_spec (item_id (self w)) 0); [lia|].
  unfold bind at 1 2 3 4 5, call, modify_self, emit, ret. rewrite !Hr.
  cbn -[_load_frames start_sprite_drawing].
  destruct gfxcrunch; cbn -[_load_frames start_sprite_drawing]; rewrite !Hr;
    cbn -[_load_frames start_sprite_drawing]; unfold bind at 1;
    (edestruct load_frames_run as (evs & Heq); [exact Hr|]; rewrite Heq);
    unfold bind, start_sprite_drawing, timeout_add, bind, get_self, modify_self, emit, ret;
    cbn; eexists; rewrite <-!app_assoc; reflexivity.
Qed.

(** X19.  [get_view] makes the preview ready to draw: for an item id that
    is not negative and with no call raising, it returns the main box with
    the drawing area in place, the decoded frames appended to the frames
    held before, drawing active and one more timer installed; a fresh
    controller then shows its first frame with the frame counter at 0, and
    its animation index is in range exactly when the animation has a
    frame. *)
Theorem get_view_makes_preview_ready area gfxcrunch frames (w : world t) :
  nothing_raises w → (0 <= item_id (self w))%Z →
  ∃ w', get_view area gfxcrunch frames w = (Ok MainBox, w') ∧
        _draw_area (self w') = Some area ∧
        _rendered_frame_info (self w') = _rendered_frame_info (self w) ++ frames ∧
        _drawing_is_active (self w') = true ∧
        timeouts (self w') = timeouts (self w) ++ [next_timeout_id (self w)] ∧
        _anim_counter (self w') = _anim_counter (self w) ∧
        _frame_counter (self w') = _frame_counter (self w) ∧
        (∀ focus, self w = init (item_id (self w)) focus →
                  (anim_in_range (self w') ↔ frames ≠ [])).
Proof.
  intros Hr Hid. destruct (get_view_run area gfxcrunch frames w Hr Hid) as (evs & ->).
  eexists. split; [done|]. cbn. repeat (split; [done|]).
  intros focus Hinit. unfold anim_in_range. cbn. rewrite Hinit. cbn.
  destruct frames; cbn; [split; [lia|done]|split; [done|lia]].
Qed.

(** X20.  An animation without frames cannot be drawn: after [get_view]
    on a fresh controller whose animation has no frame, the draw handler
    raises [IndexError], at every draw, and paints nothing. *)
Theorem empty_animation_draw_raises area gfxcrunch item focus (w : world t) :
  nothing_raises w → (0 <= item)%Z → self w = init item focus →
  let w1 := (get_view area gfxcrunch [] w).2 in
  on_draw_sprite_draw w1 = (Raised IndexError, w1).
Proof.
  intros Hr Hid Hinit.
  destruct (get_view_run area gfxcrunch [] w Hr) as (evs & ->).
  { by rewrite Hinit. }
  cbn. unfold on_draw_sprite_draw, _get_sprite_anim, bind, get_self. cbn.
  rewrite Hinit. reflexivity.
Qed.

End sprite_more.

(** ** The interrupt list *)

Section dungeon_more.
Import Eff Eff.Notations DungeonInterrupt.
Local Open Scope eff_scope.

Lemma entry_of_row_of names p :
  entry_ok names p → entry_of_row (row_of names p) = Ok p.
Proof.
  intros (Hf & Hg & _ & H1 & H2). unfold entry_of_row, row_of. cbn.
  destruct (Z.leb_spec 0 (floor p)), (Z.leb_spec (floor p) 255); try lia. cbn.
  destruct (Z.leb_spec 0 (game_var_id p)), (Z.leb_spec (game_var_id p) 65535); try lia.
  destruct (Z.leb_spec 0 (param1 p)), (Z.leb_spec (param1 p) 255); try lia.
  destruct (Z.leb_spec 0 (param2 p)), (Z.leb_spec (param2 p) 255); try lia.
  destruct p as [fl [] gv p1 p2 cm]; reflexivity.
Qed.

Lemma convert_rows_of names ps :
  Forall (entry_ok names) ps → convert_rows (row_of names <$> ps) = (ps, None).
Proof.
  induction 1 as [|p ps Hp _ IH]; [done|].
  rewrite fmap_cons. cbn [convert_rows]. rewrite (entry_of_row_of _ _ Hp). by rewrite IH.
Qed.

Lemma append_rows_run names ps : ∀ th rs tr (s : t),
  var_names s = names →
  Forall (entry_ok names) ps →
  for_each ps append_entry_row (World th rs tr s)
  = (Ok tt, World th rs tr
              (set_interrupt_store (interrupt_store s ++ (row_of names <$> ps)) s)).
Proof.
  induction ps as [|p ps IH]; intros th rs tr s Hn Hall.
  { cbn. by rewrite app_nil_r. }
  apply Forall_cons in Hall as [Hp Hall].
  cbn [for_each]. unfold bind at 1, append_entry_row, bind, get_self, list_getitem,
    modify_self. cbn -[for_each].
  destruct Hp as (_ & Hg & Hlt & _).
  unfold MonsterSprite.py_index. rewrite Hn.
  destruct (Z.leb_spec 0 (game_var_id p)); [|lia].
  destruct (lookup_lt_is_Some_2 names (Z.to_nat (game_var_id p)) Hlt) as [name Hname].
  rewrite Hname. cbn -[for_each]. rewrite IH by done.
  cbn. rewrite <-app_assoc. unfold row_of at 2. by rewrite Hname.
Qed.

Lemma on_cb_dungeon_changed_run (w : world t) ps :
  list_dungeons (self w) !! _get_current_dungeon (self w) = Some ps →
  Forall (entry_ok (var_names (self w))) ps →
  on_cb_dungeon_changed w
  = (Ok tt, World (current_thread w) (raises w) (trace w)
              (set_interrupt_store (row_of (var_names (self w)) <$> ps) (self w))).
Proof.
  intros Hd Hall. unfold on_cb_dungeon_changed, bind, modify_self, get_self.
  cbn -[for_each]. unfold _get_current_dungeon in *. cbn -[for_each]. rewrite Hd.
  by rewrite (append_rows_run (var_names (self w))).
Qed.

(** X21.  Showing a dungeon and building the list from what is shown gives
    the list back.  When the entries of the selected dungeon fit their
    types and name existing game variables, [on_cb_dungeon_changed] fills
    the store with one row for each entry, in order, and the rows stand for
    these entries; [_build_list] on that store leaves every list of
    [list_dungeons] as it was. *)
Theorem show_then_build_list_round_trip (w : world t) ps :
  list_dungeons (self w) !! _get_current_dungeon (self w) = Some ps →
  Forall (entry_ok (var_names (self w))) ps →
  let w1 := (on_cb_dungeon_changed w).2 in
  (on_cb_dungeon_changed w).1 = Ok tt ∧
  interrupt_store (self w1) = row_of (var_names (self w)) <$> ps ∧
  in_sync (self w1) ∧
  list_dungeons (self (_build_list w1).2) = list_dungeons (self w).
Proof.
  intros Hd Hall. rewrite (on_cb_dungeon_changed_run w ps Hd Hall). cbn -[_build_list].
  split; [done|]. split; [done|].
  pose proof (convert_rows_of _ _ Hall) as Hconv.
  split. { exists ps. by split. }
  rewrite build_list_run. cbn.
  change (_get_current_dungeon (set_interrupt_store _ (self w)))
    with (_get_current_dungeon (self w)).
  rewrite bool_decide_eq_true_2 by (by eapply lookup_lt_Some).
  rewrite Hconv. cbn. unfold call. cbn.
  destruct (raises w _); cbn; by rewrite list_insert_id.
Qed.

Lemma build_list_in_sync (w w' : world t) :
  _build_list w = (Ok tt, w') → in_sync (self w').
Proof.
  rewrite build_list_run. cbn.
  destruct (bool_decide _) eqn:Hd; [|done].
  apply bool_decide_eq_true in Hd.
  destruct (convert_rows (interrupt_store (self w))) as [es [x|]] eqn:Hconv; cbn; [done|].
  unfold call. cbn. destruct (raises w _); [done|].
  intros [= <-]. exists es. cbn. split; [done|].
  change (_get_current_dungeon (set_list_dungeons _ (self w)))
    with (_get_current_dungeon (self w)).
  by apply list_lookup_insert_eq.
Qed.

Lemma then_build_list_in_sync (m : M t unit) (w w' : world t) :
  (m ;; _build_list) w = (Ok tt, w') → in_sync (self w').
Proof.
  unfold bind. destruct (m w) as [[[]|e] w1]; [|done]. apply build_list_in_sync.
Qed.


Lemma omit_from_none k l rows :
  (∀ j, j ∈ l → (j < k)%nat) → omit_from k l rows = rows.
Proof.
  revert k. induction rows as [|r rows IH]; intros k Hl; [done|].
  simpl. rewrite bool_decide_eq_false_2.
  - f_equal. apply IH. intros j Hj. specialize (Hl j Hj). lia.
  - intros Hk. specialize (Hl k Hk). lia.
Qed.

Lemma omit_from_ext k l1 l2 rows :
  (∀ j, j ∈ l1 ↔ j ∈ l2) → omit_from k l1 rows = omit_from k l2 rows.
Proof.
  intros Hl. revert k. induction rows as [|r rows IH]; intros k; [done|].
  simpl. rewrite (bool_decide_ext (k ∈ l1) (k ∈ l2)) by apply Hl.
  by rewrite !IH.
Qed.

Lemma omit_from_delete k l x rows :
  (∀ j, j ∈ l → (j < k + x)%nat) →
  omit_from k l (delete x rows) = omit_from k (k + x :: l)%nat rows.
Proof.
  revert k x. induction rows as [|r rows IH]; intros k x Hl; [by destruct x|].
  destruct x as [|x]; simpl.
  - rewrite Nat.add_0_r in *.
    rewrite bool_decide_eq_true_2 by apply list_elem_of_here.
    rewrite omit_from_none by (intros j Hj; specialize (Hl j Hj); lia).
    symmetry. apply omit_from_none.
    intros j [->|Hj]%elem_of_cons; [lia|]. specialize (Hl j Hj). lia.
  - rewrite (bool_decide_ext (k ∈ (k + S x)%nat :: l) (k ∈ l)).
    2:{ rewrite elem_of_cons. split; [intros [?|?]; [lia|done]|by right]. }
    replace (k + S x)%nat with (S k + x)%nat by lia.
    rewrite (IH (S k) x) by (intros j Hj; specialize (Hl j Hj); lia).
    done.
Qed.

Lemma delete_descending l : ∀ rows,
  StronglySorted lt l →
  foldl (fun acc x => delete x acc) rows (reverse l) = omit l rows.
Proof.
  induction l as [|x l IH] using rev_ind; intros rows Hl.
  { symmetry. apply omit_from_none. by intros j ?%elem_of_nil. }
  rewrite reverse_app. simpl.
  rewrite IH by (by apply StronglySorted_app_1_l in Hl). unfold omit.
  rewrite omit_from_delete.
  - apply omit_from_ext. intros j. rewrite elem_of_cons, elem_of_app, list_elem_of_singleton.
    simpl. tauto.
  - simpl. intros j Hj.
    apply (StronglySorted_app_1_elem_of _ _ _ j x Hl); [done|apply list_elem_of_here].
Qed.

Lemma delete_rows_run xs : ∀ (w : world t),
  for_each xs (fun x => modify_self (fun s =>
     set_interrupt_store (delete x (interrupt_store s)) s)) w
  = (Ok tt, World (current_thread w) (raises w) (trace w)
              (set_interrupt_store
                 (foldl (fun acc x => delete x acc) (interrupt_store (self w)) xs)
                 (self w))).
Proof.
  induction xs as [|x xs IH]; intros w; [done|].
  cbn [for_each]. unfold bind, modify_self. cbn -[for_each]. by rewrite IH.
Qed.

(** X23.  "Remove" takes out the selected rows and no others: for a
    selection of distinct rows of the store, the store holds afterwards the
    rows that were not selected, in their order; deleting from the highest
    index down is what makes the indices of the selection stay right. *)
Theorem remove_deletes_the_selected_rows (active_rows : list nat) (w : world t) :
  NoDup active_rows →
  Forall (fun x => x < length (interrupt_store (self w)))%nat active_rows →
  interrupt_store (self (on_btn_remove_clicked active_rows w).2)
  = omit active_rows (interrupt_store (self w)).
Proof.
  intros Hnd _. unfold on_btn_remove_clicked, bind. rewrite delete_rows_run.
  rewrite (proj1 (build_list_keeps_store _)). cbn.
  rewrite delete_descending.
  - apply omit_from_ext. intros j. by rewrite merge_sort_Permutation.
  - assert (StronglySorted Nat.le (merge_sort Nat.le active_rows)) as Hs.
    { apply StronglySorted_merge_sort; [apply _|]. intros a b. unfold Nat.le. lia. }
    assert (NoDup (merge_sort Nat.le active_rows)) as Hnd'.
    { by rewrite merge_sort_Permutation. }
    revert Hs Hnd'. generalize (merge_sort Nat.le active_rows). intros l.
    induction 1 as [|a l Hl IH Ha]; [constructor|].
    intros [Hnin Hnd']%NoDup_cons. constructor.
    + by apply IH.
    + apply Forall_forall. intros b Hb.
      rewrite Forall_forall in Ha. specialize (Ha b Hb). unfold Nat.le in Ha.
      assert (a ≠ b) by (intros ->; done). lia.
Qed.

Lemma fill_names_run names : ∀ th rs tr (s : t),
  for_each names (fun g => modify_self (fun s => set_var_names (var_names s ++ [g]) s))
    (World th rs tr s)
  = (Ok tt, World th rs tr (set_var_names (var_names s ++ names) s)).
Proof.
  induction names as [|g names IH]; intros th rs tr s.
  { cbn. by rewrite app_nil_r. }
  cbn [for_each]. unfold bind, modify_self. cbn -[for_each]. rewrite IH.
  cbn. by rewrite <-app_assoc.
Qed.

Lemma fill_dungeon_store_run l : ∀ th rs tr (s : t),
  for_each l (fun i => modify_self (fun s => set_dungeon_store (dungeon_store s ++ [i]) s))
    (World th rs tr s)
  = (Ok tt, World th rs tr (set_dungeon_store (dungeon_store s ++ l) s)).
Proof.
  induction l as [|i l IH]; intros th rs tr s.
  { cbn. by rewrite app_nil_r. }
  cbn [for_each]. unfold bind, modify_self. cbn -[for_each]. rewrite IH.
  cbn. by rewrite <-app_assoc.
Qed.

Lemma init_combos_run names (w : world t) :
  _init_combos names w
  = (Ok tt, World (current_thread w) (raises w) (trace w)
              (Build (list_dungeons (self w))
                     (seq 0 (length (list_dungeons (self w))))
                     (if bool_decide (0 < length (list_dungeons (self w)))%nat
                      then Some 0%nat else None)
                     (interrupt_store (self w)) names)).
Proof.
  unfold _init_combos. unfold bind at 1. unfold modify_self at 1. cbn -[for_each seq].
  unfold bind at 1. rewrite fill_names_run.
  unfold bind at 1. unfold modify_self at 1. cbn -[for_each seq].
  unfold bind at 1. rewrite fill_dungeon_store_run.
  unfold modify_self, set_active. cbn -[seq]. by rewrite length_seq.
Qed.

Lemma convert_rows_no_IndexError rows : (convert_rows rows).2 ≠ Some IndexError.
Proof.
  induction rows as [|v rows IH]; [done|]. cbn.
  destruct (entry_of_row v) as [e|x] eqn:He.
  - by destruct (convert_rows rows).
  - cbn. intros [= ->]. revert He. unfold entry_of_row.
    repeat (match goal with
            | |- context [if ?b then _ else _] => destruct b
            | |- context [match col1 v with _ => _ end] => destruct (col1 v) as [|q|q]
            | |- context [match ?q with xH => _ | _ => _ end] => destruct q
            end; try done).
Qed.

Lemma build_list_no_IndexError (w : world t) :
  (_get_current_dungeon (self w) < length (list_dungeons (self w)))%nat →
  (_build_list w).1 ≠ Raised IndexError.
Proof.
  intros Hd. rewrite build_list_run. cbv zeta.
  rewrite bool_decide_eq_true_2 by exact Hd.
  pose proof (convert_rows_no_IndexError (interrupt_store (self w))) as Hno.
  destruct (convert_rows (interrupt_store (self w))) as [es [x|]]; simpl in *.
  - intros [= ->]. done.
  - unfold call. simpl. by destruct (raises w _).
Qed.

(** X24.  After [_init_combos] the combo box addresses the lists one to
    one: the game variable names are the ones given, the selected dungeon
    is the first, and whichever row of the combo box is made active, the
    current dungeon is the index of that row and addresses a list of
    [list_dungeons], so that [_build_list] does not raise [IndexError],
    as long as there is a dungeon at all. *)
Theorem init_combos_addresses_the_lists names (w : world t) :
  list_dungeons (self w) ≠ [] →
  let s := self (_init_combos names w).2 in
  var_names s = names ∧
  _get_current_dungeon s = 0%nat ∧
  (∀ i, (i < length (list_dungeons s))%nat →
        _get_current_dungeon (set_active i s) = i) ∧
  ∀ a th rs tr,
    let w' := World th rs tr (set_cb_dungeon_active a s) in
    (_get_current_dungeon (self w') < length (list_dungeons s))%nat ∧
    (_build_list w').1 ≠ Raised IndexError.
Proof.
  intros Hne. rewrite init_combos_run. cbn -[seq _build_list _get_current_dungeon].
  assert (0 < length (list_dungeons (self w)))%nat as Hlen.
  { destruct (list_dungeons (self w)); [done|simpl; lia]. }
  rewrite bool_decide_eq_true_2 by done.
  split; [done|]. split.
  { unfold _get_current_dungeon. cbn -[seq]. by rewrite lookup_seq_lt. }
  split.
  { intros i Hi. unfold _get_current_dungeon, set_active. cbn -[seq].
    rewrite length_seq, bool_decide_eq_true_2 by done. by rewrite lookup_seq_lt. }
  intros a th rs tr.
  set (s := set_cb_dungeon_active a _).
  assert (_get_current_dungeon s < length (list_dungeons (self w)))%nat as Hd.
  { unfold _get_current_dungeon, s. cbn -[seq]. destruct a as [i|]; [|done].
    destruct (seq 0 (length (list_dungeons (self w))) !! i) as [d|] eqn:Hi; [|done].
    apply lookup_seq in Hi as [-> ?]. lia. }
  split; [exact Hd|].
  apply build_list_no_IndexError. exact Hd.
Qed.

End dungeon_more.

(** * The properties at work on sample inputs *)

Section samples.
Import ItemStore Eff.

(** The visibility flags of the rows of a store, in the order of [foreach]. *)
Example filter_pika :
  (fun p => (p, visible_at
                  (MainController.filter_refresh_store (Some "PIKA") sample_store) p))
    <$> forest_paths 0 sample_store
  = [([0], true); ([0; 0], true); ([0; 0; 0], false); ([0; 0; 1], true);
     ([0; 1], false); ([0; 1; 0], false)]%nat.
Proof. reflexivity. Qed.

Example filter_poke :
  (fun p => (p, visible_at
                  (MainController.filter_refresh_store (Some "poke") sample_store) p))
    <$> forest_paths 0 sample_store
  = [([0], true); ([0; 0], true); ([0; 0; 0], true); ([0; 0; 1], true);
     ([0; 1], true); ([0; 1; 0], true)]%nat.
Proof. reflexivity. Qed.

Example filter_none :
  (fun p => visible_at (MainController.filter_refresh_store None sample_store) p)
    <$> forest_paths 0 sample_store
  = [false; false; false; false; false; false].
Proof. reflexivity. Qed.

Example recent_files_reopened :
  MainController.recent_files
    (self (MainController._update_recent_files "/roms/sky.nds" (sample_world None)).2)
  = ["/roms/sky.nds"; "/roms/a.nds"].
Proof. reflexivity. Qed.

Example basename_sky : MainController.basename "/roms/sky.nds" = "sky.nds".
Proof. reflexivity. Qed.

Example tick_after_stop_false :
  (MonsterSprite._tick (MonsterSprite.stop_sprite_drawing
                          (MonsterSprite.start_sprite_drawing preview_world).2).2).1
  = Ok false.
Proof. reflexivity. Qed.

Lemma filter_visible_rows_have_visible_ancestors_witness :
  ∃ w', MainController._filter__refresh_results (sample_world (Some "PIKA"))
        = (Ok tt, w') ∧
        ∀ p a, visible_at (MainController._item_store (self w')) p = true →
               ancestor a p →
               visible_at (MainController._item_store (self w')) a = true.
Proof.
  apply (filter_visible_rows_have_visible_ancestors (sample_world (Some "PIKA"))).
  - exists true. reflexivity.
  - exists 0%nat. reflexivity.
Defined.



Lemma redraw_timer_spec_witness :
  ∃ w', MonsterSprite.start_sprite_drawing preview_world = (Ok tt, w') ∧
        trace w' = trace preview_world
                   ++ [QueueDraw; TimeoutAdded MonsterSprite.tick_interval] ∧
        MonsterSprite.timeouts (self w')
        = MonsterSprite.timeouts (self preview_world)
          ++ [MonsterSprite.next_timeout_id (self preview_world)].
Proof.
  apply (proj1 (proj2 redraw_timer_spec) preview_world
           (MonsterSprite.DrawArea 5%nat (Some 6%nat))).
  reflexivity.
Defined.

Lemma get_sprite_anim_keeps_index_in_range_witness :
  ∃ current w',
    MonsterSprite._rendered_frame_info (self preview_world)
      !! Z.to_nat (MonsterSprite._anim_counter (self preview_world)) = Some current ∧
    MonsterSprite._get_sprite_anim preview_world = (Ok current.2, w') ∧
    MonsterSprite._rendered_frame_info (self w')
    = MonsterSprite._rendered_frame_info (self preview_world) ∧
    anim_in_range (self w') ∧
    MonsterSprite._anim_counter (self w') =
      (if (current.1 <? MonsterSprite._frame_counter (self preview_world) + 1)%Z
       then if (Z.of_nat (length (MonsterSprite._rendered_frame_info
                                    (self preview_world)))
                <=? MonsterSprite._anim_counter (self preview_world) + 1)%Z
            then 0 else MonsterSprite._anim_counter (self preview_world) + 1
       else MonsterSprite._anim_counter (self preview_world))%Z.
Proof.
  apply (get_sprite_anim_keeps_index_in_range preview_world).
  - discriminate.
  - unfold anim_in_range. simpl. lia.
Defined.

Lemma save_iff_wanted_witness :
  MainController._save false None (sample_world None) = (Ok tt, sample_world None).
Proof.
  destruct (save_iff_wanted false None (sample_world None)) as (evs & _ & _ & H).
  apply H. reflexivity.
Defined.

Lemma update_recent_files_spec_witness :
  ∃ rest,
    MainController.recent_files
      (self (MainController._update_recent_files "/roms/sky.nds" (sample_world None)).2)
    = "/roms/sky.nds" :: rest ∧
    rest = filter (fun x => x ≠ "/roms/sky.nds")
                  (MainController.recent_files (self (sample_world None))).
Proof.
  destruct (update_recent_files_spec "/roms/sky.nds" (sample_world None))
    as (_ & rest & Hhead & _ & _ & _ & Hfilter & _).
  exists rest. split; [exact Hhead|]. apply Hfilter.
  apply (bool_decide_unpack _). vm_compute. reflexivity.
Defined.

End samples.

(** ** The further properties on sample worlds *)

Section filter_more_witnesses.
Import ItemStore Eff MainController.

Lemma filter_result_ignores_old_flags_witness :
  visible_at (_item_store (self (_filter__refresh_results
                                   (sample_world (Some "pika"))).2)) [0; 0; 1]%nat
  = visible_at (_item_store (self (_filter__refresh_results
                                     (hidden_world (Some "pika"))).2)) [0; 0; 1]%nat.
Proof.
  apply (filter_result_ignores_old_flags (sample_world (Some "pika"))
           (hidden_world (Some "pika"))).
  - exists true. reflexivity.
  - exists 0%nat. reflexivity.
  - exists true. reflexivity.
  - exists 0%nat. reflexivity.
  - reflexivity.
  - vm_compute. reflexivity.
Defined.




Lemma save_as_saves_under_new_name_witness :
  filename <$> rom_project
    (self (on_save_as_button_clicked add_nds true (Some "/roms/new")
             (sample_world None)).2)
  = Some "/roms/new.nds".
Proof.
  destruct (save_as_saves_under_new_name add_nds "/roms/new"
              (Project "/roms/sky.nds" false sample_store []) (sample_world None))
    as (H & _).
  - reflexivity.
  - exact H.
Defined.


Lemma reload_view_requests_shown_view_witness :
  ∃ w2, reload_view (on_view_loaded 1%nat (ViewWidget 12%nat 9%nat) 25
                       (sample_world None)).2 = (Ok tt, w2) ∧
        last (trace w2) = Some (TaskStarted 1%nat 12%nat 25) ∧
        visible_child (_editor_stack (self w2)) = Some es_loading ∧
        _main_item_list (self w2) = Some false ∧
        selection_matches (self w2) 1%nat (ViewWidget 12%nat 9%nat) 25.
Proof.
  apply (reload_view_requests_shown_view (sample_world None) 1%nat
           (ViewWidget 12%nat 9%nat) 25 9%nat).
  - reflexivity.
  - reflexivity.
  - exists true. reflexivity.
  - repeat split.
Defined.

Lemma on_file_opened_loads_tree_and_root_witness :
  ∃ w' ms,
    on_file_opened two_module_world = (Ok tt, w') ∧
    load_order [ModuleInfo "sprite" 20 [Node (sample_row "Sprites" 21%nat 0 true) []];
                ModuleInfo "lists" 10 [Node (sample_row "Lists" 22%nat 0 true) []]]
               ms ∧
    _item_store (self w')
    = [Node (sample_row "ROM" 10%nat 0 true) []] ++ concat (tree_items <$> ms) ∧
    selection_of (self w') = (Some 1%nat, Some 10%nat, Some 0%Z) ∧
    TaskStarted 1%nat 10%nat 0 ∈ trace w' ∧
    _main_item_list (self w') = Some false ∧
    visible_child (_editor_stack (self w')) = Some es_loading ∧
    _loading_dialog (self w') = None.
Proof.
  apply (on_file_opened_loads_tree_and_root two_module_world
           (Project "/roms/sky.nds" false
              [Node (sample_row "ROM" 10%nat 0 true) []]
              [ModuleInfo "sprite" 20 [Node (sample_row "Sprites" 21%nat 0 true) []];
               ModuleInfo "lists" 10 [Node (sample_row "Lists" 22%nat 0 true) []]])
           (Node (sample_row "ROM" 10%nat 0 true) []) []).
  - reflexivity.
  - intros name. reflexivity.
  - reflexivity.
  - reflexivity.
  - exists true. reflexivity.
Defined.

End filter_more_witnesses.

Section geometry_more_witnesses.
Import MainController GeometrySpec.

Lemma fired_handler_stores_current_geometry_witness :
  stored_size (run ([Configure; Changed (5, 5) (800, 600) false; Configure]
                    ++ [Fire 1%nat]) (init (0, 0) (640, 480) false))
  = Some (800, 600)%Z.
Proof.
  destruct (fired_handler_stores_current_geometry
              [Configure; Changed (5, 5)%Z (800, 600)%Z false; Configure]
              (0, 0)%Z (640, 480)%Z false 1%nat) as (_ & _ & H & _).
  - reflexivity.
  - exact H.
Defined.

End geometry_more_witnesses.

Section sprite_more_witnesses.
Import Eff MonsterSprite.

Lemma frame_is_drawn_for_its_duration_witness :
  ∃ w', turns (turns_of 1 4) 1 fresh_preview_world
        = (Ok (replicate (turns_of 1 4) (Rendered 100 0 0 32 32)), w') ∧
        showing (_rendered_frame_info (self fresh_preview_world))
                (next_index 2 0) 0 (self w').
Proof.
  apply (frame_is_drawn_for_its_duration 1 fresh_preview_world
           (_rendered_frame_info (self fresh_preview_world)) 0%nat 4%Z
           (Rendered 100 0 0 32 32)).
  - split; [reflexivity|]. split; [reflexivity|]. split; [reflexivity|].
    eexists. split; [reflexivity|]. eexists. reflexivity.
  - reflexivity.
  - lia.
Defined.

Lemma animation_loops_witness :
  ∃ w', turns (turns_of_run 1 (_rendered_frame_info (self fresh_preview_world))) 1
              fresh_preview_world
        = (Ok (one_run 1 (_rendered_frame_info (self fresh_preview_world))), w') ∧
        showing (_rendered_frame_info (self fresh_preview_world)) 0 0 (self w').
Proof.
  apply (animation_loops 1 fresh_preview_world
           (_rendered_frame_info (self fresh_preview_world))).
  - discriminate.
  - repeat constructor; simpl; lia.
  - split; [reflexivity|]. split; [reflexivity|]. split; [reflexivity|].
    eexists. split; [reflexivity|]. eexists. reflexivity.
Defined.

Lemma get_view_makes_preview_ready_witness :
  ∃ w', get_view (DrawArea 5%nat (Some 6%nat)) true
                 [(4%Z, Rendered 100 0 0 32 32)] new_preview_world = (Ok MainBox, w') ∧
        _draw_area (self w') = Some (DrawArea 5%nat (Some 6%nat)) ∧
        _rendered_frame_info (self w')
        = _rendered_frame_info (self new_preview_world)
          ++ [(4%Z, Rendered 100 0 0 32 32)] ∧
        _drawing_is_active (self w') = true ∧
        timeouts (self w')
        = timeouts (self new_preview_world)
          ++ [next_timeout_id (self new_preview_world)] ∧
        _anim_counter (self w') = _anim_counter (self new_preview_world) ∧
        _frame_counter (self w') = _frame_counter (self new_preview_world) ∧
        (∀ focus, self new_preview_world
                  = init (item_id (self new_preview_world)) focus →
                  (anim_in_range (self w') ↔ [(4%Z, Rendered 100 0 0 32 32)] ≠ [])).
Proof.
  apply (get_view_makes_preview_ready (DrawArea 5%nat (Some 6%nat)) true
           [(4%Z, Rendered 100 0 0 32 32)] new_preview_world).
  - intros name. reflexivity.
  - simpl. lia.
Defined.

Lemma empty_animation_draw_raises_witness :
  on_draw_sprite_draw
    (get_view (DrawArea 5%nat (Some 6%nat)) false [] new_preview_world).2
  = (Raised IndexError,
     (get_view (DrawArea 5%nat (Some 6%nat)) false [] new_preview_world).2).
Proof.
  apply (empty_animation_draw_raises (DrawArea 5%nat (Some 6%nat)) false 25 true
           new_preview_world).
  - intros name. reflexivity.
  - lia.
  - reflexivity.
Defined.

End sprite_more_witnesses.

Section dungeon_more_witnesses.
Import Eff DungeonInterrupt.

Lemma show_then_build_list_round_trip_witness :
  (on_cb_dungeon_changed in_range_world).1 = Ok tt ∧
  interrupt_store (self (on_cb_dungeon_changed in_range_world).2)
  = row_of (var_names (self in_range_world))
      <$> [Entry 1 ALWAYS 0 0 0 false; Entry 2 ALWAYS 0 0 0 false;
           Entry 3 ALWAYS 0 0 0 false] ∧
  in_sync (self (on_cb_dungeon_changed in_range_world).2) ∧
  list_dungeons (self (_build_list (on_cb_dungeon_changed in_range_world).2).2)
  = list_dungeons (self in_range_world).
Proof.
  apply (show_then_build_list_round_trip in_range_world
           [Entry 1 ALWAYS 0 0 0 false; Entry 2 ALWAYS 0 0 0 false;
            Entry 3 ALWAYS 0 0 0 false]).
  - reflexivity.
  - repeat constructor; simpl; lia.
Defined.


Lemma remove_deletes_the_selected_rows_witness :
  interrupt_store (self (on_btn_remove_clicked [2; 0]%nat in_range_world).2)
  = omit [2; 0]%nat (interrupt_store (self in_range_world)).
Proof.
  apply (remove_deletes_the_selected_rows [2; 0]%nat in_range_world).
  - apply (bool_decide_unpack _). vm_compute. reflexivity.
  - repeat constructor; simpl; lia.
Defined.

Lemma init_combos_addresses_the_lists_witness :
  var_names (self (_init_combos ["VERSION"; "FLAG"] unfilled_world).2)
  = ["VERSION"; "FLAG"] ∧
  _get_current_dungeon (self (_init_combos ["VERSION"; "FLAG"] unfilled_world).2)
  = 0%nat.
Proof.
  destruct (init_combos_addresses_the_lists ["VERSION"; "FLAG"] unfilled_world)
    as (H1 & H2 & _).
  - discriminate.
  - split; [exact H1|exact H2].
Defined.

End dungeon_more_witnesses.
